(** * ProjecTo: stage machine and motion subsystem

    A shallow embedding of the control core of the exhibit:

    - [src/lerobot_integration/utils/robot_utils.py]
      ([interpolate_positions], [smooth_move_to_position],
      [check_position_safety], [get_so101_joint_limits],
      [create_default_positions], [load_positions_from_file],
      [save_positions_to_file], [validate_robot_config]);
    - [src/lerobot_integration/robot_devices/robots/manipulator.py]
      ([ensure_safe_goal_position], class [ManipulatorRobot]);
    - [src/robot/enhanced_robot_interface.py]
      (class [EnhancedRobotInterface], with its position store);
    - [src/core/stage_controller.py] (class [StageController]).

    A Python float is the rational it denotes ([Qc], canonical fractions,
    so that equality of positions is Leibniz equality), and arithmetic
    rounds to the nearest number of the format (module [Float]): Python's
    own arithmetic to binary64, arithmetic on the tensors to binary32.
    Infinities and NaN are not values of the model; the statements are
    about computations that stay in the finite range.  The whole numbers
    that the repository writes into positions and limits (the presets,
    the SO101 table) are numbers of either format.  A Python [dict] keyed
    by strings is a [gmap string _]; the order in which a dict is
    iterated only influences the order of console messages, which the
    properties below do not depend on. *)

From Stdlib Require Import QArith Qcanon Qabs Qcabs Qround Lqa.
From stdpp Require Import base numbers gmap strings list fin_maps.

Local Open Scope Qc_scope.
Local Open Scope list_scope.

(** ** Numbers *)

Module Num.

(** [a <= b] on Python numbers, as a boolean. *)
Definition leb (a b : Qc) : bool := Qle_bool a b.

Definition min (a b : Qc) : Qc := if leb a b then a else b.
Definition max (a b : Qc) : Qc := if leb a b then b else a.

Definition of_Z (n : Z) : Qc := Q2Qc (inject_Z n).

(** A decimal constant [n / d]. *)
Definition frac (n : Z) (d : positive) : Qc := Q2Qc (n # d).

(** Python's [int(x)] on a float: truncation towards zero. *)
Definition py_int (x : Qc) : Z := Z.quot (Qnum x) (Zpos (Qden x)).

End Num.

(** ** Floating point

    A Python [float] and an entry of a [torch.float32] tensor are finite
    binary fractions; as values they are the rationals they denote.  An
    arithmetic operation returns the exact result rounded to the nearest
    number of the format, ties going to the even significand.  Overflow
    to an infinity and NaN are outside this model. *)

Module Float.

(** [2 ^ k], also for negative [k]. *)
Definition two_pow (k : Z) : Qc :=
  if (0 <=? k)%Z then Num.of_Z (2 ^ k) else / Num.of_Z (2 ^ (- k)).

(** [2 ^ l <= n / d] *)
Definition pow2_le (l n : Z) (d : positive) : bool :=
  if (0 <=? l)%Z then (2 ^ l * Z.pos d <=? n)%Z
  else (Z.pos d <=? n * 2 ^ (- l))%Z.

(** [floor (log2 |x|)] for [x <> 0]. *)
Definition ilog2 (x : Qc) : Z :=
  let n := Z.abs (Qnum x) in
  let l := (Z.log2 n - Z.log2 (Z.pos (Qden x)))%Z in
  if pow2_le l n (Qden x) then l else (l - 1)%Z.

(** The nearest integer, ties to even. *)
Definition round_half_even (y : Qc) : Z :=
  let f := Qfloor y in
  match Qccompare (y - Num.of_Z f) (Num.frac 1 2) with
  | Lt => f
  | Gt => (f + 1)%Z
  | Eq => if Z.even f then f else (f + 1)%Z
  end.

(** Rounding to a format with [prec] significant bits whose smallest
    positive number is [2 ^ qmin]. *)
Definition round (prec qmin : Z) (x : Qc) : Qc :=
  if bool_decide (x = 0) then 0
  else
    let q := Z.max (ilog2 x - (prec - 1)) qmin in
    Num.of_Z (round_half_even (x * two_pow (- q))) * two_pow q.

End Float.

(** Python floats: IEEE binary64. *)
Module Float64.
Definition rnd : Qc → Qc := Float.round 53 (-1074).
Definition add (a b : Qc) : Qc := rnd (a + b).
Definition sub (a b : Qc) : Qc := rnd (a - b).
Definition mul (a b : Qc) : Qc := rnd (a * b).
Definition div (a b : Qc) : Qc := rnd (a / b).
(** The numbers that are floats. *)
Definition representable (x : Qc) : Prop := rnd x = x.
End Float64.

(** Entries of a [torch.float32] tensor: IEEE binary32. *)
Module Float32.
Definition rnd : Qc → Qc := Float.round 24 (-149).
Definition add (a b : Qc) : Qc := rnd (a + b).
Definition sub (a b : Qc) : Qc := rnd (a - b).
Definition mul (a b : Qc) : Qc := rnd (a * b).
Definition representable (x : Qc) : Prop := rnd x = x.
End Float32.

Arguments Float64.rnd : simpl never.
Arguments Float32.rnd : simpl never.

(** ** Python results and exceptions *)

Inductive exn : Type :=
  | ZeroDivisionError
  | RuntimeError
  | ImportError
  | AttributeError
  | NameError
  | ValueError
  | OverflowError
  | DeviceError.          (* any other exception raised by the driver *)

Inductive res (A : Type) : Type :=
  | Ok (a : A)
  | Raise (e : exn).
Arguments Ok {A} a.
Arguments Raise {A} e.

#[global] Instance exn_eq_dec : EqDecision exn.
Proof. solve_decision. Defined.
#[global] Instance res_eq_dec {A} `{EqDecision A} : EqDecision (res A).
Proof. solve_decision. Defined.

Definition res_bind {A B} (r : res A) (k : A → res B) : res B :=
  match r with
  | Ok a => k a
  | Raise e => Raise e
  end.

(** A position maps joint names to setpoints; the limit table maps joint
    names to a [(min, max)] pair. *)
Abbreviation Position := (gmap string Qc).
Abbreviation Limits := (gmap string (Qc * Qc)).

(** ** [robot_utils.py] *)

Module RobotUtils.

(** [step / steps] on Python ints: true division, which raises on a zero
    divisor and otherwise gives the float nearest to the quotient. *)
Definition py_truediv (a b : Z) : res Qc :=
  if decide (b = 0%Z) then Raise ZeroDivisionError
  else Ok (Float64.div (Num.of_Z a) (Num.of_Z b)).

(** [range(n)]: empty when [n <= 0]. *)
Definition py_range (n : Z) : list Z := Z.of_nat <$> seq 0 (Z.to_nat n).

(** The body of the inner loop of [interpolate_positions], for one joint
    of [start_pos]. *)
Definition interpolate_joint (end_pos : Position) (t : Qc)
    (joint : string) (s : Qc) : Qc :=
  match end_pos !! joint with
  | Some e => Float64.add s (Float64.mul t (Float64.sub e s))
  | None => s
  end.

(** The dict [pos] built by the inner loop: one entry per joint of
    [start_pos]. *)
Definition interpolate_step (start_pos end_pos : Position) (t : Qc)
    : Position :=
  map_imap (λ joint s, Some (interpolate_joint end_pos t joint s)) start_pos.

(** The outer loop [for step in range(steps + 1)], accumulating
    [interpolated]. *)
Fixpoint interpolate_loop (start_pos end_pos : Position) (steps : Z)
    (rng : list Z) (interpolated : list Position) : res (list Position) :=
  match rng with
  | [] => Ok interpolated
  | step :: rng' =>
      res_bind (py_truediv step steps) (λ t,
        interpolate_loop start_pos end_pos steps rng'
          (interpolated ++ [interpolate_step start_pos end_pos t]))
  end.

Definition interpolate_positions (start_pos end_pos : Position) (steps : Z)
    : res (list Position) :=
  interpolate_loop start_pos end_pos steps (py_range (steps + 1)) [].

(** [min_pos <= pos <= max_pos] *)
Definition within (lim : Qc * Qc) (pos : Qc) : bool :=
  Num.leb lim.1 pos && Num.leb pos lim.2.

(** The loop of [check_position_safety] over [positions.items()], with
    its early [return False]. *)
Fixpoint check_items (items : list (string * Qc)) (limits : Limits) : bool :=
  match items with
  | [] => true
  | (joint, pos) :: items' =>
      match limits !! joint with
      | Some lim =>
          if negb (within lim pos) then false
          else check_items items' limits
      | None => check_items items' limits
      end
  end.

Definition check_position_safety (positions : Position) (limits : Limits)
    : bool :=
  check_items (map_to_list positions) limits.

(** A five-joint pose, as the literals of [create_default_positions]. *)
Definition pose (pan lift elbow flex roll : Z) : Position :=
  <["shoulder_pan" := Num.of_Z pan]> (<["shoulder_lift" := Num.of_Z lift]>
  (<["elbow_flex" := Num.of_Z elbow]> (<["wrist_flex" := Num.of_Z flex]>
  (<["wrist_roll" := Num.of_Z roll]> ∅)))).

Definition create_default_positions : gmap string Position :=
  <["rest" := pose 0 (-1024) 1024 0 0]>
  (<["V" := pose 0 (-1024) 2048 (-1024) 0]>
  (<["tracking" := pose 0 (-512) 1536 (-512) 0]>
  (<["vertical" := pose 0 0 (-1024) 1024 0]> ∅))).

Definition limit (lo hi : Z) : Qc * Qc := (Num.of_Z lo, Num.of_Z hi).

Definition get_so101_joint_limits : Limits :=
  <["shoulder_pan" := limit (-2048) 2048]>
  (<["shoulder_lift" := limit (-2048) 2048]>
  (<["elbow_flex" := limit (-2048) 2048]>
  (<["wrist_flex" := limit (-2048) 2048]>
  (<["wrist_roll" := limit (-2048) 2048]>
  (<["gripper" := limit 0 1024]> ∅))))).

End RobotUtils.

(** ** [manipulator.py]: the relative-target clamp *)

Module Clamp.

(** [torch.allclose(input, other)] with the library's default tolerances
    [rtol = 1e-05] and [atol = 1e-08]:
    [|input - other| <= atol + |rtol * other|], computed on [float32]
    tensors, so that the two tolerances and every operation round to
    [float32]. *)
Definition rtol : Qc := Num.frac 1 100000.
Definition atol : Qc := Num.frac 1 100000000.

Definition allclose (input other : Qc) : bool :=
  Num.leb (Qcabs (Float32.sub input other))
    (Float32.add (Float32.rnd atol)
       (Qcabs (Float32.mul (Float32.rnd rtol) other))).

(** [ensure_safe_goal_position] on one-element [float32] tensors
    ([torch.tensor([pos])] of a float, and what [read_position] returns)
    and a scalar bound, so a tensor is one number here; the bound becomes
    a [float32] tensor too, and the subtraction and the addition round to
    [float32].  The second component tells whether the warning was
    logged.  Tensors of other dtypes and a list as bound are outside the
    model. *)
Definition ensure_safe_goal_position
    (goal_pos present_pos max_relative_target : Qc) : Qc * bool :=
  let diff := Float32.sub goal_pos present_pos in
  let max_relative_target := Float32.rnd max_relative_target in
  let safe_diff := Num.min diff max_relative_target in
  let safe_diff := Num.max safe_diff (- max_relative_target) in
  let safe_goal_pos := Float32.add present_pos safe_diff in
  (safe_goal_pos, negb (allclose goal_pos safe_goal_pos)).

(** The loop of [write_position] that builds [safe_position]: joints of
    the goal that the present position also has are clamped, the others
    are passed through. *)
Definition safe_joint (current_pos : Position) (max_relative_target : Qc)
    (motor_name : string) (target_pos : Qc) : Qc * bool :=
  match current_pos !! motor_name with
  | Some current =>
      ensure_safe_goal_position target_pos current max_relative_target
  | None => (target_pos, false)
  end.

Definition safe_position (position current_pos : Position)
    (max_relative_target : Qc) : Position :=
  map_imap (λ motor_name target_pos,
    Some (safe_joint current_pos max_relative_target motor_name target_pos).1)
    position.

(** The joints for which the warning was logged. *)
Definition warned_joints (position current_pos : Position)
    (max_relative_target : Qc) : gmap string Qc :=
  map_filter (λ kv,
    (safe_joint current_pos max_relative_target kv.1 kv.2).2 = true)
    _ position.

End Clamp.

(** ** Effects

    A method of a Python object is a function of the state it can reach.
    It returns a result or raises, leaves a new state behind (also when it
    raises), and produces a chronological trace of what it did to the
    outside: Qt signals, calls on the device adapter, traffic on the motor
    bus, stage hooks, calls on the idle [QTimer], console lines and
    sleeps.  Console lines are paraphrased in English. *)

Inductive Signal : Type :=
  | status_changed (state : string)
  | position_reached (target_name : string)
  | movement_started (target_name : string)
  | movement_completed (target_name : string)
  | error_occurred (context : string) (e : exn)
  | stage_changed (old_stage new_stage : string)
  | stage_entered (stage : string)
  | stage_exited (stage : string).

Inductive AdapterCall : Type :=
  | ARead                       (* [ManipulatorRobot.read_position] *)
  | AWrite (p : Position).      (* [ManipulatorRobot.write_position] *)

Inductive BusCall : Type :=
  | BRead                       (* [arm.read("Present_Position")] *)
  | BWrite (p : Position).      (* [arm.write("Goal_Position", p)] *)

Inductive HookCall : Type :=
  | Enter (stage : string)      (* the stage's [_enter_..._stage] method *)
  | Exit (stage : string).      (* the stage's [_exit_..._stage] method *)

Inductive TimerCall : Type :=
  | TimerStart (msec : Z)       (* [QTimer.start(msec)] *)
  | TimerStop.                  (* [QTimer.stop()] *)

Inductive Out : Type :=
  | Emit (s : Signal)
  | Adapter (c : AdapterCall)
  | Bus (c : BusCall)
  | Hook (h : HookCall)
  | Timer (c : TimerCall)
  | Print (line : string)
  | Sleep (seconds : Qc).

Definition is_signal (o : Out) : bool :=
  match o with Emit _ => true | _ => false end.
Definition is_adapter_io (o : Out) : bool :=
  match o with Adapter _ | Bus _ => true | _ => false end.
Definition is_write (o : Out) : bool :=
  match o with Adapter (AWrite _) | Bus (BWrite _) => true | _ => false end.

(** The signals, resp. the adapter traffic, of a trace. *)
Definition signals (t : list Out) : list Out := List.filter is_signal t.
Definition adapter_io (t : list Out) : list Out := List.filter is_adapter_io t.
Definition writes (t : list Out) : list Out := List.filter is_write t.

Module Py.

(** The longest sleep the clock behind [time.sleep] can count:
    [2 ^ 63 - 1] nanoseconds, in seconds. *)
Definition max_sleep : Qc := Num.frac 9223372036854775807 1000000000.

Section Monad.
Context {S : Type}.

Definition M (A : Type) : Type := S → res A * S * list Out.

Definition ret {A} (a : A) : M A := λ s, (Ok a, s, []).

Definition bind {A B} (m : M A) (k : A → M B) : M B := λ s,
  match m s with
  | (Ok a, s', t) =>
      match k a s' with (r, s'', t') => (r, s'', t ++ t') end
  | (Raise e, s', t) => (Raise e, s', t)
  end.

Definition raise {A} (e : exn) : M A := λ s, (Raise e, s, []).

(** [try: m except Exception as e: h e] *)
Definition try_except {A} (m : M A) (h : exn → M A) : M A := λ s,
  match m s with
  | (Ok a, s', t) => (Ok a, s', t)
  | (Raise e, s', t) =>
      match h e s' with (r, s'', t') => (r, s'', t ++ t') end
  end.

Definition get : M S := λ s, (Ok s, s, []).
Definition gets {A} (f : S → A) : M A := λ s, (Ok (f s), s, []).
Definition modify (f : S → S) : M unit := λ s, (Ok tt, f s, []).
Definition tell (o : Out) : M unit := λ s, (Ok tt, s, [o]).
Definition emit (sig : Signal) : M unit := tell (Emit sig).
Definition print (line : string) : M unit := tell (Print line).
Definition sleep (d : Qc) : M unit := tell (Sleep d).

(** [time.sleep(d)], which refuses a negative length with a
    [ValueError] and a length its clock cannot count with an
    [OverflowError]; [sleep] above is [asyncio.sleep], which does
    neither.  Close to [max_sleep] the answer of the real call depends on
    rounding and on the platform; the properties below stay away from
    it. *)
Definition time_sleep (d : Qc) : M unit :=
  if negb (Num.leb 0 d) then raise ValueError
  else if negb (Num.leb d max_sleep) then raise OverflowError
  else tell (Sleep d).

(** A pure computation that may raise. *)
Definition lift_res {A} (r : res A) : M A := λ s, (r, s, []).

(** [for x in xs: body x] *)
Fixpoint for_each {A} (xs : list A) (body : A → M unit) : M unit :=
  match xs with
  | [] => ret tt
  | x :: xs' => bind (body x) (λ _, for_each xs' body)
  end.
End Monad.
Arguments M : clear implicits.
End Py.

Declare Scope py_scope.
Delimit Scope py_scope with py.
Notation "'let!' x ':=' m 'in' k" := (Py.bind m (λ x, k))
  (at level 10, x name, m at level 100, k at level 200,
   format "'[v' 'let!'  x  ':='  m  'in' '/' k ']'") : py_scope.
Notation "m '>>' k" := (Py.bind m (λ _, k))
  (at level 100, k at level 200, right associativity,
   format "'[v' m  '>>' '/' k ']'") : py_scope.

Local Open Scope py_scope.

(** ** The external motor-bus driver

    The [lerobot] driver library is not part of the repository.  Its
    behaviour is a parameter: whether its modules can be imported, whether
    building the bus and camera objects raises, and what a read or a write
    on the bus does to the hardware state [Dev]. *)

Record Driver (Dev : Type) : Type := {
  drv_import : option exn;
    (* [from lerobot... import ...]; [None] when the import succeeds *)
  drv_make_motors_buses : option exn;
    (* [make_motors_buses_from_configs] *)
  drv_make_cameras : option exn;
    (* [make_cameras_from_configs] *)
  drv_read : Dev → res Position * Dev;
  drv_write : Position → Dev → res unit * Dev
}.
Arguments drv_import {Dev} _.
Arguments drv_make_motors_buses {Dev} _.
Arguments drv_make_cameras {Dev} _.
Arguments drv_read {Dev} _ _.
Arguments drv_write {Dev} _ _ _.

(** ** [manipulator.py]: class [ManipulatorRobot] *)

Module Manipulator.

(** The part of [ManipulatorRobotConfig] the controller reads:
    [follower_arms] (arm name to motor names, in dict order),
    [cameras] (whether there are any), [max_relative_target], [mock].
    [leader_arms] is empty in every configuration the interface builds. *)
Record Config : Type := {
  follower_arms_cfg : list (string * list string);
  has_cameras : bool;
  max_relative_target : option Qc;
  mock : bool
}.

Record Robot : Type := {
  config : Config;
  is_connected : bool;
  mock_mode : bool;
  follower_arms : list string;            (* names of the bus objects *)
  mock_positions : gmap string Position   (* arm name to position *)
}.

Definition set_is_connected (b : bool) (r : Robot) : Robot :=
  {| config := config r; is_connected := b; mock_mode := mock_mode r;
     follower_arms := follower_arms r; mock_positions := mock_positions r |}.
Definition set_mock_mode (b : bool) (r : Robot) : Robot :=
  {| config := config r; is_connected := is_connected r; mock_mode := b;
     follower_arms := follower_arms r; mock_positions := mock_positions r |}.
Definition set_follower_arms (a : list string) (r : Robot) : Robot :=
  {| config := config r; is_connected := is_connected r;
     mock_mode := mock_mode r; follower_arms := a;
     mock_positions := mock_positions r |}.
Definition set_mock_positions (m : gmap string Position) (r : Robot)
    : Robot :=
  {| config := config r; is_connected := is_connected r;
     mock_mode := mock_mode r; follower_arms := follower_arms r;
     mock_positions := m |}.

(** [ManipulatorRobot.__init__] *)
Definition init (cfg : Config) : Robot :=
  {| config := cfg; is_connected := false; mock_mode := mock cfg;
     follower_arms := []; mock_positions := ∅ |}.

(** [{name: torch.tensor([pos]) for name, pos in target_positions.items()}]:
    the tensor of a Python float holds its nearest [float32].  (The
    tensor of a whole number holds that number; for the presets, which
    are below [2 ^ 24], that is the same.) *)
Definition tensor_positions (target_positions : Position) : Position :=
  Float32.rnd <$> target_positions.

(** The robot object together with the hardware it talks to. *)
Definition World (Dev : Type) : Type := Robot * Dev.
Definition Mth (Dev : Type) (A : Type) : Type := Py.M (World Dev) A.

Section WithDriver.
Context {Dev : Type} (drv : Driver Dev).

#[local] Abbreviation M := (Mth Dev).

Definition self : M Robot := Py.gets fst.
Definition update (f : Robot → Robot) : M unit :=
  Py.modify (λ w, (f w.1, w.2)).

(** A call into the driver that may raise. *)
Definition external (outcome : option exn) : M unit :=
  match outcome with
  | None => Py.ret tt
  | Some e => Py.raise e
  end.

Definition bus_read : M Position := λ w,
  match drv_read drv w.2 with
  | (r, d) => (r, (w.1, d), [Bus BRead])
  end.

Definition bus_write (p : Position) : M unit := λ w,
  match drv_write drv p w.2 with
  | (r, d) => (r, (w.1, d), [Bus (BWrite p)])
  end.

(** [{motor_name: 0.0 for motor_name in motors.keys()}] *)
Definition zero_position (motors : list string) : Position :=
  list_to_map ((λ m, (m, 0%Qc)) <$> motors).

Definition _connect_mock_devices : M unit :=
  let! r := self in
  Py.for_each (follower_arms_cfg (config r)) (λ arm,
    update (λ r, set_mock_positions
      (<[arm.1 := zero_position arm.2]> (mock_positions r)) r)) >>
  Py.print "mock devices connected".

Definition _connect_real_devices : M unit :=
  Py.try_except
    (external (drv_import drv) >>
     let! r := self in
     (if negb (bool_decide (follower_arms_cfg (config r) = [])) then
        external (drv_make_motors_buses drv) >>
        update (set_follower_arms (fst <$> follower_arms_cfg (config r))) >>
        Py.print "follower arm connected"
      else Py.ret tt) >>
     (if has_cameras (config r) then
        external (drv_make_cameras drv) >>
        Py.print "cameras connected"
      else Py.ret tt))
    (λ e,
      match e with
      | ImportError =>
          Py.print "hardware components unavailable, switching to mock mode" >>
          update (set_mock_mode true) >>
          _connect_mock_devices
      | _ => Py.raise e
      end).

Definition connect : M bool :=
  let! r := self in
  if is_connected r then
    Py.print "already connected" >> Py.ret true
  else
    Py.try_except
      ((if mock_mode r then
          Py.print "mock mode: connecting" >> _connect_mock_devices
        else
          Py.print "real mode: connecting" >> _connect_real_devices) >>
       update (set_is_connected true) >>
       Py.print "robot connected" >>
       Py.ret true)
      (λ e, Py.print "robot connection failed" >> Py.ret false).

Definition _read_mock_position : M Position :=
  let! r := self in
  match follower_arms_cfg (config r) with
  | (arm_name, _) :: _ =>
      Py.ret (default ∅ (mock_positions r !! arm_name))
  | [] => Py.ret ∅
  end.

Definition _read_real_position : M Position :=
  Py.try_except
    (let! r := self in
     match follower_arms r with
     | _ :: _ => bus_read
     | [] => Py.ret ∅
     end)
    (λ e, Py.print "read failed" >> Py.ret ∅).

(** [read_position("follower")] *)
Definition read_position : M Position :=
  Py.tell (Adapter ARead) >>
  let! r := self in
  if negb (is_connected r) then Py.raise RuntimeError
  else if mock_mode r then _read_mock_position
  else _read_real_position.

Definition _write_mock_position (position : Position) : M bool :=
  let! r := self in
  match follower_arms_cfg (config r) with
  | (arm_name, _) :: _ =>
      update (λ r, set_mock_positions
        (<[arm_name := position ∪ default ∅ (mock_positions r !! arm_name)]>
           (mock_positions r)) r) >>
      Py.print "mock position written" >>
      Py.ret true
  | [] => Py.ret false
  end.

Definition _write_real_position (position : Position) : M bool :=
  Py.try_except
    (let! r := self in
     match follower_arms r with
     | _ :: _ =>
         bus_write position >>
         Py.print "real position written" >>
         Py.ret true
     | [] => Py.ret false
     end)
    (λ e, Py.print "write failed" >> Py.ret false).

(** One console warning per joint that [ensure_safe_goal_position]
    flags. *)
Definition log_clamp_warnings (position current_pos : Position)
    (bound : Qc) : M unit :=
  Py.for_each (map_to_list (Clamp.warned_joints position current_pos bound))
    (λ _, Py.print "relative goal position magnitude had to be clamped").

(** [write_position(position, "follower")] *)
Definition write_position (position : Position) : M bool :=
  Py.tell (Adapter (AWrite position)) >>
  let! r := self in
  if negb (is_connected r) then Py.raise RuntimeError
  else
    let! position :=
      match max_relative_target (config r) with
      | Some bound =>
          let! current_pos := read_position in
          if bool_decide (current_pos = ∅) then Py.ret position
          else
            log_clamp_warnings position current_pos bound >>
            Py.ret (Clamp.safe_position position current_pos bound)
      | None => Py.ret position
      end in
    if mock_mode r then _write_mock_position position
    else _write_real_position position.

Definition get_current_positions : M Position := read_position.

Definition move_to_position (target_positions : Position) : M bool :=
  write_position (tensor_positions target_positions).

Definition is_mock : M bool := Py.gets (λ w, mock_mode w.1).

End WithDriver.

End Manipulator.

(** ** [robot_utils.py]: [smooth_move_to_position] *)

Module SmoothMove.
Section WithDriver.
Context {Dev : Type} (drv : Driver Dev).

(** The loop [for i, pos in enumerate(path)]: the boolean returned by
    [robot.move_to_position] is dropped, as in the source. *)
Definition follow_path (path : list Position) (delay : Qc)
    : Manipulator.Mth Dev unit :=
  Py.for_each path (λ pos,
    Py.print "move step" >>
    let! _ := Manipulator.move_to_position drv pos in
    Py.time_sleep delay).

Definition smooth_move_to_position (target_positions : Position)
    (steps : Z) (delay : Qc) : Manipulator.Mth Dev bool :=
  Py.try_except
    (let! current_positions := Manipulator.get_current_positions drv in
     let! path := Py.lift_res
       (RobotUtils.interpolate_positions current_positions
          target_positions steps) in
     follow_path path delay >>
     Py.print "smooth move done" >>
     Py.ret true)
    (λ e, Py.print "smooth move failed" >> Py.ret false).
End WithDriver.
End SmoothMove.

(** ** [enhanced_robot_interface.py]: class [EnhancedRobotInterface] *)

Module Interface.

(** The fields of [RobotConfig] the interface reads. *)
Record RobotConfig : Type := {
  follower_port : string;
  movement_steps : Z;
  step_delay : Qc
}.

(** What the import of the integration package left behind.  When it
    failed, [LEROBOT_AVAILABLE] is false and the names the package would
    have bound ([check_position_safety], [create_projecto_follower_only_config],
    the robot class, ...) are unbound; no robot object can exist then. *)
Inductive Lerobot : Type :=
  | NotImported
  | Imported (robot : option Manipulator.Robot).

Record State : Type := {
  config : RobotConfig;
  lerobot_config : option Manipulator.Config;
  is_connected : bool;
  current_position : string;
  target_position : option string;
  is_moving : bool;
  torque_enabled : bool;
  lerobot : Lerobot;
  use_lerobot : bool;
  saved_positions : gmap string Position
}.

(** [LEROBOT_AVAILABLE] *)
Definition lerobot_available (s : State) : bool :=
  match lerobot s with
  | Imported _ => true
  | NotImported => false
  end.

(** [self.lerobot_robot] *)
Definition lerobot_robot (s : State) : option Manipulator.Robot :=
  match lerobot s with
  | Imported robot => robot
  | NotImported => None
  end.

(** [self.joint_limits] is assigned once, in [__init__]:
    [get_so101_joint_limits() if LEROBOT_AVAILABLE else {}]. *)
Definition joint_limits (s : State) : Limits :=
  if lerobot_available s then RobotUtils.get_so101_joint_limits else ∅.

Definition set_lerobot_config (c : option Manipulator.Config) (s : State)
    : State :=
  {| config := config s; lerobot_config := c;
     is_connected := is_connected s;
     current_position := current_position s;
     target_position := target_position s; is_moving := is_moving s;
     torque_enabled := torque_enabled s; lerobot := lerobot s;
     use_lerobot := use_lerobot s; saved_positions := saved_positions s |}.
Definition set_is_connected (b : bool) (s : State)
    : State :=
  {| config := config s; lerobot_config := lerobot_config s;
     is_connected := b; current_position := current_position s;
     target_position := target_position s; is_moving := is_moving s;
     torque_enabled := torque_enabled s; lerobot := lerobot s;
     use_lerobot := use_lerobot s; saved_positions := saved_positions s |}.
Definition set_current_position (p : string) (s : State)
    : State :=
  {| config := config s; lerobot_config := lerobot_config s;
     is_connected := is_connected s; current_position := p;
     target_position := target_position s; is_moving := is_moving s;
     torque_enabled := torque_enabled s; lerobot := lerobot s;
     use_lerobot := use_lerobot s; saved_positions := saved_positions s |}.
Definition set_target_position (p : option string) (s : State)
    : State :=
  {| config := config s; lerobot_config := lerobot_config s;
     is_connected := is_connected s;
     current_position := current_position s; target_position := p;
     is_moving := is_moving s; torque_enabled := torque_enabled s;
     lerobot := lerobot s; use_lerobot := use_lerobot s;
     saved_positions := saved_positions s |}.
Definition set_is_moving (b : bool) (s : State)
    : State :=
  {| config := config s; lerobot_config := lerobot_config s;
     is_connected := is_connected s;
     current_position := current_position s;
     target_position := target_position s; is_moving := b;
     torque_enabled := torque_enabled s; lerobot := lerobot s;
     use_lerobot := use_lerobot s; saved_positions := saved_positions s |}.
Definition set_torque_enabled (b : bool) (s : State)
    : State :=
  {| config := config s; lerobot_config := lerobot_config s;
     is_connected := is_connected s;
     current_position := current_position s;
     target_position := target_position s; is_moving := is_moving s;
     torque_enabled := b; lerobot := lerobot s;
     use_lerobot := use_lerobot s; saved_positions := saved_positions s |}.
(** [self.lerobot_robot = r] *)
Definition set_lerobot_robot (r : option Manipulator.Robot) (s : State)
    : State :=
  {| config := config s; lerobot_config := lerobot_config s;
     is_connected := is_connected s;
     current_position := current_position s;
     target_position := target_position s; is_moving := is_moving s;
     torque_enabled := torque_enabled s;
     lerobot := match lerobot s with
                | Imported _ => Imported r
                | NotImported => NotImported
                end;
     use_lerobot := use_lerobot s; saved_positions := saved_positions s |}.
Definition set_use_lerobot (b : bool) (s : State)
    : State :=
  {| config := config s; lerobot_config := lerobot_config s;
     is_connected := is_connected s;
     current_position := current_position s;
     target_position := target_position s; is_moving := is_moving s;
     torque_enabled := torque_enabled s; lerobot := lerobot s;
     use_lerobot := b; saved_positions := saved_positions s |}.

(** The motor names of [DEFAULT_SO101_MOTORS] without the gripper. *)
Definition so101_motors_no_gripper : list string :=
  ["shoulder_pan"; "shoulder_lift"; "elbow_flex"; "wrist_flex";
   "wrist_roll"].

(** [create_projecto_follower_only_config(follower_port, 0,
    include_gripper=False, mock=False)] *)
Definition create_projecto_follower_only_config : Manipulator.Config :=
  {| Manipulator.follower_arms_cfg :=
       [("main", so101_motors_no_gripper)];
     Manipulator.has_cameras := true;
     Manipulator.max_relative_target := None;
     Manipulator.mock := false |}.

(** [EnhancedRobotInterface.__init__], given whether the integration
    package could be imported ([LEROBOT_AVAILABLE]) and the presets that
    [load_positions] found or seeded. *)
Definition init (cfg : RobotConfig) (LEROBOT_AVAILABLE : bool)
    (presets : gmap string Position) : State :=
  {| config := cfg; lerobot_config := None; is_connected := false;
     current_position := "unknown"; target_position := None;
     is_moving := false; torque_enabled := false;
     lerobot := if LEROBOT_AVAILABLE then Imported None else NotImported;
     use_lerobot := LEROBOT_AVAILABLE; saved_positions := presets |}.

(** The interface object (which owns the robot object) together with
    the hardware. *)
Definition World (Dev : Type) : Type := State * Dev.
Definition Mth (Dev : Type) (A : Type) : Type := Py.M (World Dev) A.

Section WithDriver.
Context {Dev : Type} (drv : Driver Dev).

#[local] Abbreviation M := (Mth Dev).

Definition self : M State := Py.gets fst.
Definition update (f : State → State) : M unit :=
  Py.modify (λ w, (f w.1, w.2)).

(** A method call on [self.lerobot_robot]. *)
Definition on_robot {A} (m : Manipulator.Mth Dev A) : M A := λ w,
  match lerobot_robot w.1 with
  | Some r =>
      match m (r, w.2) with
      | (a, (r', d'), t) => (a, (set_lerobot_robot (Some r') w.1, d'), t)
      end
  | None => (Raise AttributeError, w, [])
  end.

(** Looking up one of the names that the import of the integration
    package binds ([check_position_safety],
    [create_projecto_follower_only_config], ...): a [NameError] when the
    import failed. *)
Definition imported_name : M unit :=
  let! s := self in
  if lerobot_available s then Py.ret tt else Py.raise NameError.

(** [self.lerobot_robot and self.use_lerobot] *)
Definition lerobot_active (s : State) : bool :=
  bool_decide (is_Some (lerobot_robot s)) && use_lerobot s.

Definition _connect_basic : M bool :=
  Py.sleep 1 >>
  update (set_is_connected true) >>
  update (set_current_position "rest") >>
  Py.print "basic mode connected (simulated)" >>
  Py.emit (status_changed "connected") >>
  Py.ret true.

Definition _connect_lerobot : M bool :=
  Py.try_except
    (imported_name >>
     update (set_lerobot_config (Some create_projecto_follower_only_config)) >>
     update (set_lerobot_robot
       (Some (Manipulator.init create_projecto_follower_only_config))) >>
     let! connected := on_robot (Manipulator.connect drv) in
     if connected then
       update (set_is_connected true) >>
       update (set_current_position "rest") >>
       Py.print "LeRobot arm connected" >>
       Py.emit (status_changed "connected") >>
       Py.ret true
     else
       Py.print "LeRobot arm connection failed" >>
       Py.ret false)
    (λ e,
      Py.print "LeRobot connection failed, trying basic mode" >>
      update (set_use_lerobot false) >>
      _connect_basic).

Definition connect : M bool :=
  Py.print "connecting" >>
  Py.try_except
    (let! s := self in
     if use_lerobot s then _connect_lerobot else _connect_basic)
    (λ e,
      Py.print "connection failed" >>
      Py.emit (error_occurred "connect" e) >>
      Py.ret false).

Definition disable_torque : M bool :=
  Py.print "disabling torque" >>
  Py.try_except
    (update (set_torque_enabled false) >>
     Py.print "torque disabled" >>
     Py.emit (status_changed "torque_disabled") >>
     Py.ret true)
    (λ e,
      Py.print "disabling torque failed" >>
      Py.emit (error_occurred "disable_torque" e) >>
      Py.ret false).

Definition emergency_stop : M unit :=
  Py.print "emergency stop" >>
  update (set_is_moving false) >>
  update (set_target_position None) >>
  let! _ := disable_torque in
  Py.emit (status_changed "emergency_stopped").

(** [if duration:] on an [Optional[float]] *)
Definition truthy (duration : option Qc) : option Qc :=
  match duration with
  | Some d => if bool_decide (d = 0) then None else Some d
  | None => None
  end.

(** [_move_lerobot] runs only with a robot object, hence with the import
    done.  The delay is the float [0.1].  The product [duration * 10] is
    taken exactly. *)
Definition _move_lerobot (target_positions : Position)
    (duration : option Qc) : M bool :=
  Py.try_except
    (match truthy duration with
     | Some d =>
         on_robot (SmoothMove.smooth_move_to_position drv target_positions
           (Num.py_int (d * Num.of_Z 10))
           (Float64.rnd (Num.frac 1 10)))
     | None =>
         on_robot (Manipulator.move_to_position drv target_positions)
     end)
    (λ e, Py.print "LeRobot move failed" >> Py.ret false).

Definition _move_basic (target_positions : Position)
    (duration : option Qc) : M bool :=
  let! s := self in
  let move_duration :=
    default
      (Float64.mul (Num.of_Z (movement_steps (config s)))
         (step_delay (config s)))
      (truthy duration) in
  Py.sleep move_duration >>
  Py.print "simulated move done" >>
  Py.ret true.

Definition move_to_position (position_name : string)
    (duration : option Qc) : M bool :=
  Py.print ("move to position: " +:+ position_name) >>
  let! s := self in
  if negb (is_connected s) then
    Py.print "not connected, cannot move" >> Py.ret false
  else if is_moving s then
    Py.print "already moving, please wait" >> Py.ret false
  else
    Py.try_except
      (match saved_positions s !! position_name with
       | None =>
           Py.print ("position not found: " +:+ position_name) >>
           Py.ret false
       | Some target_positions =>
           imported_name >>
           if negb (RobotUtils.check_position_safety target_positions
                      (joint_limits s)) then
             Py.print ("position unsafe, move cancelled: " +:+ position_name) >>
             Py.ret false
           else
             update (set_is_moving true) >>
             update (set_target_position (Some position_name)) >>
             Py.emit (movement_started position_name) >>
             let! success :=
               (if lerobot_active s
                then _move_lerobot target_positions duration
                else _move_basic target_positions duration) in
             (if success then
                update (set_current_position position_name) >>
                Py.emit (position_reached position_name) >>
                Py.print ("move done: " +:+ position_name)
              else Py.ret tt) >>
             update (set_target_position None) >>
             update (set_is_moving false) >>
             Py.emit (movement_completed position_name) >>
             Py.ret success
       end)
      (λ e,
        Py.print "move failed" >>
        update (set_is_moving false) >>
        update (set_target_position None) >>
        Py.emit (error_occurred "move" e) >>
        Py.ret false).

End WithDriver.

End Interface.

(** ** [stage_controller.py]: class [StageController] *)

Module Stage.

(** [AppSettings.Stage] *)
Definition REST : string := "rest".
Definition PRIMARY_INTERACTION : string := "primary_interaction".
Definition MENU_DETAIL : string := "menu_detail".
Definition OBJECT_RECOGNITION : string := "object_recognition".
Definition SMART_CONTROL : string := "smart_control".
Definition TRACKING_MODE : string := "tracking_mode".
Definition GAME_MODE : string := "game_mode".
Definition KEYBOARD_INPUT : string := "keyboard_input".

Definition DEFAULT_STAGE : string := REST.

Definition valid_stages : list string :=
  [REST; PRIMARY_INTERACTION; MENU_DETAIL; OBJECT_RECOGNITION;
   SMART_CONTROL; TRACKING_MODE; GAME_MODE; KEYBOARD_INPUT].

Section WithAny.
(** The values of the per-stage data bags. *)
Context {Any : Type}.

(** [idle_timer] is [Some msec] while the timer is active with that
    interval, [None] while it is stopped.  [stage_timers] stays empty
    throughout the class and is left out. *)
Record State : Type := {
  current_stage : string;
  previous_stage : option string;
  stage_data : gmap string (gmap string Any);
  idle_timer : option Z;
  idle_timeout_duration : Z
}.

Definition set_current_stage (x : string) (s : State) : State :=
  {| current_stage := x; previous_stage := previous_stage s;
     stage_data := stage_data s; idle_timer := idle_timer s;
     idle_timeout_duration := idle_timeout_duration s |}.
Definition set_previous_stage (x : option string) (s : State) : State :=
  {| current_stage := current_stage s; previous_stage := x;
     stage_data := stage_data s; idle_timer := idle_timer s;
     idle_timeout_duration := idle_timeout_duration s |}.
Definition set_stage_data_map (x : gmap string (gmap string Any))
    (s : State) : State :=
  {| current_stage := current_stage s; previous_stage := previous_stage s;
     stage_data := x; idle_timer := idle_timer s;
     idle_timeout_duration := idle_timeout_duration s |}.
Definition set_idle_timer (x : option Z) (s : State) : State :=
  {| current_stage := current_stage s; previous_stage := previous_stage s;
     stage_data := stage_data s; idle_timer := x;
     idle_timeout_duration := idle_timeout_duration s |}.

(** [StageController.__init__] *)
Definition init : State :=
  {| current_stage := DEFAULT_STAGE; previous_stage := None;
     stage_data := ∅; idle_timer := None;
     idle_timeout_duration := 30000 |}.

#[local] Abbreviation M := (Py.M State).

Definition _is_valid_stage (stage : string) : bool :=
  bool_decide (stage ∈ valid_stages).

(** The [if/elif] chain of [_enter_stage] and [_exit_stage] calls the
    method of the stage when the name is one of the eight, and nothing
    otherwise. *)
Definition dispatch (h : string → HookCall) (stage : string) : M unit :=
  if bool_decide (stage = REST) then Py.tell (Hook (h REST))
  else if bool_decide (stage = PRIMARY_INTERACTION)
    then Py.tell (Hook (h PRIMARY_INTERACTION))
  else if bool_decide (stage = MENU_DETAIL)
    then Py.tell (Hook (h MENU_DETAIL))
  else if bool_decide (stage = OBJECT_RECOGNITION)
    then Py.tell (Hook (h OBJECT_RECOGNITION))
  else if bool_decide (stage = SMART_CONTROL)
    then Py.tell (Hook (h SMART_CONTROL))
  else if bool_decide (stage = TRACKING_MODE)
    then Py.tell (Hook (h TRACKING_MODE))
  else if bool_decide (stage = GAME_MODE)
    then Py.tell (Hook (h GAME_MODE))
  else if bool_decide (stage = KEYBOARD_INPUT)
    then Py.tell (Hook (h KEYBOARD_INPUT))
  else Py.ret tt.

Definition _enter_stage (stage : string) : M unit :=
  Py.print ("enter stage: " +:+ stage) >>
  dispatch Enter stage >>
  Py.emit (stage_entered stage).

Definition _exit_stage (stage : string) : M unit :=
  Py.print ("exit stage: " +:+ stage) >>
  dispatch Exit stage >>
  Py.emit (stage_exited stage).

Definition _reset_idle_timer : M unit :=
  let! s := Py.get in
  if negb (bool_decide (current_stage s = REST)) then
    Py.tell (Timer (TimerStart (idle_timeout_duration s))) >>
    Py.modify (set_idle_timer (Some (idle_timeout_duration s)))
  else
    Py.tell (Timer TimerStop) >>
    Py.modify (set_idle_timer None).

Definition start : M bool :=
  Py.print "starting stage controller" >>
  Py.try_except
    (let! s := Py.get in
     _enter_stage (current_stage s) >>
     _reset_idle_timer >>
     Py.print "stage controller started" >>
     Py.ret true)
    (λ e, Py.print "stage controller failed to start" >> Py.ret false).

Definition stop : M unit :=
  Py.print "stopping stage controller" >>
  Py.try_except
    (Py.tell (Timer TimerStop) >>
     Py.modify (set_idle_timer None) >>
     let! s := Py.get in
     (if negb (bool_decide (current_stage s = "")) then
        _exit_stage (current_stage s)
      else Py.ret tt) >>
     Py.print "stage controller stopped")
    (λ e, Py.print "error while stopping").

Definition change_stage (new_stage : string) (kwargs : gmap string Any)
    : M bool :=
  let! s := Py.get in
  if bool_decide (new_stage = current_stage s) then
    Py.print ("already in stage: " +:+ new_stage) >> Py.ret true
  else if negb (_is_valid_stage new_stage) then
    Py.print ("invalid stage name: " +:+ new_stage) >> Py.ret false
  else
    Py.print ("stage change to: " +:+ new_stage) >>
    Py.try_except
      ((if negb (bool_decide (kwargs = ∅)) then
          Py.modify (λ s, set_stage_data_map
            (<[new_stage := kwargs]> (stage_data s)) s)
        else Py.ret tt) >>
       let old_stage := current_stage s in
       _exit_stage old_stage >>
       Py.modify (set_previous_stage (Some old_stage)) >>
       Py.modify (set_current_stage new_stage) >>
       _enter_stage new_stage >>
       Py.emit (stage_changed old_stage new_stage) >>
       _reset_idle_timer >>
       Py.print ("stage change done: " +:+ new_stage) >>
       Py.ret true)
      (λ e, Py.print "stage change failed" >> Py.ret false).

(** [if self.previous_stage:] holds for a non-empty string. *)
Definition go_back : M bool :=
  let! s := Py.get in
  match previous_stage s with
  | Some p =>
      if bool_decide (p = "") then change_stage REST ∅
      else change_stage p ∅
  | None => change_stage REST ∅
  end.

Definition go_to_rest : M bool := change_stage REST ∅.

Definition _on_idle_timeout : M unit :=
  Py.print "idle timeout, back to rest" >>
  let! _ := go_to_rest in Py.ret tt.

(** The timer's [timeout] signal reaches [_on_idle_timeout] only while
    the timer is active. *)
Definition timer_expires : M unit :=
  let! s := Py.get in
  match idle_timer s with
  | Some _ => _on_idle_timeout
  | None => Py.ret tt
  end.

Definition on_user_activity : M unit := _reset_idle_timer.

(** [stage or self.current_stage] *)
Definition target_stage (stage : option string) (s : State) : string :=
  match stage with
  | Some x => if bool_decide (x = "") then current_stage s else x
  | None => current_stage s
  end.

Definition get_stage_data (stage : option string) (s : State)
    : gmap string Any :=
  default ∅ (stage_data s !! target_stage stage s).

Definition set_stage_data (key : string) (value : Any)
    (stage : option string) : M unit :=
  Py.modify (λ s,
    let target := target_stage stage s in
    set_stage_data_map
      (<[target := <[key := value]> (default ∅ (stage_data s !! target))]>
         (stage_data s)) s).

Definition clear_stage_data (stage : option string) : M unit :=
  Py.modify (λ s,
    let target := target_stage stage s in
    match stage_data s !! target with
    | Some _ => set_stage_data_map (<[target := ∅]> (stage_data s)) s
    | None => s
    end).

(** The calls the rest of the system can make on a controller, and the
    expiry of its timer. *)
Inductive Call : Type :=
  | CStart
  | CStop
  | CChangeStage (new_stage : string) (kwargs : gmap string Any)
  | CGoBack
  | CGoToRest
  | CTimerExpires
  | CUserActivity
  | CSetStageData (key : string) (value : Any) (stage : option string)
  | CClearStageData (stage : option string).

Definition call (c : Call) : M unit :=
  match c with
  | CStart => let! _ := start in Py.ret tt
  | CStop => stop
  | CChangeStage new_stage kwargs =>
      let! _ := change_stage new_stage kwargs in Py.ret tt
  | CGoBack => let! _ := go_back in Py.ret tt
  | CGoToRest => let! _ := go_to_rest in Py.ret tt
  | CTimerExpires => timer_expires
  | CUserActivity => on_user_activity
  | CSetStageData key value stage => set_stage_data key value stage
  | CClearStageData stage => clear_stage_data stage
  end.

(** The state after a history of calls on a fresh controller. *)
Definition after (history : list Call) : State :=
  (Py.for_each history call init).1.2.

Definition is_stop (c : Call) : bool :=
  match c with CStop => true | _ => false end.

(** A history in which the controller has not been shut down. *)
Definition running (history : list Call) : Prop :=
  Forall (λ c, is_stop c = false) history.

(** The calls that do nothing but [_reset_idle_timer] to the timer. *)
Definition is_reset (c : Call) : bool :=
  match c with CStart | CUserActivity => true | _ => false end.

(** A history in which the controller, if it was ever shut down, has
    since been started again or has seen user activity. *)
Definition settled (history : list Call) : Prop :=
  ∃ before since,
    history = before ++ since ∧ running since
    ∧ (before = [] ∨ ∃ c, last before = Some c ∧ is_reset c = true).

End WithAny.
Arguments State : clear implicits.
Arguments Call : clear implicits.

End Stage.

(** ** [manipulator.py]: [ManipulatorRobot.disconnect] *)

Module ManipulatorMore.
Import Manipulator.

Section WithDriver.
(** [_disconnect_real_devices] only calls [disconnect()] on the bus and
    camera objects of the driver, one after the other; what that does to
    the hardware, and whether it raises, is the driver's business.  The
    parameter stands for the whole sequence, given the arms to release. *)
Context {Dev : Type} (drv_disconnect : list string → Dev → res unit * Dev).

Definition _disconnect_real_devices : Mth Dev unit := λ w,
  match drv_disconnect (follower_arms w.1) w.2 with
  | (r, d) => (r, (w.1, d), [])
  end.

Definition disconnect : Mth Dev bool :=
  let! r := self in
  if negb (is_connected r) then
    Py.print "robot not connected" >> Py.ret true
  else
    Py.try_except
      ((if negb (mock_mode r) then _disconnect_real_devices
        else Py.ret tt) >>
       update (set_follower_arms []) >>
       update (set_is_connected false) >>
       Py.print "robot disconnected" >>
       Py.ret true)
      (λ e, Py.print "robot disconnection failed" >> Py.ret false).

End WithDriver.
End ManipulatorMore.

(** ** [robot_utils.py]: the preset file and [validate_robot_config] *)

Module PresetFile.

(** The preset file, seen through [json.load] and [json.dump]: the table
    the document encodes ([None] when the file is missing or cannot be
    parsed), and whether the file can be written. *)
Record Disk : Type := {
  document : option (gmap string Position);
  writable : bool
}.

Definition load_positions_from_file : Py.M Disk (gmap string Position) :=
  let! d := Py.get in
  match document d with
  | None => Py.print "position file missing or unreadable" >> Py.ret ∅
  | Some positions => Py.print "position file loaded" >> Py.ret positions
  end.

Definition save_positions_to_file (positions : gmap string Position)
    : Py.M Disk bool :=
  let! d := Py.get in
  if writable d then
    Py.modify (λ d, {| document := Some positions; writable := writable d |}) >>
    Py.print "positions saved" >>
    Py.ret true
  else
    Py.print "saving positions failed" >> Py.ret false.

End PresetFile.

Module ValidateConfig.

(** An arm of the configuration: its port and the names of its motors. *)
Record Arm : Type := {
  port : string;
  motors : list string
}.

(** [follower_arms] and [leader_arms], in dict order. *)
Record Config : Type := {
  follower_arms : list (string * Arm);
  leader_arms : list (string * Arm)
}.

(** The messages [validate_robot_config] can append. *)
Inductive Problem : Type :=
  | NoArmAtAll
  | FollowerWithoutPort (arm_name : string)
  | FollowerWithoutMotors (arm_name : string)
  | LeaderWithoutPort (arm_name : string)
  | LeaderWithoutMotors (arm_name : string).

(** One turn of either loop. *)
Definition arm_problems (no_port no_motors : string → Problem)
    (arm : string * Arm) : list Problem :=
  (if bool_decide (port arm.2 = "") then [no_port arm.1] else [])
  ++ (if bool_decide (motors arm.2 = []) then [no_motors arm.1] else []).

Definition validate_robot_config (config : Config) : list Problem :=
  (if bool_decide (follower_arms config = [])
      && bool_decide (leader_arms config = [])
   then [NoArmAtAll] else [])
  ++ (follower_arms config
        ≫= arm_problems FollowerWithoutPort FollowerWithoutMotors)
  ++ (leader_arms config
        ≫= arm_problems LeaderWithoutPort LeaderWithoutMotors).

(** An arm that draws no message. *)
Definition arm_complete (arm : string * Arm) : Prop :=
  port arm.2 ≠ "" ∧ motors arm.2 ≠ [].

End ValidateConfig.

(** ** [enhanced_robot_interface.py]: the rest of the interface *)

Module InterfaceMore.
Import Interface.

Definition set_saved_positions (m : gmap string Position) (s : State)
    : State :=
  {| config := config s; lerobot_config := lerobot_config s;
     is_connected := is_connected s;
     current_position := current_position s;
     target_position := target_position s; is_moving := is_moving s;
     torque_enabled := torque_enabled s; lerobot := lerobot s;
     use_lerobot := use_lerobot s; saved_positions := m |}.

(** [get_status]; an empty target prints as [None]. *)
Definition get_status (s : State) : string :=
  if negb (is_connected s) then "disconnected"
  else if is_moving s then
    "moving_to_" +:+ default "None" (target_position s)
  else if negb (torque_enabled s) then "idle_at_" +:+ current_position s
  else "ready_at_" +:+ current_position s.

(** The interface, the hardware and the preset file. *)
Definition StoreWorld (Dev : Type) : Type := World Dev * PresetFile.Disk.

Section WithDriver.
Context {Dev : Type} (drv : Driver Dev)
  (drv_disconnect : list string → Dev → res unit * Dev).

#[local] Abbreviation M := (Mth Dev).

Definition enable_torque : M bool :=
  Py.print "enabling torque" >>
  let! s := self in
  if negb (is_connected s) then
    Py.print "not connected, cannot enable torque" >> Py.ret false
  else
    Py.try_except
      (update (set_torque_enabled true) >>
       Py.print "torque enabled" >>
       Py.emit (status_changed "torque_enabled") >>
       Py.ret true)
      (λ e,
        Py.print "enabling torque failed" >>
        Py.emit (error_occurred "enable_torque" e) >>
        Py.ret false).

Definition disconnect : M unit :=
  Py.print "disconnecting" >>
  Py.try_except
    (let! s := self in
     if is_connected s then
       let! _ := disable_torque in
       (if lerobot_active s then
          let! _ := on_robot (ManipulatorMore.disconnect drv_disconnect) in
          Py.ret tt
        else Py.ret tt) >>
       update (set_is_connected false) >>
       update (set_current_position "unknown") >>
       update (set_lerobot_robot None) >>
       Py.print "disconnected" >>
       Py.emit (status_changed "disconnected")
     else Py.ret tt)
    (λ e,
      Py.print "disconnection failed" >>
      Py.emit (error_occurred "disconnect" e)).

Definition get_current_positions : M Position :=
  let! s := self in
  if negb (is_connected s) then Py.ret ∅
  else if lerobot_active s then
    on_robot (Manipulator.get_current_positions drv)
  else Py.ret (default ∅ (saved_positions s !! current_position s)).

(** The target of [track_gesture]: the present position with the two
    shoulder joints shifted by the offsets of the screen coordinates. *)
Definition gesture_target (current_positions : Position) (x y : Qc)
    : Position :=
  let pan_offset :=
    Float64.mul (Float64.sub x (Num.frac 1 2)) (Num.of_Z 500) in
  let lift_offset :=
    Float64.mul (Float64.sub (Num.frac 1 2) y) (Num.of_Z 300) in
  <["shoulder_lift" :=
      Float64.add (default 0 (current_positions !! "shoulder_lift"))
        lift_offset]>
    (<["shoulder_pan" :=
         Float64.add (default 0 (current_positions !! "shoulder_pan"))
           pan_offset]>
       current_positions).

Definition track_gesture (x y : Qc) : M bool :=
  let! s := self in
  if negb (is_connected s) || negb (torque_enabled s) then Py.ret false
  else
    Py.try_except
      ((if lerobot_active s then
          let! current_positions :=
            on_robot (Manipulator.get_current_positions drv) in
          let target_positions := gesture_target current_positions x y in
          if RobotUtils.check_position_safety target_positions
               (joint_limits s)
          then
            let! _ := on_robot
              (Manipulator.move_to_position drv target_positions) in
            Py.ret tt
          else Py.ret tt
        else Py.ret tt) >>
       Py.print "tracking gesture" >>
       Py.ret true)
      (λ e, Py.print "tracking failed" >> Py.ret false).

(** One repetition of the loop of [nod]. *)
Definition nod_once (lerobot : bool) : M unit :=
  Py.print "nodding" >>
  if lerobot then
    let! current_positions :=
      on_robot (Manipulator.get_current_positions drv) in
    let nod_down :=
      <["wrist_flex" :=
          Float64.add (default 0 (current_positions !! "wrist_flex"))
            (Num.of_Z 200)]>
        current_positions in
    let! _ := on_robot (Manipulator.move_to_position drv nod_down) in
    Py.sleep (Num.frac 1 2) >>
    let! _ := on_robot
      (Manipulator.move_to_position drv current_positions) in
    Py.sleep (Num.frac 1 2)
  else Py.sleep 1.

Definition nod (times : Z) : M bool :=
  Py.print "nod" >>
  let! s := self in
  if negb (is_connected s) then
    Py.print "not connected, cannot nod" >> Py.ret false
  else
    Py.try_except
      ((if negb (torque_enabled s) then
          let! _ := enable_torque in Py.ret tt
        else Py.ret tt) >>
       Py.emit (movement_started "nod") >>
       let original_pos := current_position s in
       Py.for_each (RobotUtils.py_range times)
         (λ _, nod_once (lerobot_active s)) >>
       (if bool_decide (is_Some (saved_positions s !! original_pos)) then
          let! _ := move_to_position drv original_pos None in Py.ret tt
        else Py.ret tt) >>
       Py.print "nod done" >>
       Py.emit (movement_completed "nod") >>
       Py.ret true)
      (λ e,
        Py.print "nod failed" >>
        Py.emit (error_occurred "nod" e) >>
        Py.ret false).

(** *** The position store *)

(** Whether the integration package could be imported.  The store only
    branches on the flag, so it is a parameter of these methods. *)
Context (LEROBOT_AVAILABLE : bool).

#[local] Abbreviation MS := (Py.M (StoreWorld Dev)).

(** A method of the interface, resp. a function on the file, run in the
    larger state. *)
Definition on_interface {A} (m : M A) : MS A := λ w,
  match m w.1 with (r, w1, t) => (r, (w1, w.2), t) end.
Definition on_disk {A} (m : Py.M PresetFile.Disk A) : MS A := λ w,
  match m w.2 with (r, d, t) => (r, (w.1, d), t) end.

Definition this : MS State := Py.gets (λ w, w.1.1).

(** Both branches of [save_positions] write the whole table; the answer
    of the write is dropped. *)
Definition save_positions : MS unit :=
  let! s := this in
  if LEROBOT_AVAILABLE then
    let! _ := on_disk
      (PresetFile.save_positions_to_file (saved_positions s)) in
    Py.ret tt
  else
    on_disk (λ d,
      if PresetFile.writable d then
        (Ok tt, {| PresetFile.document := Some (saved_positions s);
                   PresetFile.writable := true |}, [])
      else (Ok tt, d, [Print "saving positions failed"])).

Definition load_positions : MS unit :=
  (if LEROBOT_AVAILABLE then
     let! positions := on_disk PresetFile.load_positions_from_file in
     on_interface (update (set_saved_positions positions))
   else Py.ret tt) >>
  let! s := this in
  if bool_decide (saved_positions s = ∅) then
    on_interface (update (set_saved_positions
      (if LEROBOT_AVAILABLE then RobotUtils.create_default_positions
       else {["rest" := RobotUtils.pose 0 (-1024) 1024 0 0]}))) >>
    save_positions
  else Py.ret tt.

(** [save_current_position]: [None] is the call that falls off the end of
    the function, which happens when the present position is empty. *)
Definition save_current_position (position_name : string)
    : MS (option bool) :=
  let! s := this in
  if negb (is_connected s) then Py.ret (Some false)
  else
    Py.try_except
      (let! current_pos := on_interface get_current_positions in
       if negb (bool_decide (current_pos = ∅)) then
         on_interface (update (λ s, set_saved_positions
           (<[position_name := current_pos]> (saved_positions s)) s)) >>
         save_positions >>
         Py.print ("position saved: " +:+ position_name) >>
         Py.ret (Some true)
       else Py.ret None)
      (λ e, Py.print "saving position failed" >> Py.ret (Some false)).

Definition delete_position (position_name : string) : MS bool :=
  let! s := this in
  if bool_decide (is_Some (saved_positions s !! position_name)) then
    on_interface (update (λ s, set_saved_positions
      (delete position_name (saved_positions s)) s)) >>
    save_positions >>
    Py.print ("position deleted: " +:+ position_name) >>
    Py.ret true
  else Py.ret false.

Definition get_saved_positions : MS (gmap string Position) :=
  Py.gets (λ w, saved_positions w.1.1).

End WithDriver.
End InterfaceMore.

(** ** Vocabulary for the motion subsystem *)

Module MotionSpec.
Import Interface.

(** A joint of [positions] that the table knows and whose setpoint is
    outside the table's range. *)
Definition violates (positions : Position) (limits : Limits)
    (joint : string) : Prop :=
  ∃ pos lo hi, positions !! joint = Some pos
    ∧ limits !! joint = Some (lo, hi)
    ∧ ¬ (lo ≤ pos ∧ pos ≤ hi).

(** [s'] differs from [s] at most in the robot object it owns. *)
Definition same_flags (s s' : State) : Prop :=
  s' = set_lerobot_robot (lerobot_robot s') s.

(** Why a call is turned down before the movement starts. *)
Inductive Rejection (s : State) (position_name : string) : Prop :=
  | NotConnected : is_connected s = false → Rejection s position_name
  | Busy :
      is_connected s = true → is_moving s = true →
      Rejection s position_name
  | UnknownPreset :
      is_connected s = true → is_moving s = false →
      saved_positions s !! position_name = None →
      Rejection s position_name
  | UnsafePosition target :
      is_connected s = true → is_moving s = false →
      saved_positions s !! position_name = Some target →
      RobotUtils.check_position_safety target (joint_limits s) = false →
      Rejection s position_name.

(** A rejected call: [False], nothing changed, console lines only. *)
Definition turned_down {Dev} (w : World Dev)
    (out : res bool * World Dev * list Out) : Prop :=
  out.1.1 = Ok false ∧ out.1.2 = w
  ∧ signals out.2 = [] ∧ adapter_io out.2 = [].

End MotionSpec.

(** ** Closed forms for the stage machine *)

Module StageSpec.
Import Stage.

(** The calls on the idle timer, in order. *)
Definition timer_call (o : Out) : option TimerCall :=
  match o with Timer c => Some c | _ => None end.
Definition timer_calls (t : list Out) : list TimerCall := omap timer_call t.

Section WithAny.
Context {Any : Type}.
Implicit Types (s : State Any) (stage : string).

(** The hook that [_enter_stage] or [_exit_stage] dispatches to. *)
Definition hook_trace (h : string → HookCall) stage : list Out :=
  if _is_valid_stage stage then [Hook (h stage)] else [].

Definition enter_trace stage : list Out :=
  [Print ("enter stage: " +:+ stage)] ++ hook_trace Enter stage
  ++ [Emit (stage_entered stage)].

Definition exit_trace stage : list Out :=
  [Print ("exit stage: " +:+ stage)] ++ hook_trace Exit stage
  ++ [Emit (stage_exited stage)].

(** What [_reset_idle_timer] leaves in [idle_timer], and the call it
    makes on the timer. *)
Definition armed_for s : option Z :=
  if bool_decide (current_stage s = REST) then None
  else Some (idle_timeout_duration s).

Definition timer_call_for s : TimerCall :=
  if bool_decide (current_stage s = REST) then TimerStop
  else TimerStart (idle_timeout_duration s).

(** The state after a transition from the current stage of [s] to
    [new_stage]. *)
Definition moved new_stage (kwargs : gmap string Any) s : State Any :=
  let s1 :=
    set_current_stage new_stage
      (set_previous_stage (Some (current_stage s))
         (if negb (bool_decide (kwargs = ∅))
          then set_stage_data_map
                 (<[new_stage := kwargs]> (stage_data s)) s
          else s)) in
  set_idle_timer (armed_for s1) s1.

Definition move_trace new_stage s : list Out :=
  [Print ("stage change to: " +:+ new_stage)]
  ++ exit_trace (current_stage s)
  ++ enter_trace new_stage
  ++ [Emit (stage_changed (current_stage s) new_stage);
      Timer (timer_call_for (set_current_stage new_stage s));
      Print ("stage change done: " +:+ new_stage)].

(** The stage is one of the eight, and so is the previous stage when
    there is one. *)
Definition stages_valid s : Prop :=
  _is_valid_stage (current_stage s) = true
  ∧ ∀ p, previous_stage s = Some p → _is_valid_stage p = true.

(** What the idle timer is told on entering [stage], and what it holds
    afterwards, with the default interval. *)
Definition default_timer_call stage : TimerCall :=
  if bool_decide (stage = REST) then TimerStop else TimerStart 30000.

Definition default_armed stage : option Z :=
  if bool_decide (stage = REST) then None else Some 30000%Z.

(** The idle timer is armed, with the default interval, exactly
    outside the rest stage. *)
Definition timer_consistent s : Prop :=
  idle_timeout_duration s = 30000%Z
  ∧ idle_timer s =
      if bool_decide (current_stage s = REST) then None
      else Some 30000%Z.

(** An armed timer has the default interval, and the controller is then
    outside the rest stage. *)
Definition timer_sound s : Prop :=
  idle_timeout_duration s = 30000%Z
  ∧ ∀ msec, idle_timer s = Some msec →
      msec = 30000%Z ∧ current_stage s ≠ REST.

(** The state a call leaves behind. *)
Definition changed new_stage (kwargs : gmap string Any) s : State Any :=
  if bool_decide (new_stage = current_stage s) then s
  else if _is_valid_stage new_stage then moved new_stage kwargs s
  else s.

Definition back_target s : string :=
  match previous_stage s with
  | Some p => if bool_decide (p = "") then REST else p
  | None => REST
  end.

Definition next (c : Call Any) s : State Any :=
  match c with
  | CStart | CUserActivity => set_idle_timer (armed_for s) s
  | CStop => set_idle_timer None s
  | CChangeStage new_stage kwargs => changed new_stage kwargs s
  | CGoBack => changed (back_target s) ∅ s
  | CGoToRest => changed REST ∅ s
  | CTimerExpires =>
      match idle_timer s with
      | Some _ => changed REST ∅ s
      | None => s
      end
  | CSetStageData key value stage =>
      let target := target_stage stage s in
      set_stage_data_map
        (<[target := <[key := value]> (default ∅ (stage_data s !! target))]>
           (stage_data s)) s
  | CClearStageData stage =>
      let target := target_stage stage s in
      match stage_data s !! target with
      | Some _ => set_stage_data_map (<[target := ∅]> (stage_data s)) s
      | None => s
      end
  end.

End WithAny.
End StageSpec.

(** ** Concrete scenes *)

Module Scene.
Import Interface.

(** A machine without the [lerobot] driver: the import fails. *)
Definition no_driver : Driver unit :=
  {| drv_import := Some ImportError;
     drv_make_motors_buses := None;
     drv_make_cameras := None;
     drv_read := λ d, (Ok ∅, d);
     drv_write := λ _ d, (Ok tt, d) |}.

(** A machine with the driver installed whose motor bus cannot be
    opened. *)
Definition dead_bus : Driver unit :=
  {| drv_import := None;
     drv_make_motors_buses := Some DeviceError;
     drv_make_cameras := None;
     drv_read := λ d, (Raise DeviceError, d);
     drv_write := λ _ d, (Raise DeviceError, d) |}.

Definition default_config : RobotConfig :=
  {| follower_port := "COM4"; movement_steps := 30;
     step_delay := Float64.rnd (Num.frac 6 100) |}.

(** The seeded presets plus one whose shoulder is beyond its range. *)
Definition presets : gmap string Position :=
  <["high" := RobotUtils.pose 0 3000 1024 0 0]>
    RobotUtils.create_default_positions.

Definition fresh : World unit := (init default_config true presets, tt).

(** The interface after [connect()] on the machine without driver. *)
Definition connected : World unit :=
  Eval vm_compute in (connect no_driver fresh).1.2.

(** The robot object that interface owns: in mock mode, connected. *)
Definition mock_robot : Manipulator.Robot :=
  Eval vm_compute in
    default (Manipulator.init create_projecto_follower_only_config)
      (lerobot_robot connected.1).

(** The same interface while a movement to ["V"] is in flight. *)
Definition moving : World unit :=
  (set_target_position (Some "V") (set_is_moving true connected.1), tt).

(** One joint, asked to go a little further than the bound allows. *)
Definition near_goal : Position :=
  {["shoulder_pan" := Num.frac 139265 128]}.
Definition near_present : Position :=
  {["shoulder_pan" := Num.of_Z 1024]}.

Definition pan_0_3 : Position :=
  {["shoulder_pan" := Num.frac 5404319552844595 18014398509481984]}.

(** The float [0.9], and a table that allows the shoulder up to it. *)
Definition pan_0_9 : Position :=
  {["shoulder_pan" := Num.frac 8106479329266893 9007199254740992]}.
Definition below_0_9 : Limits :=
  {["shoulder_pan" := (0, Num.frac 8106479329266893 9007199254740992)]}.


End Scene.

(** ** What a trace says about the adapter *)

Module TraceSpec.

Definition adapter_write (o : Out) : option Position :=
  match o with Adapter (AWrite p) => Some p | _ => None end.

(** The positions handed to [ManipulatorRobot.write_position], in
    order. *)
Definition adapter_writes (t : list Out) : list Position :=
  omap adapter_write t.

End TraceSpec.

(** ** More concrete scenes *)

Module MoreScenes.
Import Manipulator.

(** A configuration that asks for the mock adapter. *)
Definition mock_config : Config :=
  {| follower_arms_cfg := [("main", Interface.so101_motors_no_gripper)];
     has_cameras := false; max_relative_target := None; mock := true |}.

(** A bus whose device is the position the arm holds: a read returns it,
    a write moves the named joints. *)
Definition echo_bus : Driver Position :=
  {| drv_import := None;
     drv_make_motors_buses := None;
     drv_make_cameras := None;
     drv_read := λ d, (Ok d, d);
     drv_write := λ p d, (Ok tt, p ∪ d) |}.

Definition bounded_config : Config :=
  {| follower_arms_cfg := [("main", Interface.so101_motors_no_gripper)];
     has_cameras := false; max_relative_target := Some (Num.of_Z 100);
     mock := false |}.

(** A connected real arm with a relative bound of 100. *)
Definition real_robot : Robot :=
  {| config := bounded_config; is_connected := true; mock_mode := false;
     follower_arms := ["main"]; mock_positions := ∅ |}.

(** Releasing the buses without trouble. *)
Definition release {Dev} (arms : list string) (d : Dev) : res unit * Dev :=
  (Ok tt, d).

(** A bus that cannot be released. *)
Definition stuck {Dev} (arms : list string) (d : Dev) : res unit * Dev :=
  (Raise DeviceError, d).

(** The interface in basic mode, connected. *)
Definition basic : Interface.World unit :=
  Eval vm_compute in
    (Interface.connect Scene.no_driver
       (Interface.init Scene.default_config false Scene.presets, tt)).1.2.

(** A writable preset file that does not exist yet. *)
Definition blank_disk : PresetFile.Disk :=
  {| PresetFile.document := None; PresetFile.writable := true |}.

End MoreScenes.

(** * Properties *)

(** ** Facts about numbers *)

Module NumFacts.
Import Num.

Lemma leb_le a b : leb a b = true ↔ a ≤ b.
Proof. unfold leb, Qcle. apply Qle_bool_iff. Qed.

Lemma leb_gt a b : leb a b = false ↔ b < a.
Proof.
  rewrite Qclt_nge, <- leb_le. destruct (leb a b); split; congruence.
Qed.

Lemma le_opp_swap a b : a ≤ b → - b ≤ - a.
Proof. apply Qcopp_le_compat. Qed.

Lemma min_le_r a b : min a b ≤ b.
Proof.
  unfold min. destruct (leb a b) eqn:E.
  - by apply leb_le.
  - apply Qcle_refl.
Qed.

Lemma min_id a b : a ≤ b → min a b = a.
Proof. intros H. unfold min. apply leb_le in H. by rewrite H. Qed.

Lemma max_le_l a b : a ≤ max b a.
Proof.
  unfold max. destruct (leb b a) eqn:E.
  - apply Qcle_refl.
  - apply leb_gt in E. by apply Qclt_le_weak.
Qed.

Lemma max_id a b : b ≤ a → max a b = a.
Proof.
  intros H. unfold max. destruct (leb a b) eqn:E; [|done].
  apply leb_le in E. by apply Qcle_antisym.
Qed.

Lemma max_lub a b c : a ≤ c → b ≤ c → max a b ≤ c.
Proof. intros. unfold max. by destruct (leb a b). Qed.

Lemma abs_le a m : Qcabs a ≤ m ↔ - m ≤ a ∧ a ≤ m.
Proof. apply Qcabs_Qcle_condition. Qed.


Lemma within_true lo hi pos :
  RobotUtils.within (lo, hi) pos = true ↔ lo ≤ pos ∧ pos ≤ hi.
Proof.
  unfold RobotUtils.within. simpl.
  rewrite andb_true_iff, !leb_le. done.
Qed.


Lemma of_Z_zero_div n : of_Z 0 / of_Z n = 0.
Proof. unfold Qcdiv. apply Qcmult_0_l. Qed.

(** [int(x)] is [0] for [0 <= x < 1]. *)
Lemma py_int_small (x : Qc) : 0 ≤ x → x < 1 → py_int x = 0%Z.
Proof.
  intros H0 H1. unfold py_int.
  unfold Qcle, Qle in H0. unfold Qclt, Qlt in H1. simpl in H0, H1.
  apply Z.quot_small. lia.
Qed.

Lemma py_int_short_duration (d : Qc) :
  0 < d → d < frac 1 10 → py_int (d * of_Z 10) = 0%Z.
Proof.
  intros H0 H1. apply py_int_small.
  - apply Qclt_le_weak.
    replace 0 with (0 * of_Z 10) by apply Qcmult_0_l.
    by apply Qcmult_lt_compat_r.
  - replace 1 with (frac 1 10 * of_Z 10) by (by apply Qc_is_canon).
    by apply Qcmult_lt_compat_r.
Qed.

End NumFacts.

(** ** Rounding *)

Module FloatFacts.
Import Float.

Lemma this_of_Z (n : Z) : (this (Num.of_Z n) == inject_Z n)%Q.
Proof. unfold Num.of_Z, Q2Qc. cbn [this]. apply Qred_correct. Qed.

Lemma of_Z_le_iff (a b : Z) : Num.of_Z a ≤ Num.of_Z b ↔ (a ≤ b)%Z.
Proof.
  unfold Qcle. rewrite !this_of_Z. by rewrite Zle_Qle.
Qed.

Lemma of_Z_mul (a b : Z) : Num.of_Z (a * b) = Num.of_Z a * Num.of_Z b.
Proof.
  apply Qc_is_canon. unfold Qcmult, Q2Qc. cbn [this].
  rewrite !Qred_correct, !this_of_Z. by rewrite inject_Z_mult.
Qed.

Lemma pow2_pos (k : Z) : (0 ≤ k)%Z → (0 < 2 ^ k)%Z.
Proof. intros Hk. by apply Z.pow_pos_nonneg. Qed.

Lemma of_Z_pos (n : Z) : (0 < n)%Z → 0 < Num.of_Z n.
Proof.
  intros Hn. unfold Qclt. rewrite this_of_Z.
  replace (this 0) with (inject_Z 0) by done. by rewrite <- Zlt_Qlt.
Qed.

(** For [q <= 0] the scaling by [2 ^ (- q)] is by an integer, and
    scaling back by [2 ^ q] undoes it. *)
Lemma two_pow_opp (q : Z) :
  (q ≤ 0)%Z → two_pow (- q) = Num.of_Z (2 ^ (- q)).
Proof.
  intros Hq. unfold two_pow.
  destruct (Z.leb_spec 0 (- q)); [done|lia].
Qed.

Lemma two_pow_back (q : Z) :
  (q ≤ 0)%Z → Num.of_Z (2 ^ (- q)) * two_pow q = 1.
Proof.
  intros Hq. unfold two_pow. destruct (Z.leb_spec 0 q) as [H0|H0].
  - assert (q = 0%Z) as -> by lia. apply Qc_is_canon. reflexivity.
  - apply Qcmult_inv_r. intros Hz.
    pose proof (of_Z_pos (2 ^ (- q)) (pow2_pos (- q) ltac:(lia))) as Hp.
    rewrite Hz in Hp. by apply Qclt_not_eq in Hp.
Qed.

Lemma two_pow_pos (q : Z) : (q ≤ 0)%Z → 0 < two_pow q.
Proof.
  intros Hq.
  pose proof (of_Z_pos (2 ^ (- q)) (pow2_pos (- q) ltac:(lia))) as Hp.
  pose proof (two_pow_back q Hq) as Hb.
  destruct (Qclt_le_dec 0 (two_pow q)) as [|Hle]; [done|].
  exfalso.
  assert (Num.of_Z (2 ^ (- q)) * two_pow q ≤ 0) as Hneg.
  { rewrite Qcmult_comm.
    replace 0 with (0 * Num.of_Z (2 ^ (- q))) by ring.
    apply Qcmult_le_compat_r; [done|by apply Qclt_le_weak]. }
  rewrite Hb in Hneg. by apply Qcle_not_lt in Hneg.
Qed.

Lemma floor_le_of_Z (y : Qc) (K : Z) : y ≤ Num.of_Z K → (Qfloor y ≤ K)%Z.
Proof.
  intros Hy. unfold Qcle in Hy. rewrite this_of_Z in Hy.
  rewrite <- (Qfloor_Z K). by apply Qfloor_resp_le.
Qed.

Lemma of_Z_le_floor (y : Qc) (K : Z) : Num.of_Z K ≤ y → (K ≤ Qfloor y)%Z.
Proof.
  intros Hy. unfold Qcle in Hy. rewrite this_of_Z in Hy.
  rewrite <- (Qfloor_Z K). by apply Qfloor_resp_le.
Qed.

Lemma round_half_even_le (y : Qc) (K : Z) :
  y ≤ Num.of_Z K → (round_half_even y ≤ K)%Z.
Proof.
  intros Hy. pose proof (floor_le_of_Z y K Hy) as Hf.
  unfold round_half_even.
  destruct (Qccompare (y - Num.of_Z (Qfloor y)) (Num.frac 1 2)) eqn:Hc;
    [|done|].
  - assert ((Qfloor y < K)%Z); [|by destruct (Z.even _); lia].
    apply Qceq_alt in Hc.
    destruct (decide (Qfloor y = K)) as [Heq|]; [|lia]. exfalso.
    rewrite Heq in Hc.
    assert (y = Num.of_Z K + Num.frac 1 2) as -> by (rewrite <- Hc; ring).
    revert Hy. unfold Qcle, Num.frac, Qcplus, Q2Qc. cbn [this].
    rewrite !Qred_correct. lra.
  - assert ((Qfloor y < K)%Z); [|lia].
    apply Qcgt_alt in Hc.
    destruct (decide (Qfloor y = K)) as [Heq|]; [|lia]. exfalso.
    rewrite Heq in Hc. revert Hy Hc.
    unfold Qclt, Qcle, Num.frac, Qcminus, Qcplus, Qcopp, Q2Qc. cbn [this].
    rewrite !Qred_correct. lra.
Qed.

Lemma round_half_even_ge (y : Qc) (K : Z) :
  Num.of_Z K ≤ y → (K ≤ round_half_even y)%Z.
Proof.
  intros Hy. pose proof (of_Z_le_floor y K Hy) as Hf.
  unfold round_half_even.
  destruct (Qccompare _ _); [destruct (Z.even _)|..]; lia.
Qed.

(** An upper bound on the exponent of a number below a power of two. *)
Lemma ilog2_le (x : Qc) (m : Z) :
  x ≠ 0 → (0 ≤ m)%Z → Qcabs x ≤ Num.of_Z (2 ^ m) → (ilog2 x ≤ m)%Z.
Proof.
  intros Hx Hm Hle. unfold ilog2.
  set (n := Z.abs (Qnum x)). set (d := Qden x).
  assert ((n ≤ 2 ^ m * Z.pos d)%Z) as Hnd.
  { unfold Qcle in Hle. rewrite this_of_Z in Hle.
    change (this (Qcabs x)) with (Qabs x) in Hle.
    subst n d. revert Hle.
    destruct (this x) as [xn xd]. unfold Qabs, Qle, inject_Z.
    cbn [Qnum Qden]. lia. }
  assert ((0 < n)%Z) as Hn.
  { subst n. assert (Qnum x ≠ 0%Z); [|lia]. intros H0. apply Hx.
    apply Qc_is_canon. unfold Qeq. rewrite H0. done. }
  assert ((Z.log2 n - Z.log2 (Z.pos d) ≤ m)%Z) as Hl.
  { assert (Z.log2 n ≤ Z.log2 (2 ^ m * Z.pos d))%Z as H1
      by (by apply Z.log2_le_mono).
    rewrite Z.mul_comm, Z.log2_mul_pow2 in H1 by lia. lia. }
  destruct (pow2_le _ _ _); lia.
Qed.

(** Rounding does not leave an interval with integer bounds of small
    magnitude: such bounds are numbers of the format, on every grid the
    rounding can use. *)
Lemma round_within (prec qmin lo hi : Z) (x : Qc) :
  (1 ≤ prec)%Z → (qmin ≤ 0)%Z →
  (- 2 ^ (prec - 1) ≤ lo)%Z → (lo ≤ 0)%Z →
  (0 ≤ hi)%Z → (hi ≤ 2 ^ (prec - 1))%Z →
  Num.of_Z lo ≤ x → x ≤ Num.of_Z hi →
  Num.of_Z lo ≤ round prec qmin x ∧ round prec qmin x ≤ Num.of_Z hi.
Proof.
  intros Hprec Hqmin Hlo1 Hlo2 Hhi1 Hhi2 Hl Hh. unfold round.
  case_bool_decide as Hx.
  { split; [change 0 with (Num.of_Z 0)|change 0 with (Num.of_Z 0)];
      by apply of_Z_le_iff. }
  assert (Qcabs x ≤ Num.of_Z (2 ^ (prec - 1))) as Habs.
  { apply Qcabs_Qcle_condition. split.
    - eapply Qcle_trans; [|exact Hl].
      replace (- Num.of_Z (2 ^ (prec - 1)))
        with (Num.of_Z (- 2 ^ (prec - 1))).
      + by apply of_Z_le_iff.
      + apply Qc_is_canon. unfold Qcopp, Q2Qc. cbn [this].
        rewrite Qred_correct, !this_of_Z. by rewrite inject_Z_opp.
    - eapply Qcle_trans; [exact Hh|]. by apply of_Z_le_iff. }
  pose proof (ilog2_le x (prec - 1) Hx ltac:(lia) Habs) as Hlog.
  set (q := Z.max (ilog2 x - (prec - 1)) qmin).
  assert ((q ≤ 0)%Z) as Hq by lia.
  rewrite (two_pow_opp q Hq).
  pose proof (two_pow_pos q Hq) as Hpos.
  pose proof (two_pow_back q Hq) as Hback.
  pose proof (of_Z_pos (2 ^ (- q)) (pow2_pos (- q) ltac:(lia))) as HP.
  split.
  - replace (Num.of_Z lo) with (Num.of_Z (lo * 2 ^ (- q)) * two_pow q).
    + apply Qcmult_le_compat_r; [|by apply Qclt_le_weak].
      apply of_Z_le_iff, round_half_even_ge.
      rewrite of_Z_mul.
      apply Qcmult_le_compat_r; [done|by apply Qclt_le_weak].
    + rewrite of_Z_mul, <- Qcmult_assoc, Hback. ring.
  - replace (Num.of_Z hi) with (Num.of_Z (hi * 2 ^ (- q)) * two_pow q).
    + apply Qcmult_le_compat_r; [|by apply Qclt_le_weak].
      apply of_Z_le_iff, round_half_even_le.
      rewrite of_Z_mul.
      apply Qcmult_le_compat_r; [done|by apply Qclt_le_weak].
    + rewrite of_Z_mul, <- Qcmult_assoc, Hback. ring.
Qed.

Lemma two_pow_pos_any (k : Z) : 0 < two_pow k.
Proof.
  destruct (Z.le_gt_cases k 0) as [Hk|Hk]; [by apply two_pow_pos|].
  unfold two_pow. destruct (Z.leb_spec 0 k); [|lia].
  apply of_Z_pos, pow2_pos. lia.
Qed.

Lemma round_zero (prec qmin : Z) : round prec qmin 0 = 0.
Proof. reflexivity. Qed.

(** Rounding keeps the sign. *)
Lemma round_nonneg (prec qmin : Z) (x : Qc) :
  0 ≤ x → 0 ≤ round prec qmin x.
Proof.
  intros Hx. unfold round. case_bool_decide; [done|].
  set (q := Z.max _ _).
  replace 0 with (0 * two_pow q) by ring.
  apply Qcmult_le_compat_r; [|apply Qclt_le_weak, two_pow_pos_any].
  change 0 with (Num.of_Z 0). apply of_Z_le_iff, round_half_even_ge.
  change (Num.of_Z 0) with 0.
  replace 0 with (0 * two_pow (- q)) by ring.
  apply Qcmult_le_compat_r; [done|apply Qclt_le_weak, two_pow_pos_any].
Qed.


Lemma rnd32_within (lo hi : Z) (x : Qc) :
  (- 8388608 ≤ lo)%Z → (lo ≤ 0)%Z → (0 ≤ hi)%Z → (hi ≤ 8388608)%Z →
  Num.of_Z lo ≤ x → x ≤ Num.of_Z hi →
  Num.of_Z lo ≤ Float32.rnd x ∧ Float32.rnd x ≤ Num.of_Z hi.
Proof. intros. by apply (round_within 24 (-149)). Qed.

Lemma rnd32_nonneg (x : Qc) : 0 ≤ x → 0 ≤ Float32.rnd x.
Proof. apply round_nonneg. Qed.





End FloatFacts.


(** ** The absolute safety check *)

Module SafetyFacts.
Import RobotUtils MotionSpec.

Lemma check_items_false items limits :
  check_items items limits = false ↔
  ∃ joint pos lo hi, (joint, pos) ∈ items
    ∧ limits !! joint = Some (lo, hi) ∧ ¬ (lo ≤ pos ∧ pos ≤ hi).
Proof.
  induction items as [|[joint pos] items IH]; simpl.
  - split; [done|]. intros (? & ? & ? & ? & H & _). by apply elem_of_nil in H.
  - destruct (limits !! joint) as [[lo hi]|] eqn:Hl.
    + destruct (within (lo, hi) pos) eqn:Hw; simpl.
      * rewrite IH. split.
        -- intros (j & p & l & h & Hin & ?). exists j, p, l, h.
           split; [apply elem_of_cons; by right|done].
        -- intros (j & p & l & h & Hin & Hlim & Hout).
           apply elem_of_cons in Hin as [Heq|Hin].
           ++ injection Heq as -> ->. rewrite Hl in Hlim.
              injection Hlim as -> ->.
              apply NumFacts.within_true in Hw. done.
           ++ by exists j, p, l, h.
      * split; [|done]. intros _. exists joint, pos, lo, hi.
        split; [apply elem_of_cons; by left|]. split; [done|].
        intros Hin. apply NumFacts.within_true in Hin. congruence.
    + rewrite IH. split.
      * intros (j & p & l & h & Hin & ?). exists j, p, l, h.
        split; [apply elem_of_cons; by right|done].
      * intros (j & p & l & h & Hin & Hlim & Hout).
        apply elem_of_cons in Hin as [Heq|Hin].
        -- injection Heq as -> ->. congruence.
        -- by exists j, p, l, h.
Qed.

(** [check_position_safety] answers [False] exactly when some joint
    violates the table. *)
Lemma check_position_safety_false positions limits :
  check_position_safety positions limits = false ↔
  ∃ joint, violates positions limits joint.
Proof.
  unfold check_position_safety, violates. rewrite check_items_false. split.
  - intros (j & p & l & h & Hin & ?). exists j, p, l, h.
    by apply elem_of_map_to_list in Hin.
  - intros (j & p & l & h & Hin & ?). exists j, p, l, h.
    by apply elem_of_map_to_list in Hin.
Qed.

Lemma check_position_safety_true positions limits :
  check_position_safety positions limits = true ↔
  ∀ joint pos lo hi, positions !! joint = Some pos →
    limits !! joint = Some (lo, hi) → lo ≤ pos ∧ pos ≤ hi.
Proof.
  split.
  - intros Ht j p l h Hp Hl.
    destruct (decide (l ≤ p)) as [H1|H1], (decide (p ≤ h)) as [H2|H2];
      [done|exfalso..];
      (assert (check_position_safety positions limits = false) as Hf;
       [apply check_position_safety_false; exists j, p, l, h; tauto
       |congruence]).
  - intros Hall.
    destruct (check_position_safety positions limits) eqn:E; [done|].
    apply check_position_safety_false in E as (j & p & l & h & Hp & Hl & Hn).
    destruct Hn. eauto.
Qed.

End SafetyFacts.

(** ** Interpolation *)

Module InterpolateFacts.
Import RobotUtils.

Lemma interpolate_loop_ok start_pos end_pos steps rng acc :
  steps ≠ 0%Z →
  interpolate_loop start_pos end_pos steps rng acc =
  Ok (acc ++ ((λ step, interpolate_step start_pos end_pos
                 (Float64.div (Num.of_Z step) (Num.of_Z steps))) <$> rng)).
Proof.
  intros Hs. revert acc.
  induction rng as [|step rng IH]; intros acc; simpl.
  - by rewrite app_nil_r.
  - unfold py_truediv. destruct (decide (steps = 0%Z)); [done|]. simpl.
    rewrite IH. by rewrite <- app_assoc.
Qed.


Lemma py_range_length n : length (py_range n) = Z.to_nat n.
Proof. unfold py_range. by rewrite length_fmap, length_seq. Qed.





(** With a zero step count the very first fraction [0 / 0] raises. *)
Lemma interpolate_positions_zero start_pos end_pos :
  interpolate_positions start_pos end_pos 0 = Raise ZeroDivisionError.
Proof. reflexivity. Qed.

(** With a negative step count the range is empty and so is the path. *)
Lemma interpolate_positions_negative start_pos end_pos steps :
  (steps < 0)%Z → interpolate_positions start_pos end_pos steps = Ok [].
Proof.
  intros Hs. unfold interpolate_positions, py_range.
  by replace (Z.to_nat (steps + 1)) with 0%nat by lia.
Qed.

Lemma interpolate_positions_ok start_pos end_pos steps :
  (1 ≤ steps)%Z →
  interpolate_positions start_pos end_pos steps =
  Ok ((λ step, interpolate_step start_pos end_pos
         (Float64.div (Num.of_Z step) (Num.of_Z steps)))
        <$> py_range (steps + 1)).
Proof.
  intros Hs. unfold interpolate_positions.
  rewrite interpolate_loop_ok by lia. done.
Qed.

(** The scenario of the specification: from [{pan: 100, lift: -900}] to
    [{pan: 0, lift: -1024}] in two steps. *)
Example interpolate_two_steps :
  interpolate_positions
    (<["pan" := Num.of_Z 100]> {["lift" := Num.of_Z (-900)]})
    (<["pan" := Num.of_Z 0]> {["lift" := Num.of_Z (-1024)]}) 2 =
  Ok [<["pan" := Num.of_Z 100]> {["lift" := Num.of_Z (-900)]};
      <["pan" := Num.of_Z 50]> {["lift" := Num.of_Z (-962)]};
      <["pan" := Num.of_Z 0]> {["lift" := Num.of_Z (-1024)]}].
Proof. compute_done. Qed.

End InterpolateFacts.

(** ** The relative-target clamp *)

Module ClampFacts.
Import Clamp.

Lemma opp_le_self (m : Qc) : 0 ≤ m → - m ≤ m.
Proof.
  intros Hm. apply Qcle_trans with 0; [|done].
  apply NumFacts.le_opp_swap in Hm.
  by replace (- 0) with 0 in Hm by (by apply Qc_is_canon).
Qed.

(** The clamped difference lies in [[-m, m]]. *)
Lemma safe_diff_bounds (diff m : Qc) :
  0 ≤ m →
  - m ≤ Num.max (Num.min diff m) (- m) ∧ Num.max (Num.min diff m) (- m) ≤ m.
Proof.
  intros Hm. split.
  - apply NumFacts.max_le_l.
  - apply NumFacts.max_lub; [apply NumFacts.min_le_r|by apply opp_le_self].
Qed.

Lemma safe_diff_id (diff m : Qc) :
  Qcabs diff ≤ m → Num.max (Num.min diff m) (- m) = diff.
Proof.
  intros [Hlo Hhi]%NumFacts.abs_le.
  rewrite NumFacts.min_id by done. by apply NumFacts.max_id.
Qed.

(** The clamp adds to the present position a step of at most the bound,
    both as [float32]; the step is the requested difference when that is
    within the bound. *)
Lemma ensure_safe_goal_position_step (goal present m : Qc) :
  0 ≤ m →
  ∃ step,
    (ensure_safe_goal_position goal present m).1 = Float32.add present step
    ∧ Qcabs step ≤ Float32.rnd m
    ∧ (Qcabs (Float32.sub goal present) ≤ Float32.rnd m →
       step = Float32.sub goal present).
Proof.
  intros Hm. apply FloatFacts.rnd32_nonneg in Hm.
  unfold ensure_safe_goal_position. simpl. eexists. split; [reflexivity|].
  split.
  - apply NumFacts.abs_le. by apply safe_diff_bounds.
  - apply safe_diff_id.
Qed.

(** The goal comes back when its difference to the present position is
    within the bound and computed without rounding, the goal being a
    [float32]. *)
Lemma ensure_safe_goal_position_id (goal present m : Qc) :
  Qcabs (goal - present) ≤ Float32.rnd m →
  Float32.rnd (goal - present) = goal - present →
  Float32.rnd goal = goal →
  (ensure_safe_goal_position goal present m).1 = goal.
Proof.
  intros H Hd Hg. unfold ensure_safe_goal_position. simpl.
  unfold Float32.sub, Float32.add. rewrite Hd.
  rewrite safe_diff_id by done.
  by replace (present + (goal - present)) with goal by ring.
Qed.

(** The warning is logged exactly when the goal and the result are not
    close in the sense of [torch.allclose]. *)
Lemma ensure_safe_goal_position_warns (goal present m : Qc) :
  let r := (ensure_safe_goal_position goal present m).1 in
  (ensure_safe_goal_position goal present m).2 = true ↔
  allclose goal r = false.
Proof.
  unfold ensure_safe_goal_position. simpl. apply negb_true_iff.
Qed.

Lemma safe_position_lookup position current_pos m joint :
  safe_position position current_pos m !! joint =
  (λ target, (safe_joint current_pos m joint target).1) <$> position !! joint.
Proof.
  unfold safe_position. rewrite map_lookup_imap.
  by destruct (position !! joint).
Qed.

Lemma warned_joints_lookup position current_pos m joint :
  is_Some (warned_joints position current_pos m !! joint) ↔
  ∃ target, position !! joint = Some target
    ∧ (safe_joint current_pos m joint target).2 = true.
Proof.
  unfold warned_joints. split.
  - intros [x Hx]. apply map_lookup_filter_Some in Hx as [? ?]. eauto.
  - intros (x & Hx & Hw). exists x. by apply map_lookup_filter_Some.
Qed.

End ClampFacts.

(** ** Reasoning about methods *)

Ltac py_unfold :=
  unfold Py.bind, Py.ret, Py.print, Py.emit, Py.sleep, Py.tell, Py.gets,
    Py.get, Py.modify, Py.try_except, Py.raise, Py.lift_res in *.

Module ManipulatorFacts.
Import Manipulator.

Section WithDriver.
Context {Dev : Type} (drv : Driver Dev).

(** On a connected robot a read returns a position, touches only the
    hardware and writes nothing. *)
Lemma read_position_connected (w : World Dev) :
  is_connected w.1 = true →
  ∃ p d t, read_position drv w = (Ok p, (w.1, d), t) ∧ writes t = [].
Proof.
  intros Hc. destruct w as [r d]. simpl in Hc.
  unfold read_position, self. py_unfold. simpl. rewrite Hc. simpl.
  destruct (mock_mode r) eqn:Hm.
  - unfold _read_mock_position, self. py_unfold. simpl.
    destruct (follower_arms_cfg (config r)) as [|[arm ms] rest];
      simpl; eauto.
  - unfold _read_real_position, self, bus_read. py_unfold. simpl.
    destruct (follower_arms r); simpl; eauto.
    destruct (drv_read drv d) as [[p|e] d']; simpl; eauto.
Qed.

(** The mock adapter's read is the stored position of the first arm. *)
Lemma read_position_mock (r : Robot) (d : Dev) arm motors rest :
  is_connected r = true → mock_mode r = true →
  follower_arms_cfg (config r) = (arm, motors) :: rest →
  read_position drv (r, d) =
  (Ok (default ∅ (mock_positions r !! arm)), (r, d), [Adapter ARead]).
Proof.
  intros Hc Hm Hcfg.
  unfold read_position, _read_mock_position, self. py_unfold. simpl.
  rewrite Hc, Hm. simpl. rewrite Hcfg. done.
Qed.

Lemma for_each_prints {A} (xs : list A) (line : string) (w : World Dev) :
  ∃ t, Py.for_each xs (λ _, Py.print line) w = (Ok tt, w, t)
    ∧ adapter_io t = [].
Proof.
  induction xs as [|x xs (t & IH & Ht)]; simpl.
  - by exists [].
  - py_unfold. rewrite IH. simpl. eauto.
Qed.

(** With a relative bound configured, a write on the connected mock
    adapter succeeds whether or not the goal had to be clamped, and
    stores the clamped goal. *)
Lemma write_position_mock_clamped (r : Robot) (d : Dev) arm motors rest
    (bound : Qc) (goal : Position) :
  is_connected r = true → mock_mode r = true →
  follower_arms_cfg (config r) = (arm, motors) :: rest →
  max_relative_target (config r) = Some bound →
  let present := default ∅ (mock_positions r !! arm) in
  let stored :=
    if bool_decide (present = ∅) then goal
    else Clamp.safe_position goal present bound in
  ∃ t, write_position drv goal (r, d) =
    (Ok true,
     (set_mock_positions (<[arm := stored ∪ present]> (mock_positions r)) r,
      d), t).
Proof.
  intros Hc Hm Hcfg Hb present stored.
  unfold write_position, self. py_unfold. simpl. rewrite Hc, Hb. simpl.
  rewrite (read_position_mock r d arm motors rest) by done.
  fold present. subst stored.
  destruct (bool_decide (present = ∅)); simpl.
  - rewrite Hm. unfold _write_mock_position, self, update. py_unfold.
    simpl. rewrite Hcfg. simpl. eauto.
  - unfold log_clamp_warnings.
    destruct (for_each_prints
      (map_to_list (Clamp.warned_joints goal present bound))
      "relative goal position magnitude had to be clamped" (r, d))
      as (t & -> & _).
    simpl. rewrite Hm.
    unfold _write_mock_position, self, update. py_unfold.
    simpl. rewrite Hcfg. simpl. eauto.
Qed.

Lemma mock_positions_loop (arms : list (string * list string))
    (r : Robot) (d : Dev) :
  ∃ r', Py.for_each arms (λ arm,
          update (Dev:=Dev) (λ r, set_mock_positions
            (<[arm.1 := zero_position arm.2]> (mock_positions r)) r))
          (r, d) = (Ok tt, (r', d), [])
    ∧ mock_mode r' = mock_mode r ∧ is_connected r' = is_connected r.
Proof.
  revert r. induction arms as [|arm arms IH]; intros r; simpl.
  - by exists r.
  - unfold update at 1. py_unfold. simpl.
    destruct (IH (set_mock_positions
      (<[arm.1:=zero_position arm.2]> (mock_positions r)) r))
      as (r' & -> & ? & ?). simpl. eauto.
Qed.

Lemma connect_mock_devices_ok (r : Robot) (d : Dev) :
  ∃ r', _connect_mock_devices (r, d) =
          (Ok tt, (r', d), [Print "mock devices connected"])
    ∧ mock_mode r' = mock_mode r ∧ is_connected r' = is_connected r.
Proof.
  unfold _connect_mock_devices, self. unfold Py.bind at 1, Py.gets at 1.
  simpl. unfold Py.bind.
  destruct (mock_positions_loop (follower_arms_cfg (config r)) r d)
    as (r' & -> & ? & ?).
  unfold Py.print, Py.tell. simpl. eauto.
Qed.

(** [connect] on a fresh robot when the driver cannot be imported: the
    robot switches itself to mock mode and connects. *)
Lemma connect_missing_driver (cfg : Config) (d : Dev) :
  mock cfg = false → drv_import drv = Some ImportError →
  ∃ r t, connect drv (init cfg, d) = (Ok true, (r, d), t)
    ∧ is_connected r = true ∧ mock_mode r = true ∧ signals t = [].
Proof.
  intros Hmock Himp.
  unfold connect, _connect_real_devices, external, self, update.
  py_unfold. simpl. rewrite Hmock, Himp. simpl.
  match goal with |- context [_connect_mock_devices (?r, d)] =>
    destruct (connect_mock_devices_ok r d) as (r' & -> & Hm' & Hc') end.
  simpl in Hm'. simpl.
  eexists _, _. split; [reflexivity|]. simpl. auto.
Qed.

(** [connect] on a fresh robot when the driver is present but building
    the motor buses raises anything but an [ImportError]: the exception
    is caught and [connect] answers [False]. *)
Lemma connect_bus_failure (cfg : Config) (d : Dev) (e : exn) :
  mock cfg = false → follower_arms_cfg cfg ≠ [] →
  drv_import drv = None → drv_make_motors_buses drv = Some e →
  e ≠ ImportError →
  ∃ t, connect drv (init cfg, d) = (Ok false, (init cfg, d), t)
    ∧ signals t = [].
Proof.
  intros Hmock Harms Himp Hbus He.
  unfold connect, _connect_real_devices, external, self, update.
  py_unfold. simpl. rewrite Hmock, Himp, Hbus. simpl.
  rewrite bool_decide_eq_false_2 by done. simpl.
  destruct e; try done; simpl; eauto.
Qed.

End WithDriver.
End ManipulatorFacts.

Module InterfaceFacts.
Import Interface MotionSpec.

Lemma same_flags_refl s : same_flags s s.
Proof. by destruct s as [? ? ? ? ? ? ? [|?] ? ?]. Qed.

Lemma same_flags_set r s : same_flags s (set_lerobot_robot r s).
Proof. by destruct s as [? ? ? ? ? ? ? [|?] ? ?]. Qed.

(** A robot object exists only when the import succeeded. *)
Lemma robot_needs_import s r :
  lerobot_robot s = Some r → lerobot_available s = true.
Proof. unfold lerobot_robot, lerobot_available. by destruct (lerobot s). Qed.

Lemma lerobot_active_available s :
  lerobot_active s = true → lerobot_available s = true.
Proof.
  unfold lerobot_active. intros [[r Hr]%bool_decide_eq_true _]%andb_true_iff.
  by eapply robot_needs_import.
Qed.

(** Without the import the limit table is empty and every position
    passes the check. *)
Lemma check_position_safety_no_limits positions :
  RobotUtils.check_position_safety positions ∅ = true.
Proof.
  apply SafetyFacts.check_position_safety_true.
  intros j p lo hi _ H. by rewrite lookup_empty in H.
Qed.

Lemma unsafe_needs_import s target :
  RobotUtils.check_position_safety target (joint_limits s) = false →
  lerobot_available s = true.
Proof.
  unfold joint_limits. destruct (lerobot_available s); [done|].
  by rewrite check_position_safety_no_limits.
Qed.

Section WithDriver.
Context {Dev : Type} (drv : Driver Dev).

Lemma on_robot_frame {A} (m : Manipulator.Mth Dev A) (w : World Dev) :
  ∃ r w' t, on_robot m w = (r, w', t) ∧ same_flags w.1 w'.1.
Proof.
  unfold on_robot. destruct (lerobot_robot w.1) as [ro|].
  - destruct (m (ro, w.2)) as [[r [ro' d']] t]. simpl.
    eexists _, _, _. split; [reflexivity|]. apply same_flags_set.
  - eexists _, _, _. split; [reflexivity|]. apply same_flags_refl.
Qed.

(** [_move_lerobot] never raises and touches only the robot object. *)
Lemma move_lerobot_total target duration (w : World Dev) :
  ∃ b w' t, _move_lerobot drv target duration w = (Ok b, w', t)
    ∧ same_flags w.1 w'.1.
Proof.
  unfold _move_lerobot, Py.try_except.
  destruct (truthy duration) as [d|].
  - destruct (on_robot_frame
      (SmoothMove.smooth_move_to_position drv target
         (Num.py_int (d * Num.of_Z 10))
         (Float64.rnd (Num.frac 1 10))) w)
      as ([b|e] & w' & t & -> & Hf); py_unfold; simpl; eauto.
  - destruct (on_robot_frame
      (Manipulator.move_to_position drv target) w)
      as ([b|e] & w' & t & -> & Hf); py_unfold; simpl; eauto.
Qed.

Lemma move_basic_total target duration (w : World Dev) :
  ∃ t, _move_basic target duration w = (Ok true, w, t)
    ∧ adapter_io t = [].
Proof.
  unfold _move_basic, self. py_unfold. simpl. eauto.
Qed.

(** The movement proper, on either path. *)
Lemma move_total (lerobot : bool) target duration (w : World Dev) :
  ∃ b w' t,
    (if lerobot then _move_lerobot drv target duration
     else _move_basic target duration) w = (Ok b, w', t)
    ∧ same_flags w.1 w'.1.
Proof.
  destruct lerobot.
  - apply move_lerobot_total.
  - destruct (move_basic_total target duration w) as (t & -> & _).
    eexists _, _, _. split; [reflexivity|]. apply same_flags_refl.
Qed.

Lemma move_rejected (w : World Dev) position_name duration :
  Rejection w.1 position_name →
  turned_down w (move_to_position drv position_name duration w).
Proof.
  intros Hrej. unfold turned_down, move_to_position, self. py_unfold.
  destruct Hrej as [Hc|Hc Hm|Hc Hm Hs|target Hc Hm Hs Hu]; simpl.
  - rewrite Hc. simpl. done.
  - rewrite Hc, Hm. simpl. done.
  - rewrite Hc, Hm. simpl. rewrite Hs. simpl. done.
  - rewrite Hc, Hm. simpl. rewrite Hs. unfold imported_name, self.
    py_unfold. simpl. rewrite (unsafe_needs_import _ _ Hu). simpl.
    rewrite Hu. simpl. done.
Qed.

(** A known preset without the import: the safety check is an unbound
    name, and the handler of [move_to_position] reports the
    [NameError]. *)
Lemma move_name_error (w : World Dev) position_name duration target :
  is_connected w.1 = true → is_moving w.1 = false →
  saved_positions w.1 !! position_name = Some target →
  lerobot_available w.1 = false →
  move_to_position drv position_name duration w =
    (Ok false,
     (set_target_position None (set_is_moving false w.1), w.2),
     [Print ("move to position: " +:+ position_name);
      Print "move failed";
      Emit (error_occurred "move" NameError)]).
Proof.
  intros Hc Hm Hs Ha. unfold move_to_position, imported_name, self, update.
  py_unfold. simpl. rewrite Hc, Hm. simpl. rewrite Hs. simpl.
  rewrite Ha. simpl. done.
Qed.

(** A call that starts the movement: it answers what the movement
    answered, and leaves the interface idle with no target. *)
Lemma move_started (w : World Dev) position_name duration target :
  is_connected w.1 = true → is_moving w.1 = false →
  saved_positions w.1 !! position_name = Some target →
  lerobot_available w.1 = true →
  RobotUtils.check_position_safety target (joint_limits w.1) = true →
  ∃ b w' t, move_to_position drv position_name duration w = (Ok b, w', t)
    ∧ is_moving w'.1 = false ∧ target_position w'.1 = None
    ∧ is_connected w'.1 = true
    ∧ hd_error (signals t) = Some (Emit (movement_started position_name))
    ∧ last (signals t) = Some (Emit (movement_completed position_name)).
Proof.
  intros Hc Hm Hs Ha Hu.
  unfold move_to_position, imported_name, self, update. py_unfold.
  simpl. rewrite Hc, Hm. simpl. rewrite Hs. simpl. rewrite Ha. simpl.
  rewrite Hu. simpl.
  set (w1 := (set_target_position (Some position_name)
                (set_is_moving true w.1), w.2)).
  assert (∃ b w' t,
    (if lerobot_active w.1 then _move_lerobot drv target duration
     else _move_basic target duration) w1 = (Ok b, w', t)
    ∧ same_flags w1.1 w'.1) as (b & w' & t & Heq & Hf)
    by apply move_total.
  assert (is_connected w'.1 = true) as Hc'.
  { rewrite Hf. by destruct w as [[] ?]. }
  destruct w' as [s' d'].
  destruct (lerobot_active w.1); rewrite Heq; clear Heq;
    (destruct b; simpl;
     (eexists _, _, _; split; [reflexivity|]; simpl;
      repeat split; try done;
      unfold signals; rewrite List.filter_app; simpl;
      rewrite last_cons, last_app; simpl; done)).
Qed.

(** [move_to_position] never raises. *)
Lemma move_to_position_total (w : World Dev) position_name duration :
  ∃ b w' t, move_to_position drv position_name duration w = (Ok b, w', t).
Proof.
  destruct (is_connected w.1) eqn:Hc;
    [destruct (is_moving w.1) eqn:Hm;
     [|destruct (saved_positions w.1 !! position_name) as [target|] eqn:Hs;
       [destruct (lerobot_available w.1) eqn:Ha;
        [destruct (RobotUtils.check_position_safety target
           (joint_limits w.1)) eqn:Hu|]|]]|].
  6: { destruct (move_rejected w position_name duration) as (H & _).
       { by apply NotConnected. }
       destruct (move_to_position drv position_name duration w)
         as [[r w'] t]. simpl in H. subst. eauto. }
  4: { rewrite (move_name_error w position_name duration target) by done.
       eauto. }
  2: { destruct (move_started w position_name duration target)
         as (b & w' & t & -> & _); eauto. }
  all: match goal with |- context [move_to_position ?d ?n ?du ?w] =>
    let H := fresh in
    assert (turned_down w (move_to_position d n du w)) as (H & _)
      by (apply move_rejected; eauto using Rejection);
    destruct (move_to_position d n du w) as [[r w'] t];
    simpl in H; subst; eauto end.
Qed.

End WithDriver.
End InterfaceFacts.

Module ConnectFacts.
Import Interface.

Section WithDriver.
Context {Dev : Type} (drv : Driver Dev).

(** What [_connect_lerobot] does with the answer of the robot's
    [connect]. *)
Lemma connect_lerobot_step (s : State) (d : Dev) b r' d' t :
  use_lerobot s = true → lerobot_available s = true →
  Manipulator.connect drv
    (Manipulator.init create_projecto_follower_only_config, d) =
    (Ok b, (r', d'), t) →
  ∃ s' t', connect drv (s, d) = (Ok b, (s', d'), t')
    ∧ is_connected s' = (if b then true else is_connected s)
    ∧ lerobot_robot s' = Some r'
    ∧ use_lerobot s' = true
    ∧ signals t' =
        signals t ++ (if b then [Emit (status_changed "connected")] else []).
Proof.
  intros Hu Ha Hconn.
  destruct s as [? ? ? ? ? ? ? [|ro] ? ?]; [done|]. simpl in Hu. subst.
  unfold connect, _connect_lerobot, on_robot, imported_name, self, update.
  py_unfold. cbn -[Manipulator.connect].
  rewrite Hconn. destruct b; simpl.
  - eexists _, _. split; [reflexivity|]. simpl.
    repeat split; try done.
    unfold signals. rewrite List.filter_app. done.
  - eexists _, _. split; [reflexivity|]. simpl.
    repeat split; try done.
    unfold signals. rewrite List.filter_app. simpl.
    by rewrite app_nil_r.
Qed.
(** When the driver is installed and building the motor buses raises
    anything but an [ImportError], the robot's [connect] catches the
    exception and answers [False], and the interface's [connect()] returns
    [False] as well: the interface stays disconnected, the robot object is
    still in real mode and no signal is emitted. *)
Lemma connect_gives_up_on_bus_failure cfg presets (d : Dev) (e : exn) :
  drv_import drv = None → drv_make_motors_buses drv = Some e →
  e ≠ ImportError →
  ∃ s' robot t,
    connect drv (init cfg true presets, d) = (Ok false, (s', d), t)
    ∧ is_connected s' = false
    ∧ lerobot_robot s' = Some robot
    ∧ (Manipulator.is_mock (robot, d)).1.1 = Ok false
    ∧ signals t = [].
Proof.
  intros Himp Hbus He.
  destruct (ManipulatorFacts.connect_bus_failure drv
    create_projecto_follower_only_config d e eq_refl) as (t & Hconn & Hsig);
    [done|exact Himp|exact Hbus|exact He|].
  destruct (connect_lerobot_step (init cfg true presets) d
    false _ d t eq_refl eq_refl Hconn) as (s' & t' & Heq & Hc' & Hr & _ & Hsig').
  exists s', (Manipulator.init create_projecto_follower_only_config), t'.
  split; [exact Heq|]. split; [exact Hc'|]. split; [exact Hr|].
  split; [reflexivity|]. rewrite Hsig', Hsig. done.
Qed.
End WithDriver.
End ConnectFacts.

(** ** The stage machine *)

Module StageFacts.
Import Stage StageSpec.

Section WithAny.
Context {Any : Type}.
Implicit Types (s : State Any) (stage : string).

Lemma valid_stage_cases stage :
  _is_valid_stage stage = true ↔
  stage = REST ∨ stage = PRIMARY_INTERACTION ∨ stage = MENU_DETAIL
  ∨ stage = OBJECT_RECOGNITION ∨ stage = SMART_CONTROL
  ∨ stage = TRACKING_MODE ∨ stage = GAME_MODE ∨ stage = KEYBOARD_INPUT.
Proof.
  unfold _is_valid_stage, valid_stages.
  rewrite bool_decide_eq_true, !elem_of_cons, elem_of_nil. tauto.
Qed.

Lemma dispatch_eq (h : string → HookCall) stage s :
  dispatch h stage s = (Ok tt, s, hook_trace h stage).
Proof.
  unfold dispatch, hook_trace.
  destruct (_is_valid_stage stage) eqn:Hv.
  - apply valid_stage_cases in Hv.
    repeat (destruct Hv as [->|Hv]; [reflexivity|]). by subst.
  - assert (¬ (stage = REST ∨ stage = PRIMARY_INTERACTION
      ∨ stage = MENU_DETAIL ∨ stage = OBJECT_RECOGNITION
      ∨ stage = SMART_CONTROL ∨ stage = TRACKING_MODE
      ∨ stage = GAME_MODE ∨ stage = KEYBOARD_INPUT)) as Hn.
    { rewrite <- valid_stage_cases. congruence. }
    repeat (case_bool_decide; [tauto|]). done.
Qed.

Lemma enter_stage_eq stage s :
  _enter_stage stage s = (Ok tt, s, enter_trace stage).
Proof.
  unfold _enter_stage, enter_trace. py_unfold.
  rewrite dispatch_eq. reflexivity.
Qed.

Lemma exit_stage_eq stage s :
  _exit_stage stage s = (Ok tt, s, exit_trace stage).
Proof.
  unfold _exit_stage, exit_trace. py_unfold.
  rewrite dispatch_eq. reflexivity.
Qed.

Lemma reset_idle_timer_eq s :
  _reset_idle_timer s =
  (Ok tt, set_idle_timer (armed_for s) s, [Timer (timer_call_for s)]).
Proof.
  unfold _reset_idle_timer, armed_for, timer_call_for. py_unfold.
  by destruct (bool_decide (current_stage s = REST)).
Qed.

(** The three ways [change_stage] can go. *)
Lemma change_stage_same s kwargs :
  change_stage (current_stage s) kwargs s =
  (Ok true, s, [Print ("already in stage: " +:+ current_stage s)]).
Proof.
  unfold change_stage. py_unfold.
  by rewrite bool_decide_eq_true_2.
Qed.

Lemma change_stage_invalid s new_stage kwargs :
  new_stage ≠ current_stage s → _is_valid_stage new_stage = false →
  change_stage new_stage kwargs s =
  (Ok false, s, [Print ("invalid stage name: " +:+ new_stage)]).
Proof.
  intros Hne Hinv. unfold change_stage. py_unfold.
  rewrite bool_decide_eq_false_2 by done. by rewrite Hinv.
Qed.

Lemma change_stage_moves s new_stage kwargs :
  new_stage ≠ current_stage s → _is_valid_stage new_stage = true →
  change_stage new_stage kwargs s =
  (Ok true, moved new_stage kwargs s, move_trace new_stage s).
Proof.
  intros Hne Hv. unfold change_stage. py_unfold.
  rewrite bool_decide_eq_false_2 by done. rewrite Hv. cbn [negb].
  destruct (bool_decide (kwargs = ∅)) eqn:Hk; cbn [negb].
  - rewrite exit_stage_eq, enter_stage_eq, reset_idle_timer_eq.
    unfold moved, move_trace. rewrite Hk. reflexivity.
  - rewrite exit_stage_eq, enter_stage_eq, reset_idle_timer_eq.
    unfold moved, move_trace. rewrite Hk. reflexivity.
Qed.

Lemma change_stage_state s new_stage kwargs :
  ∃ b t, change_stage new_stage kwargs s =
    (Ok b, changed new_stage kwargs s, t).
Proof.
  unfold changed. case_bool_decide as Hsame.
  - subst. rewrite change_stage_same. eauto.
  - destruct (_is_valid_stage new_stage) eqn:Hv.
    + rewrite change_stage_moves by done. eauto.
    + rewrite change_stage_invalid by done. eauto.
Qed.

Lemma start_eq s :
  ∃ t, start s = (Ok true, set_idle_timer (armed_for s) s, t).
Proof.
  unfold start. py_unfold.
  rewrite enter_stage_eq, reset_idle_timer_eq. eauto.
Qed.

Lemma call_eq (c : Call Any) s : ∃ t, call c s = (Ok tt, next c s, t).
Proof.
  destruct c; simpl.
  - unfold Py.bind. destruct (start_eq s) as (t & ->).
    unfold Py.ret. eauto.
  - unfold stop. py_unfold. cbn [current_stage set_idle_timer].
    destruct (bool_decide (current_stage s = "")); cbn [negb].
    + eauto.
    + rewrite exit_stage_eq. eauto.
  - unfold Py.bind.
    destruct (change_stage_state s new_stage kwargs) as (b & t & ->).
    unfold Py.ret. eauto.
  - unfold go_back, back_target. unfold Py.bind at 1, Py.bind at 1.
    unfold Py.get.
    destruct (previous_stage s) as [p|]; [case_bool_decide|];
      match goal with |- context [change_stage ?n ?k s] =>
        destruct (change_stage_state s n k) as (b & t & ->) end;
      unfold Py.ret; eauto.
  - unfold go_to_rest, Py.bind.
    destruct (change_stage_state s REST ∅) as (b & t & ->).
    unfold Py.ret. eauto.
  - unfold timer_expires, _on_idle_timeout, go_to_rest. py_unfold.
    destruct (idle_timer s); [|eauto].
    destruct (change_stage_state s REST ∅) as (b & t & ->). eauto.
  - unfold on_user_activity. rewrite reset_idle_timer_eq. eauto.
  - unfold set_stage_data. py_unfold. eauto.
  - unfold clear_stage_data. py_unfold. eauto.
Qed.

Lemma for_each_call (history : list (Call Any)) s :
  ∃ t, Py.for_each history call s =
    (Ok tt, foldl (λ s c, next c s) s history, t).
Proof.
  revert s. induction history as [|c history IH]; intros s; simpl.
  - unfold Py.ret. eauto.
  - unfold Py.bind. destruct (call_eq c s) as (t & ->).
    destruct (IH (next c s)) as (t' & ->). eauto.
Qed.

Lemma after_foldl (history : list (Call Any)) :
  after history = foldl (λ s c, next c s) init history.
Proof.
  unfold after. by destruct (for_each_call history init) as (t & ->).
Qed.

Lemma after_snoc (history : list (Call Any)) c :
  after (history ++ [c]) = next c (after history).
Proof. rewrite !after_foldl. by rewrite foldl_app. Qed.

(** *** The stage stays in the closed set *)

Lemma rest_valid : _is_valid_stage REST = true.
Proof. reflexivity. Qed.

Lemma changed_valid new_stage kwargs s :
  stages_valid s → stages_valid (changed new_stage kwargs s).
Proof.
  intros [Hc Hp]. unfold changed. case_bool_decide; [done|].
  destruct (_is_valid_stage new_stage) eqn:Hv; [|done].
  split; [done|]. simpl. intros p [= <-]. done.
Qed.

Lemma next_valid (c : Call Any) s :
  stages_valid s → stages_valid (next c s).
Proof.
  intros Hs. destruct c; simpl; try done;
    try (by apply changed_valid).
  - destruct (idle_timer s); [by apply changed_valid|done].
  - by destruct (stage_data s !! target_stage stage s).
Qed.

Lemma after_valid (history : list (Call Any)) :
  stages_valid (after history).
Proof.
  induction history as [|c history IH] using rev_ind.
  - split; [done|]. intros p Hp. discriminate Hp.
  - rewrite after_snoc. by apply next_valid.
Qed.

(** *** The idle timer follows the stage *)

Lemma armed_for_consistent s :
  idle_timeout_duration s = 30000%Z →
  timer_consistent (set_idle_timer (armed_for s) s).
Proof.
  intros Hd. split; [done|]. simpl. unfold armed_for. by rewrite Hd.
Qed.

Lemma moved_consistent new_stage kwargs s :
  idle_timeout_duration s = 30000%Z →
  timer_consistent (moved new_stage kwargs s).
Proof.
  intros Hd. unfold moved. apply armed_for_consistent. simpl.
  by destruct (negb (bool_decide (kwargs = ∅))).
Qed.

Lemma changed_consistent new_stage kwargs s :
  timer_consistent s → timer_consistent (changed new_stage kwargs s).
Proof.
  intros Hs. unfold changed. case_bool_decide; [done|].
  destruct (_is_valid_stage new_stage); [|done].
  apply moved_consistent, Hs.
Qed.

Lemma next_consistent (c : Call Any) s :
  is_stop c = false → timer_consistent s → timer_consistent (next c s).
Proof.
  intros Hc Hs. destruct c; simpl; try done;
    try (by apply changed_consistent);
    try (by apply armed_for_consistent, Hs).
  - destruct (idle_timer s); [by apply changed_consistent|done].
  - by destruct (stage_data s !! target_stage stage s).
Qed.

Lemma after_consistent (history : list (Call Any)) :
  running history → timer_consistent (after history).
Proof.
  induction history as [|c history IH] using rev_ind; intros Hrun.
  - done.
  - apply Forall_app in Hrun as [Hrun Hc].
    rewrite Forall_singleton in Hc.
    rewrite after_snoc. apply next_consistent; [exact Hc|]. by apply IH.
Qed.

Lemma consistent_armed_iff s :
  timer_consistent s →
  (is_Some (idle_timer s) ↔ current_stage s ≠ REST).
Proof.
  intros [_ Ht]. rewrite Ht. case_bool_decide.
  - split; [by intros [? ?]|done].
  - split; [done|eauto].
Qed.

Lemma foldl_consistent (since : list (Call Any)) s :
  running since → timer_consistent s →
  timer_consistent (foldl (λ s c, next c s) s since).
Proof.
  revert s. induction since as [|c since IH]; intros s Hrun Hs; [done|].
  apply Forall_cons in Hrun as [Hc Hrun]. simpl.
  apply IH; [done|]. by apply next_consistent.
Qed.

(** *** What holds after [stop()] as well *)

Lemma consistent_sound s : timer_consistent s → timer_sound s.
Proof.
  intros [Hd Ht]. split; [done|]. intros msec Hm. rewrite Ht in Hm.
  case_bool_decide; [done|]. by injection Hm as <-.
Qed.

Lemma armed_for_sound s :
  idle_timeout_duration s = 30000%Z →
  timer_sound (set_idle_timer (armed_for s) s).
Proof. intros Hd. by apply consistent_sound, armed_for_consistent. Qed.

Lemma changed_sound new_stage kwargs s :
  timer_sound s → timer_sound (changed new_stage kwargs s).
Proof.
  intros Hs. unfold changed. case_bool_decide; [done|].
  destruct (_is_valid_stage new_stage); [|done].
  destruct Hs as [Hd _]. by apply consistent_sound, moved_consistent.
Qed.

Lemma next_sound (c : Call Any) s : timer_sound s → timer_sound (next c s).
Proof.
  intros Hs. destruct c; simpl;
    try (by apply changed_sound);
    try (by apply armed_for_sound; destruct Hs).
  - split; [by destruct Hs|]. intros msec Hm. discriminate Hm.
  - destruct (idle_timer s); [by apply changed_sound|done].
  - done.
  - by destruct (stage_data s !! target_stage stage s).
Qed.

Lemma after_sound (history : list (Call Any)) : timer_sound (after history).
Proof.
  induction history as [|c history IH] using rev_ind.
  - split; [done|]. intros msec Hm. discriminate Hm.
  - rewrite after_snoc. by apply next_sound.
Qed.

Lemma reset_consistent (c : Call Any) s :
  is_reset c = true → idle_timeout_duration s = 30000%Z →
  timer_consistent (next c s).
Proof.
  intros Hc Hd. destruct c; try done; simpl; by apply armed_for_consistent.
Qed.

Lemma after_settled (history : list (Call Any)) :
  settled history → timer_consistent (after history).
Proof.
  intros (before & since & -> & Hrun & Hlast).
  rewrite after_foldl, foldl_app, <- after_foldl.
  apply foldl_consistent; [done|].
  destruct Hlast as [->|(c & Hc & Hreset)]; [done|].
  apply last_Some in Hc as [before' ->]. rewrite after_snoc.
  apply reset_consistent; [done|]. by destruct (after_sound before').
Qed.

(** *** The calls on the timer *)

Lemma timer_calls_app t1 t2 :
  timer_calls (t1 ++ t2) = timer_calls t1 ++ timer_calls t2.
Proof. apply omap_app. Qed.

Lemma hook_trace_timer_calls (h : string → HookCall) stage :
  timer_calls (hook_trace h stage) = [].
Proof. unfold hook_trace. by destruct (_is_valid_stage stage). Qed.

Lemma enter_trace_timer_calls stage : timer_calls (enter_trace stage) = [].
Proof.
  unfold enter_trace. rewrite !timer_calls_app, hook_trace_timer_calls.
  done.
Qed.

Lemma exit_trace_timer_calls stage : timer_calls (exit_trace stage) = [].
Proof.
  unfold exit_trace. rewrite !timer_calls_app, hook_trace_timer_calls.
  done.
Qed.

Lemma move_trace_timer_calls new_stage s :
  timer_calls (move_trace new_stage s)
    = [timer_call_for (set_current_stage new_stage s)].
Proof.
  unfold move_trace.
  rewrite !timer_calls_app, enter_trace_timer_calls, exit_trace_timer_calls.
  done.
Qed.

Lemma start_run s :
  ∃ t, start s = (Ok true, set_idle_timer (armed_for s) s, t)
    ∧ timer_calls t = [timer_call_for s].
Proof.
  unfold start. py_unfold.
  rewrite enter_stage_eq, reset_idle_timer_eq.
  eexists. split; [reflexivity|]. cbn [fst snd].
  change (Print "starting stage controller"
          :: (enter_trace (current_stage s)
              ++ [Timer (timer_call_for s)]
              ++ [Print "stage controller started"]) ++ [])
    with ([Print "starting stage controller"]
          ++ (enter_trace (current_stage s)
              ++ [Timer (timer_call_for s)]
              ++ [Print "stage controller started"]) ++ []).
  rewrite !timer_calls_app, enter_trace_timer_calls. done.
Qed.
End WithAny.
End StageFacts.

Module ShortMoveFacts.
Import Interface MotionSpec.

Section WithDriver.
Context {Dev : Type} (drv : Driver Dev).

(** With a zero step count the smooth move reads the present position,
    fails on the first fraction and writes nothing. *)
Lemma smooth_move_zero_steps (r : Manipulator.Robot) (d : Dev)
    target delay :
  Manipulator.is_connected r = true →
  ∃ d' t,
    SmoothMove.smooth_move_to_position drv target 0 delay (r, d) =
      (Ok false, (r, d'), t)
    ∧ writes t = [] ∧ Print "smooth move failed" ∈ t.
Proof.
  intros Hc.
  unfold SmoothMove.smooth_move_to_position,
    Manipulator.get_current_positions.
  unfold Py.try_except, Py.bind at 1.
  destruct (ManipulatorFacts.read_position_connected drv (r, d) Hc)
    as (p & d' & t & -> & Hw).
  unfold Py.bind at 1, Py.lift_res.
  rewrite InterpolateFacts.interpolate_positions_zero.
  py_unfold. simpl. eexists _, _. split; [reflexivity|]. split.
  - unfold writes in *. rewrite !List.filter_app, Hw. done.
  - rewrite ?elem_of_app, ?elem_of_cons. tauto.
Qed.

Lemma truthy_nonzero (d : Qc) : 0 < d → truthy (Some d) = Some d.
Proof.
  intros Hd. unfold truthy. rewrite bool_decide_eq_false_2; [done|].
  intros ->. by apply Qclt_not_eq in Hd.
Qed.

(** A duration below a tenth of a second makes the interface ask for
    a smooth move of zero steps, and the call fails. *)
Lemma move_with_short_duration (w : World Dev) position_name (d : Qc)
    target robot :
  is_connected w.1 = true → is_moving w.1 = false →
  saved_positions w.1 !! position_name = Some target →
  RobotUtils.check_position_safety target (joint_limits w.1) = true →
  lerobot_robot w.1 = Some robot → use_lerobot w.1 = true →
  Manipulator.is_connected robot = true →
  0 < d → d < Num.frac 1 10 →
  ∃ w' t, move_to_position drv position_name (Some d) w = (Ok false, w', t)
    ∧ writes t = [] ∧ Print "smooth move failed" ∈ t.
Proof.
  intros Hc Hm Hs Hu Hr Hl Hrc Hd0 Hd1.
  pose proof (InterfaceFacts.robot_needs_import _ _ Hr) as Ha.
  unfold move_to_position, imported_name, self, update. py_unfold.
  cbn [fst snd]. rewrite Hc, Hm. cbn [negb]. rewrite Hs. cbn [fst snd].
  rewrite Ha. cbn [fst snd]. rewrite Hu. cbn [negb].
  unfold lerobot_active. rewrite Hr, Hl.
  rewrite bool_decide_eq_true_2 by eauto. cbn [andb].
  unfold _move_lerobot, Py.try_except.
  rewrite (truthy_nonzero d Hd0).
  rewrite (NumFacts.py_int_short_duration d Hd0 Hd1).
  unfold on_robot. cbn [fst snd].
  change (lerobot_robot (set_target_position _ (set_is_moving _ w.1)))
    with (lerobot_robot w.1).
  rewrite Hr.
  destruct (smooth_move_zero_steps robot w.2 target
    (Float64.rnd (Num.frac 1 10)) Hrc)
    as (d' & t & -> & Hw & Hin).
  py_unfold. simpl. eexists _, _. split; [reflexivity|]. split.
  - unfold writes in *. simpl. rewrite List.filter_app, Hw. done.
  - rewrite !elem_of_cons, !elem_of_app. auto.
Qed.
End WithDriver.
End ShortMoveFacts.

(** * The claims *)

Import Interface MotionSpec.

(** C1. [check_position_safety(positions, limits)] answers [False]
    exactly when some joint of [positions] that appears in [limits] lies
    outside its range; and a [move_to_position] call made while connected
    and not moving, whose preset has such a joint, is rejected: it
    returns [False], changes nothing, and its trace holds no call on the
    device adapter (no read, no write) and no signal. *)
Theorem unsafe_target_rejected_without_io :
  (∀ positions limits,
     RobotUtils.check_position_safety positions limits = false ↔
     ∃ joint, violates positions limits joint)
  ∧ (∀ Dev (drv : Driver Dev) (w : World Dev) position_name duration
       target joint,
       is_connected w.1 = true → is_moving w.1 = false →
       saved_positions w.1 !! position_name = Some target →
       violates target (joint_limits w.1) joint →
       ∃ t, move_to_position drv position_name duration w = (Ok false, w, t)
         ∧ adapter_io t = [] ∧ signals t = []).
Proof.
  split; [apply SafetyFacts.check_position_safety_false|].
  intros Dev drv w name duration target joint Hc Hm Hs Hv.
  assert (RobotUtils.check_position_safety target (joint_limits w.1) = false)
    as Hu by (apply SafetyFacts.check_position_safety_false; eauto).
  destruct (InterfaceFacts.move_rejected drv w name duration)
    as (Hr & Hw & Hsig & Hio).
  { by eapply UnsafePosition. }
  destruct (move_to_position drv name duration w) as [[r w'] t].
  simpl in *. subst. eauto.
Qed.

Lemma unsafe_target_rejected_witness :
  ∃ t, move_to_position Scene.no_driver "high" None Scene.connected =
         (Ok false, Scene.connected, t)
    ∧ adapter_io t = [] ∧ signals t = [].
Proof.
  apply (proj2 unsafe_target_rejected_without_io unit Scene.no_driver
           Scene.connected "high" None (RobotUtils.pose 0 3000 1024 0 0)
           "shoulder_lift").
  - reflexivity.
  - reflexivity.
  - reflexivity.
  - exists (Num.of_Z 3000), (Num.of_Z (-2048)), (Num.of_Z 2048).
    split; [reflexivity|]. split; [reflexivity|].
    intros [_ H]. apply NumFacts.leb_le in H. discriminate H.
Defined.

(** C4. A [move_to_position] call made while a movement is in flight
    returns [False] at once and leaves everything as it was: the state
    after the call is the state before it (so [is_moving] is still true
    and [target_position] and [current_position] are untouched), no
    signal is emitted and the adapter is not called; when the interface
    is connected the console shows the busy message. *)
Theorem busy_call_rejected {Dev} (drv : Driver Dev) (w : World Dev)
    position_name duration :
  is_moving w.1 = true →
  ∃ t, move_to_position drv position_name duration w = (Ok false, w, t)
    ∧ signals t = [] ∧ adapter_io t = []
    ∧ (is_connected w.1 = true →
       t = [Print ("move to position: " +:+ position_name);
            Print "already moving, please wait"]).
Proof.
  intros Hm. unfold move_to_position, self. py_unfold. cbn [fst snd].
  destruct (is_connected w.1); cbn [negb].
  - rewrite Hm. eexists. split; [reflexivity|]. by repeat split.
  - eexists. split; [reflexivity|]. by repeat split.
Qed.

Lemma busy_call_rejected_witness :
  ∃ t, move_to_position Scene.no_driver "rest" None Scene.moving =
         (Ok false, Scene.moving, t)
    ∧ signals t = [] ∧ adapter_io t = []
    ∧ (is_connected Scene.moving.1 = true →
       t = [Print ("move to position: " +:+ "rest");
            Print "already moving, please wait"]).
Proof.
  apply (busy_call_rejected Scene.no_driver Scene.moving "rest" None).
  reflexivity.
Defined.

Import Stage StageSpec.

(** C7. The eight stage names form the closed set.  After any history of
    calls on a fresh controller (which starts in the rest stage) the
    current stage is in the set; a [change_stage] call with a name outside
    the set returns [False] and leaves the whole state (current and
    previous stage, stage data, idle timer) as it was, with a console line
    as its only effect; and a [change_stage] call that returns [True]
    leaves a current stage that is in the set. *)
Theorem stage_stays_in_closed_set {Any} (history : list (Call Any)) :
  valid_stages =
    ["rest"; "primary_interaction"; "menu_detail"; "object_recognition";
     "smart_control"; "tracking_mode"; "game_mode"; "keyboard_input"]
  ∧ let s := after history in
    current_stage s ∈ valid_stages
    ∧ (∀ new_stage kwargs, new_stage ∉ valid_stages →
         change_stage new_stage kwargs s =
         (Ok false, s, [Print ("invalid stage name: " +:+ new_stage)]))
    ∧ (∀ new_stage kwargs s' t,
         change_stage new_stage kwargs s = (Ok true, s', t) →
         current_stage s' ∈ valid_stages).
Proof.
  split; [reflexivity|]. intros s.
  destruct (StageFacts.after_valid history) as [Hcur Hprev]. fold s in Hcur.
  assert (∀ x, _is_valid_stage x = true ↔ x ∈ valid_stages) as Hmem.
  { intros x. unfold _is_valid_stage. apply bool_decide_eq_true. }
  split; [by apply Hmem|]. split.
  - intros new_stage kwargs Hout.
    apply StageFacts.change_stage_invalid.
    + intros ->. apply Hout. by apply Hmem.
    + destruct (_is_valid_stage new_stage) eqn:Hv; [|done].
      destruct Hout. by apply Hmem.
  - intros new_stage kwargs s' t Hrun.
    destruct (StageFacts.change_stage_state s new_stage kwargs)
      as (b & t' & Heq).
    rewrite Heq in Hrun. injection Hrun as _ <- _.
    destruct (StageFacts.changed_valid new_stage kwargs s) as [Hnew _].
    { split; [exact Hcur|exact Hprev]. }
    by apply Hmem.
Qed.

Lemma stage_stays_in_closed_set_witness :
  let s := after (Any:=unit) [CStart; CChangeStage "game_mode" ∅] in
  change_stage "lobby" ∅ s = (Ok false, s, [Print "invalid stage name: lobby"]).
Proof.
  intros s.
  apply (proj1 (proj2 (proj2 (stage_stays_in_closed_set
    (Any:=unit) [CStart; CChangeStage "game_mode" ∅]))) "lobby" ∅).
  intros H. apply (bool_decide_eq_true_2 _) in H. discriminate H.
Defined.

(** C8. For every state and every keyword data, [change_stage] to the
    current stage returns [True], leaves the state as it was (so the
    current and previous stage are unchanged), and does nothing but print
    one console line: no enter or exit hook runs, no [stage_changed],
    [stage_entered] or [stage_exited] signal is emitted, and the timer is
    not touched. *)
Theorem change_stage_to_current_is_noop {Any} (s : State Any)
    (kwargs : gmap string Any) :
  change_stage (current_stage s) kwargs s =
  (Ok true, s, [Print ("already in stage: " +:+ current_stage s)]).
Proof. apply StageFacts.change_stage_same. Qed.

(** C9, as the code has it.  Let [s] be the state after any history of
    calls on a fresh controller.  [start()] and [on_user_activity()] keep
    the stage and reset the timer: they stop it in the rest stage and
    start it with 30000 ms in any other.  A [change_stage] to another
    stage of the closed set returns [True], lands there and resets the
    timer in the same way, so that a change to the rest stage stops it
    and a change to another stage arms it with 30000 ms.  A
    [change_stage] to the current stage returns [True] and touches
    nothing, the timer included.  [change_stage("rest")] always returns
    [True] and leaves the rest stage with the timer stopped.  An armed
    timer always has 30000 ms and the controller is then outside the rest
    stage; the converse, that outside the rest stage the timer is armed,
    holds when the controller has not been shut down with [stop()], or
    has since been started again or seen user activity.  When the armed
    timer expires the controller goes to the rest stage and stops the
    timer. *)
Theorem idle_timer_follows_stage {Any} (history : list (Call Any)) :
  let s := after history in
  (∃ s' t,
     start s = (Ok true, s', t)
     ∧ current_stage s' = current_stage s
     ∧ idle_timer s' = default_armed (current_stage s)
     ∧ timer_calls t = [default_timer_call (current_stage s)])
  ∧ (∃ s',
       on_user_activity s
         = (Ok tt, s', [Timer (default_timer_call (current_stage s))])
       ∧ current_stage s' = current_stage s
       ∧ idle_timer s' = default_armed (current_stage s))
  ∧ (∀ new_stage kwargs,
       new_stage ∈ valid_stages → new_stage ≠ current_stage s →
       ∃ s' t,
         change_stage new_stage kwargs s = (Ok true, s', t)
         ∧ current_stage s' = new_stage
         ∧ idle_timer s' = default_armed new_stage
         ∧ timer_calls t = [default_timer_call new_stage])
  ∧ (∀ kwargs, ∃ t,
       change_stage (current_stage s) kwargs s = (Ok true, s, t)
       ∧ timer_calls t = [])
  ∧ (∀ kwargs, ∃ s' t,
       change_stage "rest" kwargs s = (Ok true, s', t)
       ∧ current_stage s' = "rest" ∧ idle_timer s' = None)
  ∧ (∀ msec, idle_timer s = Some msec →
       msec = 30000%Z ∧ current_stage s ≠ "rest")
  ∧ (settled history →
     (is_Some (idle_timer s) ↔ current_stage s ≠ "rest"))
  ∧ (is_Some (idle_timer s) →
     ∃ s' t,
       timer_expires s = (Ok tt, s', t)
       ∧ current_stage s' = "rest" ∧ idle_timer s' = None
       ∧ timer_calls t = [TimerStop]).
Proof.
  intros s.
  destruct (StageFacts.after_sound history) as [Hdur Harmed].
  fold s in Hdur, Harmed.
  assert (armed_for s = default_armed (current_stage s)) as Harm
    by (unfold armed_for, default_armed; by rewrite Hdur).
  assert (timer_call_for s = default_timer_call (current_stage s)) as Hcall
    by (unfold timer_call_for, default_timer_call; by rewrite Hdur).
  assert (∀ new_stage kwargs,
    new_stage ∈ valid_stages → new_stage ≠ current_stage s →
    ∃ s' t,
      change_stage new_stage kwargs s = (Ok true, s', t)
      ∧ current_stage s' = new_stage
      ∧ idle_timer s' = default_armed new_stage
      ∧ timer_calls t = [default_timer_call new_stage]) as Hmove.
  { intros new_stage kwargs Hin Hne.
    assert (_is_valid_stage new_stage = true) as Hv
      by (by apply bool_decide_eq_true).
    rewrite StageFacts.change_stage_moves by done.
    eexists _, _. split; [reflexivity|]. split; [done|]. split.
    - simpl. unfold armed_for, default_armed. simpl.
      destruct (negb (bool_decide (kwargs = ∅))); simpl; by rewrite Hdur.
    - rewrite StageFacts.move_trace_timer_calls.
      unfold timer_call_for, default_timer_call. simpl. by rewrite Hdur. }
  split; [|split; [|split; [exact Hmove|split; [|split; [|split;
    [exact Harmed|split]]]]]].
  - destruct (StageFacts.start_run s) as (t & -> & Ht).
    eexists _, _. split; [reflexivity|]. split; [done|].
    split; [exact Harm|]. by rewrite Ht, Hcall.
  - unfold on_user_activity. rewrite StageFacts.reset_idle_timer_eq.
    eexists. rewrite Hcall. split; [reflexivity|]. split; [done|].
    exact Harm.
  - intros kwargs. rewrite StageFacts.change_stage_same.
    eexists. split; [reflexivity|]. done.
  - intros kwargs.
    destruct (decide (REST = current_stage s)) as [Heq|Hne].
    + pose proof (StageFacts.change_stage_same s kwargs) as Hsame.
      rewrite <- Heq in Hsame.
      eexists _, _. split; [exact Hsame|]. split; [done|].
      destruct (idle_timer s) as [msec|] eqn:Ht; [|done].
      by destruct (Harmed msec eq_refl) as [_ Hnr].
    + destruct (Hmove REST kwargs) as (s' & t & Hrun & Hc & Hi & _);
        [apply elem_of_cons; by left|done|].
      exists s', t. split; [exact Hrun|]. done.
  - intros Hsettled.
    by apply StageFacts.consistent_armed_iff, StageFacts.after_settled.
  - intros [msec Ht]. destruct (Harmed msec Ht) as [_ Hnr].
    unfold timer_expires, _on_idle_timeout, go_to_rest. py_unfold.
    rewrite Ht.
    destruct (Hmove REST ∅) as (s' & t & Hrun & Hc & Hi & Hcalls);
      [apply elem_of_cons; by left|done|].
    rewrite Hrun. cbv beta iota.
    eexists _, _. split; [reflexivity|]. split; [done|]. split; [done|].
    by rewrite !StageFacts.timer_calls_app, Hcalls.
Qed.

Lemma idle_timer_follows_stage_witness :
  let s := after (Any:=unit)
    [CStart; CChangeStage "game_mode" ∅; CStop; CStart] in
  current_stage s = "game_mode" ∧ idle_timer s = Some 30000%Z
  ∧ (is_Some (idle_timer s) ↔ current_stage s ≠ "rest").
Proof.
  intros s. split; [reflexivity|]. split; [reflexivity|].
  apply (idle_timer_follows_stage (Any:=unit)
    [CStart; CChangeStage "game_mode" ∅; CStop; CStart]).
  exists [CStart; CChangeStage "game_mode" ∅; CStop; CStart], [].
  split; [reflexivity|]. split; [constructor|].
  right. exists CStart. split; reflexivity.
Defined.

(** C9, as stated, fails: [stop()] stops the timer in whatever stage,
    and a [change_stage] to the stage the controller is in returns
    [True] without touching the timer.  After [start()],
    [change_stage("game_mode")], [stop()], the call
    [change_stage("game_mode")] returns [True] and the timer is stopped
    outside the rest stage. *)
Lemma change_stage_after_stop_leaves_timer_off :
  ¬ (∀ (history : list (Call unit)) new_stage kwargs s' t,
       change_stage new_stage kwargs (after history) = (Ok true, s', t) →
       (is_Some (idle_timer s') ↔ current_stage s' ≠ "rest")).
Proof.
  intros Hclaim.
  set (history := [CStart; CChangeStage "game_mode" ∅; CStop]
                  : list (Call unit)).
  pose proof (StageFacts.change_stage_same (after history) ∅) as Hrun.
  change (current_stage (after history)) with "game_mode" in Hrun.
  apply Hclaim in Hrun as [_ Harmed].
  destruct Harmed as [msec Hm]; [done|]. discriminate Hm.
Qed.

(** C2, as the code has it.  The clamp computes in [float32].  For a
    bound [M >= 0] it returns a position [r] over the joints of the goal.
    For a joint [J] that the goal and the present position share, [r[J]]
    is the [float32] sum of [present[J]] and a step of magnitude at most
    [float32(M)]; the step is the [float32] difference
    [goal[J] - present[J]] when that is within the bound, and then [r[J]]
    is [goal[J]] provided the difference was computed without rounding
    and the goal is a [float32].  A joint that only the goal has is
    passed through.  The warning is logged for exactly the joints whose
    goal and result are not close in the sense of [torch.allclose], so a
    joint bounded by less than that tolerance is not flagged.  Clamping
    is never an error: a write on the connected mock adapter with a bound
    configured returns [True]. *)
Theorem relative_clamp_bounds_the_step (goal present : Position) (M : Qc) :
  0 ≤ M →
  let r := Clamp.safe_position goal present M in
  dom r = dom goal
  ∧ (∀ J g p, goal !! J = Some g → present !! J = Some p →
       ∃ step, r !! J = Some (Float32.add p step)
         ∧ Qcabs step ≤ Float32.rnd M
         ∧ (Qcabs (Float32.sub g p) ≤ Float32.rnd M →
            step = Float32.sub g p))
  ∧ (∀ J g, goal !! J = Some g → present !! J = None → r !! J = Some g)
  ∧ ((∀ J g p, goal !! J = Some g → present !! J = Some p →
        Qcabs (g - p) ≤ Float32.rnd M
        ∧ Float32.rnd (g - p) = g - p ∧ Float32.rnd g = g) → r = goal)
  ∧ (∀ J, is_Some (Clamp.warned_joints goal present M !! J) ↔
       ∃ g p rj, goal !! J = Some g ∧ present !! J = Some p
         ∧ r !! J = Some rj ∧ Clamp.allclose g rj = false)
  ∧ (∀ Dev (drv : Driver Dev) (robot : Manipulator.Robot) (d : Dev)
       arm motors others,
       Manipulator.is_connected robot = true →
       Manipulator.mock_mode robot = true →
       Manipulator.follower_arms_cfg (Manipulator.config robot)
         = (arm, motors) :: others →
       Manipulator.max_relative_target (Manipulator.config robot) = Some M →
       (Manipulator.write_position drv goal (robot, d)).1.1 = Ok true).
Proof.
  intros HM r. subst r. repeat split.
  - apply set_eq. intros J. rewrite !elem_of_dom.
    rewrite ClampFacts.safe_position_lookup.
    destruct (goal !! J); simpl; split; intros [? ?]; eauto; done.
  - intros J g p Hg Hp. rewrite ClampFacts.safe_position_lookup, Hg. simpl.
    unfold Clamp.safe_joint. rewrite Hp.
    destruct (ClampFacts.ensure_safe_goal_position_step g p M HM)
      as (step & -> & Hstep). eauto.
  - intros J g Hg Hp. rewrite ClampFacts.safe_position_lookup, Hg. simpl.
    unfold Clamp.safe_joint. by rewrite Hp.
  - intros Hall. apply map_eq. intros J.
    rewrite ClampFacts.safe_position_lookup.
    destruct (goal !! J) as [g|] eqn:Hg; [|done]. simpl. f_equal.
    unfold Clamp.safe_joint. destruct (present !! J) as [p|] eqn:Hp; [|done].
    destruct (Hall J g p Hg Hp) as (H1 & H2 & H3).
    by apply ClampFacts.ensure_safe_goal_position_id.
  - rewrite ClampFacts.warned_joints_lookup. intros (g & Hg & Hw).
    unfold Clamp.safe_joint in Hw.
    destruct (present !! J) as [p|] eqn:Hp; [|done].
    exists g, p, (Clamp.ensure_safe_goal_position g p M).1.
    split; [done|]. split; [done|]. split.
    + rewrite ClampFacts.safe_position_lookup, Hg. simpl.
      unfold Clamp.safe_joint. by rewrite Hp.
    + by apply ClampFacts.ensure_safe_goal_position_warns.
  - intros (g & p & rj & Hg & Hp & Hr & Hfar).
    apply ClampFacts.warned_joints_lookup. exists g. split; [done|].
    unfold Clamp.safe_joint. rewrite Hp.
    apply ClampFacts.ensure_safe_goal_position_warns.
    rewrite ClampFacts.safe_position_lookup, Hg in Hr. simpl in Hr.
    unfold Clamp.safe_joint in Hr. rewrite Hp in Hr.
    injection Hr as <-. exact Hfar.
  - intros Dev drv robot d arm motors others Hc Hm Hcfg Hb.
    destruct (ManipulatorFacts.write_position_mock_clamped drv robot d arm
      motors others M goal Hc Hm Hcfg Hb) as (t & ->). done.
Qed.

Lemma relative_clamp_witness :
  let r := Clamp.safe_position Scene.near_goal Scene.near_present
             (Num.of_Z 64) in
  ∃ step, r !! "shoulder_pan" = Some (Float32.add (Num.of_Z 1024) step)
    ∧ Qcabs step ≤ Float32.rnd (Num.of_Z 64)
    ∧ (Qcabs (Float32.sub (Num.frac 139265 128) (Num.of_Z 1024))
         ≤ Float32.rnd (Num.of_Z 64) →
       step = Float32.sub (Num.frac 139265 128) (Num.of_Z 1024)).
Proof.
  assert (0 ≤ Num.of_Z 64) as HM by (by apply NumFacts.leb_le).
  apply (proj1 (proj2 (relative_clamp_bounds_the_step Scene.near_goal
    Scene.near_present (Num.of_Z 64) HM)) "shoulder_pan"
    (Num.frac 139265 128) (Num.of_Z 1024)); reflexivity.
Defined.

(** C2, as stated, fails in four places.  With present [1024], bound
    [64] and goal [1088.0078125] the joint is bounded (the result is
    [1088], not the goal) and yet no warning is logged, because the two
    are within the tolerance of [torch.allclose].  The sum of the present
    position and the step is rounded to [float32]: with present [500],
    goal [2048] and bound [0.1] the result is [500.100006103515625], a
    step of more than the bound.  The difference is rounded as well: with
    present [1000], bound [4096] and the [float32] nearest to [0.1] as
    goal, the difference is within the bound and the result is
    [0.0999755859375], not the goal.  And the bound has to be
    non-negative: with present [0], goal [0] and bound [-1] the result is
    [1]. *)
Lemma clamp_small_excess_not_flagged :
  ¬ (∀ (goal present : Position) (M : Qc) J g rj,
       0 ≤ M → goal !! J = Some g →
       Clamp.safe_position goal present M !! J = Some rj → rj ≠ g →
       is_Some (Clamp.warned_joints goal present M !! J))
  ∧ ¬ (∀ (goal present : Position) (M : Qc) J g p rj,
         0 ≤ M → goal !! J = Some g → present !! J = Some p →
         Clamp.safe_position goal present M !! J = Some rj →
         Qcabs (rj - p) ≤ M)
  ∧ ¬ (∀ (goal present : Position) (M : Qc),
         0 ≤ M →
         (∀ J g p, goal !! J = Some g → present !! J = Some p →
            Qcabs (g - p) ≤ M) →
         Clamp.safe_position goal present M = goal)
  ∧ ¬ (∀ (goal present : Position) (M : Qc) J g p rj,
         goal !! J = Some g → present !! J = Some p →
         Clamp.safe_position goal present M !! J = Some rj →
         Qcabs (rj - p) ≤ M).
Proof.
  split; [|split; [|split]].
  - intros Hclaim.
    assert (is_Some (Clamp.warned_joints Scene.near_goal Scene.near_present
                       (Num.of_Z 64) !! "shoulder_pan")) as Hx.
    { apply (Hclaim Scene.near_goal Scene.near_present (Num.of_Z 64)
        "shoulder_pan" (Num.frac 139265 128) (Num.of_Z 1088)).
      - by apply NumFacts.leb_le.
      - reflexivity.
      - rewrite ClampFacts.safe_position_lookup. compute_done.
      - intros H. apply (f_equal this) in H. discriminate H. }
    apply ClampFacts.warned_joints_lookup in Hx as (g & Hg & Hw).
    apply (inj Some) in Hg. subst g. vm_compute in Hw. discriminate Hw.
  - intros Hclaim.
    assert (Qcabs (Num.frac 16387277 32768 - Num.of_Z 500)
              ≤ Num.frac 1 10) as Hle.
    { apply (Hclaim {["shoulder_pan" := Num.of_Z 2048]}
        {["shoulder_pan" := Num.of_Z 500]} (Num.frac 1 10) "shoulder_pan"
        (Num.of_Z 2048) (Num.of_Z 500)).
      - by apply NumFacts.leb_le.
      - reflexivity.
      - reflexivity.
      - rewrite ClampFacts.safe_position_lookup. compute_done. }
    apply NumFacts.leb_le in Hle. vm_compute in Hle. discriminate Hle.
  - intros Hclaim.
    assert (Clamp.safe_position
              {["shoulder_pan" := Num.frac 13421773 134217728]}
              {["shoulder_pan" := Num.of_Z 1000]} (Num.of_Z 4096)
            = {["shoulder_pan" := Num.frac 13421773 134217728]}) as Heq.
    { apply Hclaim.
      - by apply NumFacts.leb_le.
      - intros J g p Hg Hp.
        destruct (decide (J = "shoulder_pan")) as [->|Hne].
        + rewrite lookup_singleton_eq in Hg, Hp.
          injection Hg as <-. injection Hp as <-.
          by apply NumFacts.leb_le.
        + by rewrite lookup_singleton_ne in Hg. }
    apply (f_equal (λ m : Position, m !! "shoulder_pan")) in Heq.
    rewrite ClampFacts.safe_position_lookup in Heq.
    assert (Num.frac 819 8192 = Num.frac 13421773 134217728) as Hbad.
    { apply (inj Some). etrans; [|exact Heq]. compute_done. }
    apply (f_equal this) in Hbad. discriminate Hbad.
  - intros Hclaim.
    assert (Qcabs (Num.of_Z 1 - Num.of_Z 0) ≤ Num.of_Z (-1)) as Hle.
    { apply (Hclaim {["shoulder_pan" := Num.of_Z 0]}
        {["shoulder_pan" := Num.of_Z 0]} (Num.of_Z (-1)) "shoulder_pan"
        (Num.of_Z 0) (Num.of_Z 0) (Num.of_Z 1)).
      - reflexivity.
      - reflexivity.
      - rewrite ClampFacts.safe_position_lookup. compute_done. }
    apply NumFacts.leb_le in Hle. vm_compute in Hle. discriminate Hle.
Qed.




(** C5, as the code has it.  When the real adapter cannot be used
    because its driver is missing (the import fails), the robot object
    catches the [ImportError] and switches itself to mock mode, and
    [connect()] returns [True]: the interface is connected, [is_mock()] is
    true afterwards, and the "connected" status signal is the only signal
    emitted. *)
Theorem connect_falls_back_when_driver_is_missing {Dev} (drv : Driver Dev)
    cfg presets (d : Dev) :
  drv_import drv = Some ImportError →
  ∃ s' robot t,
    connect drv (Interface.init cfg true presets, d) = (Ok true, (s', d), t)
    ∧ is_connected s' = true
    ∧ lerobot_robot s' = Some robot
    ∧ (Manipulator.is_mock (robot, d)).1.1 = Ok true
    ∧ signals t = [Emit (status_changed "connected")].
Proof.
  intros Himp.
  destruct (ManipulatorFacts.connect_missing_driver drv
    create_projecto_follower_only_config d eq_refl Himp)
    as (robot & t & Hconn & Hc & Hm & Hsig).
  destruct (ConnectFacts.connect_lerobot_step drv
    (Interface.init cfg true presets) d
    true robot d t eq_refl eq_refl Hconn) as (s' & t' & Heq & Hc' & Hr & _ & Hsig').
  exists s', robot, t'. split; [exact Heq|]. split; [exact Hc'|].
  split; [exact Hr|]. split.
  - unfold Manipulator.is_mock, Py.gets. simpl. by rewrite Hm.
  - rewrite Hsig', Hsig. done.
Qed.

Lemma connect_falls_back_witness :
  ∃ s' robot t,
    connect Scene.no_driver Scene.fresh = (Ok true, (s', tt), t)
    ∧ is_connected s' = true
    ∧ lerobot_robot s' = Some robot
    ∧ (Manipulator.is_mock (robot, tt)).1.1 = Ok true
    ∧ signals t = [Emit (status_changed "connected")].
Proof.
  apply (connect_falls_back_when_driver_is_missing Scene.no_driver
    Scene.default_config Scene.presets tt).
  reflexivity.
Defined.

(** C5, as stated, fails: on a machine with the driver installed whose
    motor bus cannot be opened the real adapter fails to connect, and
    [connect()] returns [False] with the interface still disconnected. *)
Lemma connect_fails_on_dead_bus :
  ¬ (∀ Dev (drv : Driver Dev) cfg presets (d : Dev),
       drv_import drv ≠ None ∨ drv_make_motors_buses drv ≠ None →
       ∃ s' d' t,
         connect drv (Interface.init cfg true presets, d)
           = (Ok true, (s', d'), t)
         ∧ is_connected s' = true).
Proof.
  intros Hclaim.
  destruct (Hclaim unit Scene.dead_bus Scene.default_config Scene.presets tt)
    as (s' & d' & t & Hrun & _).
  - right. discriminate.
  - destruct (ConnectFacts.connect_gives_up_on_bus_failure Scene.dead_bus
      Scene.default_config Scene.presets tt DeviceError)
      as (s'' & robot & t'' & Hfail & _); [done..|].
    change Scene.fresh with
      (Interface.init Scene.default_config true Scene.presets, tt) in *.
    rewrite Hfail in Hrun. discriminate Hrun.
Qed.

(** C6, as the code has it.  [move_to_position] never raises.  A call
    that is turned down before the movement starts (not connected, busy,
    unknown preset or unsafe position) returns [False] and is quiet: the
    state is unchanged, the adapter is not called and no signal is
    emitted, the reason being printed on the console only.  A call that
    returns [False] went one of three ways.  It was turned down in that
    manner.  Or the integration package could not be imported and the
    preset exists: then the safety check is an unbound name, the call
    leaves the moving flag cleared and the target empty, does not call the
    adapter, and [error_occurred] is its only signal.  Or the movement had
    started: then the call leaves the moving flag cleared and the target
    empty, and its signals begin with [movement_started] and end with
    [movement_completed]. *)
Theorem failed_move_outcome {Dev} (drv : Driver Dev) (w : World Dev)
    position_name duration :
  (∃ b w' t, move_to_position drv position_name duration w = (Ok b, w', t))
  ∧ (Rejection w.1 position_name →
     turned_down w (move_to_position drv position_name duration w))
  ∧ (∀ w' t,
       move_to_position drv position_name duration w = (Ok false, w', t) →
       (Rejection w.1 position_name
        ∧ w' = w ∧ signals t = [] ∧ adapter_io t = [])
       ∨ (lerobot_available w.1 = false
          ∧ is_connected w.1 = true ∧ is_moving w.1 = false
          ∧ is_Some (saved_positions w.1 !! position_name)
          ∧ is_moving w'.1 = false ∧ target_position w'.1 = None
          ∧ signals t = [Emit (error_occurred "move" NameError)]
          ∧ adapter_io t = [])
       ∨ (lerobot_available w.1 = true
          ∧ is_moving w'.1 = false ∧ target_position w'.1 = None
          ∧ hd_error (signals t)
              = Some (Emit (movement_started position_name))
          ∧ last (signals t)
              = Some (Emit (movement_completed position_name)))).
Proof.
  split; [apply InterfaceFacts.move_to_position_total|].
  split; [apply InterfaceFacts.move_rejected|].
  intros w' t Hrun.
  assert (Rejection w.1 position_name →
    Rejection w.1 position_name
    ∧ w' = w ∧ signals t = [] ∧ adapter_io t = []) as Hrej.
  { intros HR. split; [exact HR|].
    destruct (InterfaceFacts.move_rejected drv w position_name duration HR)
      as (_ & Hw & Hsig & Hio).
    rewrite Hrun in Hw, Hsig, Hio. done. }
  destruct (is_connected w.1) eqn:Hc; [|left; apply Hrej; by apply NotConnected].
  destruct (is_moving w.1) eqn:Hm; [left; apply Hrej; by apply Busy|].
  destruct (saved_positions w.1 !! position_name) as [target|] eqn:Hs;
    [|left; apply Hrej; by apply UnknownPreset].
  destruct (lerobot_available w.1) eqn:Ha.
  - destruct (RobotUtils.check_position_safety target (joint_limits w.1))
      eqn:Hu; [|left; apply Hrej; by eapply UnsafePosition].
    right. right.
    destruct (InterfaceFacts.move_started drv w position_name duration target
      Hc Hm Hs Ha Hu) as (b & w'' & t'' & Heq & Hmov & Htgt & _ & Hhd & Hlast).
    rewrite Heq in Hrun. injection Hrun as -> -> ->. done.
  - right. left.
    rewrite (InterfaceFacts.move_name_error drv w position_name duration
      target Hc Hm Hs Ha) in Hrun.
    injection Hrun as <- <-. split; [done|]. split; [done|]. split; [done|].
    split; [eauto|]. done.
Qed.

Lemma failed_move_outcome_witness :
  (Rejection Scene.connected.1 "nowhere"
   ∧ Scene.connected = Scene.connected
   ∧ signals [Print "move to position: nowhere";
              Print "position not found: nowhere"] = []
   ∧ adapter_io [Print "move to position: nowhere";
                 Print "position not found: nowhere"] = [])
  ∨ (lerobot_available Scene.connected.1 = false
     ∧ is_connected Scene.connected.1 = true
     ∧ is_moving Scene.connected.1 = false
     ∧ is_Some (saved_positions Scene.connected.1 !! "nowhere")
     ∧ is_moving Scene.connected.1 = false
     ∧ target_position Scene.connected.1 = None
     ∧ signals [Print "move to position: nowhere";
                Print "position not found: nowhere"]
         = [Emit (error_occurred "move" NameError)]
     ∧ adapter_io [Print "move to position: nowhere";
                   Print "position not found: nowhere"] = [])
  ∨ (lerobot_available Scene.connected.1 = true
     ∧ is_moving Scene.connected.1 = false
     ∧ target_position Scene.connected.1 = None
     ∧ hd_error (signals [Print "move to position: nowhere";
                          Print "position not found: nowhere"])
         = Some (Emit (movement_started "nowhere"))
     ∧ last (signals [Print "move to position: nowhere";
                      Print "position not found: nowhere"])
         = Some (Emit (movement_completed "nowhere"))).
Proof.
  apply (proj2 (proj2 (failed_move_outcome Scene.no_driver Scene.connected
    "nowhere" None)) Scene.connected).
  reflexivity.
Defined.

(** C6, as stated, fails: a call for a preset that does not exist
    returns [False] and emits no signal at all. *)
Lemma unknown_preset_fails_without_event :
  ¬ (∀ Dev (drv : Driver Dev) (w w' : World Dev) position_name duration t,
       move_to_position drv position_name duration w = (Ok false, w', t) →
       signals t ≠ []).
Proof.
  intros Hclaim.
  apply (Hclaim unit Scene.no_driver Scene.connected Scene.connected
    "nowhere" None
    [Print "move to position: nowhere"; Print "position not found: nowhere"]);
    reflexivity.
Qed.

(** C10. With [steps = 0] the first fraction [0 / 0] raises
    [ZeroDivisionError], so [interpolate_positions] returns no path, while
    with [steps >= 1] it returns [steps + 1] waypoints.  The interface gets
    there: for a duration [d] with [0 < d < 0.1] the step count
    [int(d * 10)] is [0], and a [move_to_position] call with such a
    duration on a connected interface with a connected robot, for a known
    and safe preset, returns [False] with the smooth move reported as
    failed and without a single write. *)
Theorem zero_steps_divide_by_zero :
  (∀ start_pos end_pos,
     RobotUtils.interpolate_positions start_pos end_pos 0
       = Raise ZeroDivisionError)
  ∧ (∀ start_pos end_pos N, (1 ≤ N)%Z →
       ∃ waypoints,
         RobotUtils.interpolate_positions start_pos end_pos N = Ok waypoints
         ∧ length waypoints = (Z.to_nat N + 1)%nat)
  ∧ (∀ d : Qc, 0 < d → d < Num.frac 1 10 →
       Num.py_int (d * Num.of_Z 10) = 0%Z)
  ∧ (∀ Dev (drv : Driver Dev) (w : World Dev) position_name (d : Qc)
       target robot,
       is_connected w.1 = true → is_moving w.1 = false →
       saved_positions w.1 !! position_name = Some target →
       RobotUtils.check_position_safety target (joint_limits w.1) = true →
       lerobot_robot w.1 = Some robot → use_lerobot w.1 = true →
       Manipulator.is_connected robot = true →
       0 < d → d < Num.frac 1 10 →
       ∃ w' t,
         move_to_position drv position_name (Some d) w = (Ok false, w', t)
         ∧ writes t = [] ∧ Print "smooth move failed" ∈ t).
Proof.
  split; [apply InterpolateFacts.interpolate_positions_zero|].
  split; [|split].
  - intros start_pos end_pos N HN. eexists. split.
    + by apply InterpolateFacts.interpolate_positions_ok.
    + rewrite length_fmap, InterpolateFacts.py_range_length. lia.
  - apply NumFacts.py_int_short_duration.
  - intros Dev drv. apply ShortMoveFacts.move_with_short_duration.
Qed.

Lemma zero_steps_witness :
  ∃ w' t,
    move_to_position Scene.no_driver "rest" (Some (Num.frac 1 20))
      Scene.connected = (Ok false, w', t)
    ∧ writes t = [] ∧ Print "smooth move failed" ∈ t.
Proof.
  apply (proj2 (proj2 (proj2 zero_steps_divide_by_zero)) unit
    Scene.no_driver Scene.connected "rest" (Num.frac 1 20)
    (RobotUtils.pose 0 (-1024) 1024 0 0) Scene.mock_robot);
    reflexivity.
Defined.

(** * More of the code *)

(** ** The stage machine: transitions, history and data bags *)

Module StageMore.
Import Stage StageSpec.

Section WithAny.
Context {Any : Type}.
Implicit Types (s : State Any) (stage : string).

Lemma valid_stage_nonempty stage : _is_valid_stage stage = true → stage ≠ "".
Proof.
  intros Hv ->. discriminate Hv.
Qed.

(** Over every history the previous stage, when there is one, is another
    stage than the current one. *)
Lemma changed_previous new_stage kwargs s :
  previous_stage s ≠ Some (current_stage s) →
  previous_stage (changed new_stage kwargs s)
    ≠ Some (current_stage (changed new_stage kwargs s)).
Proof.
  intros Hs. unfold changed. case_bool_decide as Hsame; [done|].
  destruct (_is_valid_stage new_stage); [|done].
  simpl. intros [= Heq]. by apply Hsame.
Qed.

Lemma next_previous (c : Call Any) s :
  previous_stage s ≠ Some (current_stage s) →
  previous_stage (next c s) ≠ Some (current_stage (next c s)).
Proof.
  intros Hs. destruct c; simpl; try done; try (by apply changed_previous).
  - destruct (idle_timer s); [by apply changed_previous|done].
  - by destruct (stage_data s !! target_stage stage s).
Qed.

Lemma after_previous (history : list (Call Any)) :
  previous_stage (after history) ≠ Some (current_stage (after history)).
Proof.
  induction history as [|c history IH] using rev_ind.
  - done.
  - rewrite StageFacts.after_snoc. by apply next_previous.
Qed.

(** A transition tells its listeners in a fixed order: the old stage is
    left, the new one entered, then the change is announced; the hooks of
    the two stages run in that order too. *)
Theorem transition_event_order s new_stage kwargs :
  _is_valid_stage (current_stage s) = true →
  _is_valid_stage new_stage = true →
  new_stage ≠ current_stage s →
  ∃ s' t,
    change_stage new_stage kwargs s = (Ok true, s', t)
    ∧ current_stage s' = new_stage
    ∧ previous_stage s' = Some (current_stage s)
    ∧ signals t =
        [Emit (stage_exited (current_stage s));
         Emit (stage_entered new_stage);
         Emit (stage_changed (current_stage s) new_stage)]
    ∧ List.filter (λ o, match o with Hook _ => true | _ => false end) t =
        [Hook (Exit (current_stage s)); Hook (Enter new_stage)].
Proof.
  intros Hcur Hnew Hne.
  rewrite StageFacts.change_stage_moves by done.
  eexists _, _. split; [reflexivity|]. split; [done|]. split; [done|].
  unfold move_trace, exit_trace, enter_trace, hook_trace.
  rewrite Hcur, Hnew. simpl. done.
Qed.

(** [go_back] on a controller with any history succeeds and lands on the
    previous stage, or on the rest stage when there is none. *)
Theorem go_back_lands_on_previous (history : list (Call Any)) :
  let s := after history in
  ∃ s' t, go_back s = (Ok true, s', t)
    ∧ current_stage s' = default REST (previous_stage s).
Proof.
  intros s. destruct (StageFacts.after_valid history) as [Hcur Hprev].
  fold s in Hcur, Hprev.
  assert (∀ target, _is_valid_stage target = true →
    ∃ s' t, change_stage target ∅ s = (Ok true, s', t)
      ∧ current_stage s' = target) as Hgo.
  { intros target Hv. destruct (decide (target = current_stage s)) as [->|Hne].
    - rewrite StageFacts.change_stage_same. eauto.
    - rewrite StageFacts.change_stage_moves by done. eauto. }
  unfold go_back, Py.bind, Py.get.
  destruct (previous_stage s) as [p|] eqn:Hp; simpl.
  - rewrite bool_decide_eq_false_2
      by (apply valid_stage_nonempty; by apply Hprev).
    destruct (Hgo p) as (s' & t & -> & Hc); [by apply Hprev|]. eauto.
  - destruct (Hgo REST) as (s' & t & -> & Hc); [done|]. eauto.
Qed.

(** Going back twice returns to where one was: once a previous stage is
    recorded, two [go_back] calls restore both the current and the
    previous stage. *)
Theorem go_back_twice_restores (history : list (Call Any)) p :
  let s := after history in
  previous_stage s = Some p →
  ∃ s1 t1 s2 t2,
    go_back s = (Ok true, s1, t1) ∧ go_back s1 = (Ok true, s2, t2)
    ∧ current_stage s1 = p ∧ previous_stage s1 = Some (current_stage s)
    ∧ current_stage s2 = current_stage s ∧ previous_stage s2 = Some p.
Proof.
  intros s Hp. destruct (StageFacts.after_valid history) as [Hcur Hprev].
  fold s in Hcur, Hprev.
  pose proof (after_previous history) as Hne. fold s in Hne.
  assert (p ≠ current_stage s) as Hpc by (intros ->; by rewrite Hp in Hne).
  assert (_is_valid_stage p = true) as Hpv by (by apply Hprev).
  assert (go_back s = (Ok true, moved p ∅ s, move_trace p s)) as H1.
  { unfold go_back, Py.bind, Py.get. rewrite Hp.
    rewrite bool_decide_eq_false_2 by (by apply valid_stage_nonempty).
    rewrite StageFacts.change_stage_moves by done. reflexivity. }
  assert (go_back (moved p ∅ s) =
    (Ok true, moved (current_stage s) ∅ (moved p ∅ s),
     move_trace (current_stage s) (moved p ∅ s))) as H2.
  { unfold go_back, Py.bind, Py.get. simpl.
    rewrite bool_decide_eq_false_2 by (by apply valid_stage_nonempty).
    rewrite StageFacts.change_stage_moves; [reflexivity|simpl; congruence|done]. }
  eexists _, _, _, _. split; [exact H1|]. split; [exact H2|]. done.
Qed.

(** [set_stage_data] followed by [get_stage_data] on the same stage gives
    the value back; the other keys of that stage and the bags of the other
    stages are as before, and so is the rest of the state. *)
Theorem stage_data_round_trip s key (value : Any) (bag : option string) :
  ∃ s', set_stage_data key value bag s = (Ok tt, s', [])
    ∧ get_stage_data bag s' !! key = Some value
    ∧ (∀ key', key' ≠ key →
         get_stage_data bag s' !! key' = get_stage_data bag s !! key')
    ∧ (∀ other, other ≠ target_stage bag s →
         stage_data s' !! other = stage_data s !! other)
    ∧ current_stage s' = current_stage s
    ∧ previous_stage s' = previous_stage s
    ∧ idle_timer s' = idle_timer s.
Proof.
  eexists. split; [reflexivity|].
  unfold get_stage_data. simpl.
  assert (∀ m, target_stage bag (set_stage_data_map m s)
                 = target_stage bag s) as Htarget by done.
  rewrite !Htarget, lookup_insert_eq. simpl.
  split; [apply lookup_insert_eq|]. split.
  - intros key' Hk. by rewrite lookup_insert_ne.
  - split; [|done]. intros other Ho. by rewrite lookup_insert_ne.
Qed.

(** [clear_stage_data] leaves the stage with an empty bag and touches no
    other stage. *)
Theorem clear_stage_data_empties s (bag : option string) :
  ∃ s', clear_stage_data bag s = (Ok tt, s', [])
    ∧ get_stage_data bag s' = ∅
    ∧ (∀ other, other ≠ target_stage bag s →
         stage_data s' !! other = stage_data s !! other)
    ∧ current_stage s' = current_stage s.
Proof.
  eexists. split; [reflexivity|].
  unfold get_stage_data. simpl.
  destruct (stage_data s !! target_stage bag s) as [old|] eqn:Hbag; simpl.
  - assert (∀ m, target_stage bag (set_stage_data_map m s)
                   = target_stage bag s) as Htarget by done.
    rewrite Htarget, lookup_insert_eq. split; [done|]. split; [|done].
    intros other Ho. by rewrite lookup_insert_ne.
  - rewrite Hbag. done.
Qed.

(** Keyword data given to a transition replaces the bag of the stage
    entered; a transition without keyword data leaves that bag as it was
    when the stage was last left.  The bags of the other stages are kept
    either way. *)
Theorem transition_data s new_stage kwargs :
  _is_valid_stage new_stage = true → new_stage ≠ current_stage s →
  ∃ s' t,
    change_stage new_stage kwargs s = (Ok true, s', t)
    ∧ get_stage_data None s' =
        (if bool_decide (kwargs = ∅)
         then default ∅ (stage_data s !! new_stage) else kwargs)
    ∧ (∀ other, other ≠ new_stage →
         stage_data s' !! other = stage_data s !! other).
Proof.
  intros Hv Hne. rewrite StageFacts.change_stage_moves by done.
  eexists _, _. split; [reflexivity|].
  unfold get_stage_data, moved. simpl.
  destruct (bool_decide (kwargs = ∅)); simpl.
  - done.
  - rewrite lookup_insert_eq. split; [done|].
    intros other Ho. by rewrite lookup_insert_ne.
Qed.

(** [stop] stops the idle timer and leaves the current stage through its
    exit hook, without changing the stage the controller is in. *)
Theorem stop_leaves_stage (history : list (Call Any)) :
  let s := after history in
  ∃ s' t, stop s = (Ok tt, s', t)
    ∧ idle_timer s' = None
    ∧ current_stage s' = current_stage s
    ∧ previous_stage s' = previous_stage s
    ∧ signals t = [Emit (stage_exited (current_stage s))]
    ∧ Timer TimerStop ∈ t.
Proof.
  intros s. destruct (StageFacts.after_valid history) as [Hcur _].
  fold s in Hcur.
  unfold stop. py_unfold. cbn [current_stage set_idle_timer].
  rewrite bool_decide_eq_false_2 by (by apply valid_stage_nonempty).
  cbn [negb]. rewrite StageFacts.exit_stage_eq.
  eexists _, _. split; [reflexivity|]. simpl.
  split; [done|]. split; [done|]. split; [done|]. split.
  - unfold hook_trace. rewrite Hcur. done.
  - apply elem_of_cons; right. apply elem_of_cons; by left.
Qed.

End WithAny.
Lemma transition_event_order_witness :
  ∃ s' t,
    change_stage "game_mode" ∅ (init (Any:=unit)) = (Ok true, s', t)
    ∧ current_stage s' = "game_mode"
    ∧ previous_stage s' = Some (current_stage (init (Any:=unit)))
    ∧ signals t =
        [Emit (stage_exited (current_stage (init (Any:=unit))));
         Emit (stage_entered "game_mode");
         Emit (stage_changed (current_stage (init (Any:=unit))) "game_mode")]
    ∧ List.filter (λ o, match o with Hook _ => true | _ => false end) t =
        [Hook (Exit (current_stage (init (Any:=unit))));
         Hook (Enter "game_mode")].
Proof.
  apply (transition_event_order (Any:=unit) init "game_mode" ∅).
  - reflexivity.
  - reflexivity.
  - intros H. discriminate H.
Defined.

Lemma go_back_twice_restores_witness :
  let s := after (Any:=unit)
    [CStart; CChangeStage "menu_detail" ∅; CChangeStage "game_mode" ∅] in
  ∃ s1 t1 s2 t2,
    go_back s = (Ok true, s1, t1) ∧ go_back s1 = (Ok true, s2, t2)
    ∧ current_stage s1 = "menu_detail"
    ∧ previous_stage s1 = Some (current_stage s)
    ∧ current_stage s2 = current_stage s
    ∧ previous_stage s2 = Some "menu_detail".
Proof.
  apply (go_back_twice_restores (Any:=unit)
    [CStart; CChangeStage "menu_detail" ∅; CChangeStage "game_mode" ∅]
    "menu_detail").
  reflexivity.
Defined.

Lemma transition_data_witness :
  ∃ s' t,
    change_stage "game_mode" {["level" := 3%nat]} (init (Any:=nat))
      = (Ok true, s', t)
    ∧ get_stage_data None s' = {["level" := 3%nat]}
    ∧ (∀ other, other ≠ "game_mode" →
         stage_data s' !! other = stage_data (init (Any:=nat)) !! other).
Proof.
  destruct (transition_data (Any:=nat) init "game_mode" {["level" := 3%nat]})
    as (s' & t & Heq & Hget & Hother).
  - reflexivity.
  - intros H. discriminate H.
  - exists s', t. split; [exact Heq|]. split; [|exact Hother].
    rewrite Hget. rewrite bool_decide_eq_false_2; [reflexivity|].
    apply map_non_empty_singleton.
Defined.

End StageMore.

(** ** Interpolation and the joint limits *)

Module InterpolateMore.
Import RobotUtils.

(** The waypoints are not checked against the joint limits, and two
    positions that pass [check_position_safety] can have a waypoint that
    does not: with the range [[0, 0.9]], from [0.3] to [0.9] in one step
    the last waypoint is [0.3 + 1.0 * (0.9 - 0.3)], which in floats is
    [0.9000000000000001]. *)
Theorem interpolation_can_leave_the_limits :
  check_position_safety Scene.pan_0_3 Scene.below_0_9 = true
  ∧ check_position_safety Scene.pan_0_9 Scene.below_0_9 = true
  ∧ ∃ waypoints final,
      interpolate_positions Scene.pan_0_3 Scene.pan_0_9 1 = Ok waypoints
      ∧ last waypoints = Some final
      ∧ final !! "shoulder_pan"
          = Some (Num.frac 4053239664633447 4503599627370496)
      ∧ check_position_safety final Scene.below_0_9 = false.
Proof.
  assert (interpolate_positions Scene.pan_0_3 Scene.pan_0_9 1
    = Ok [Scene.pan_0_3;
          {["shoulder_pan" := Num.frac 4053239664633447 4503599627370496]}])
    as Hrun by compute_done.
  split; [vm_compute; reflexivity|]. split; [vm_compute; reflexivity|].
  eexists _, _. split; [exact Hrun|]. split; [reflexivity|].
  split; [by rewrite lookup_singleton_eq|]. vm_compute. reflexivity.
Qed.

(** The table only constrains the joints it lists: a position that passes
    keeps passing when joints are taken out of it or limits are taken out
    of the table. *)
Theorem safety_check_is_monotone (positions positions' : Position)
    (limits limits' : Limits) :
  positions' ⊆ positions → limits' ⊆ limits →
  check_position_safety positions limits = true →
  check_position_safety positions' limits' = true.
Proof.
  rewrite !SafetyFacts.check_position_safety_true.
  intros Hp Hl Hsafe joint pos lo hi Hj Hlim.
  apply (Hsafe joint pos lo hi).
  - by eapply lookup_weaken.
  - by eapply lookup_weaken.
Qed.

Lemma safety_check_is_monotone_witness :
  check_position_safety {["elbow_flex" := Num.of_Z 1024]} ∅ = true.
Proof.
  apply (safety_check_is_monotone (pose 0 (-1024) 1024 0 0)
    {["elbow_flex" := Num.of_Z 1024]} get_so101_joint_limits ∅).
  - apply map_subseteq_spec. intros j x Hj.
    apply lookup_singleton_Some in Hj as [<- <-]. reflexivity.
  - apply map_empty_subseteq.
  - reflexivity.
Defined.

End InterpolateMore.

(** ** [validate_robot_config] *)

Module ValidateFacts.
Import ValidateConfig.

Lemma arm_problems_nil no_port no_motors arm :
  arm_problems no_port no_motors arm = [] ↔ arm_complete arm.
Proof.
  unfold arm_problems, arm_complete.
  do 2 case_bool_decide; simpl; split; try done; tauto.
Qed.

Lemma bind_nil {A B} (f : A → list B) (l : list A) :
  l ≫= f = [] ↔ Forall (λ x, f x = []) l.
Proof.
  induction l as [|x l IH]; csimpl.
  - split; [constructor|done].
  - rewrite Forall_cons, <- IH. split.
    + intros H. by apply app_eq_nil in H.
    + intros [-> ->]. done.
Qed.

(** The configuration draws no message exactly when it has at least one
    arm and every arm, follower or leader, has a port and motors. *)
Theorem validation_passes_iff_complete (config : Config) :
  validate_robot_config config = [] ↔
  (follower_arms config ≠ [] ∨ leader_arms config ≠ [])
  ∧ Forall arm_complete (follower_arms config)
  ∧ Forall arm_complete (leader_arms config).
Proof.
  unfold validate_robot_config. split.
  - intros H. apply app_eq_nil in H as [Hnone H].
    apply app_eq_nil in H as [Hf Hl].
    split; [|split].
    + destruct (follower_arms config), (leader_arms config);
        try done; auto.
    + apply bind_nil in Hf. eapply Forall_impl; [exact Hf|].
      intros arm. apply arm_problems_nil.
    + apply bind_nil in Hl. eapply Forall_impl; [exact Hl|].
      intros arm. apply arm_problems_nil.
  - intros (Harm & Hf & Hl).
    assert (bool_decide (follower_arms config = [])
            && bool_decide (leader_arms config = []) = false) as ->.
    { destruct Harm as [H|H].
      - by rewrite (bool_decide_eq_false_2 _ H).
      - rewrite (bool_decide_eq_false_2 _ H). apply andb_false_r. }
    assert (follower_arms config
      ≫= arm_problems FollowerWithoutPort FollowerWithoutMotors = []) as ->.
    { apply bind_nil. eapply Forall_impl; [exact Hf|].
      intros arm. apply arm_problems_nil. }
    assert (leader_arms config
      ≫= arm_problems LeaderWithoutPort LeaderWithoutMotors = []) as ->.
    { apply bind_nil. eapply Forall_impl; [exact Hl|].
      intros arm. apply arm_problems_nil. }
    done.
Qed.

(** Every message names a real shortcoming: an arm that is listed as
    lacking a port has an empty port, and a configuration told to have no
    arm has none. *)
Theorem validation_messages_are_true (config : Config) arm_name :
  (NoArmAtAll ∈ validate_robot_config config →
     follower_arms config = [] ∧ leader_arms config = [])
  ∧ (FollowerWithoutPort arm_name ∈ validate_robot_config config →
     ∃ arm, (arm_name, arm) ∈ follower_arms config ∧ port arm = "")
  ∧ (FollowerWithoutMotors arm_name ∈ validate_robot_config config →
     ∃ arm, (arm_name, arm) ∈ follower_arms config ∧ motors arm = []).
Proof.
  unfold validate_robot_config.
  assert (∀ (p : Problem) np nm arms,
    p ∈ arms ≫= arm_problems np nm →
    ∃ arm, arm ∈ arms ∧
      ((p = np arm.1 ∧ port arm.2 = "") ∨ (p = nm arm.1 ∧ motors arm.2 = [])))
    as Hbind.
  { intros p np nm arms (arm & Hp & Harm)%list_elem_of_bind.
    exists arm. split; [done|]. unfold arm_problems in Hp.
    apply elem_of_app in Hp as [Hp|Hp]; case_bool_decide;
      try (by apply elem_of_nil in Hp);
      apply list_elem_of_singleton in Hp; auto. }
  assert (∀ p : Problem,
    p ∈ (if bool_decide (follower_arms config = [])
            && bool_decide (leader_arms config = [])
         then [NoArmAtAll] else []) →
    p = NoArmAtAll
    ∧ follower_arms config = [] ∧ leader_arms config = []) as Hnone.
  { intros p Hp.
    destruct (bool_decide (follower_arms config = [])) eqn:E1,
      (bool_decide (leader_arms config = [])) eqn:E2; simpl in Hp;
      try (by apply elem_of_nil in Hp).
    apply list_elem_of_singleton in Hp.
    apply bool_decide_eq_true in E1, E2. done. }
  split; [|split].
  - rewrite !elem_of_app. intros [H|[H|H]].
    + by apply Hnone in H as (_ & ? & ?).
    + apply Hbind in H as (arm & _ & [[? _]|[? _]]); done.
    + apply Hbind in H as (arm & _ & [[? _]|[? _]]); done.
  - rewrite !elem_of_app. intros [H|[H|H]].
    + by apply Hnone in H as (? & _).
    + apply Hbind in H as ([n arm] & Hin & [[[= <-] Hport]|[? _]]);
        [eauto|done].
    + apply Hbind in H as (arm & _ & [[? _]|[? _]]); done.
  - rewrite !elem_of_app. intros [H|[H|H]].
    + by apply Hnone in H as (? & _).
    + apply Hbind in H as ([n arm] & Hin & [[? _]|[[= <-] Hm]]);
        [done|eauto].
    + apply Hbind in H as (arm & _ & [[? _]|[? _]]); done.
Qed.

End ValidateFacts.

(** ** Reading traces *)

Module TraceFacts.
Import TraceSpec.

Lemma no_writes_no_adapter_writes (t : list Out) :
  writes t = [] → adapter_writes t = [].
Proof.
  unfold writes, adapter_writes.
  induction t as [|o t IH]; [done|]. simpl.
  destruct o as [| [|p] | [|p] | | | |]; simpl; try done.
Qed.

Lemma adapter_writes_app (t1 t2 : list Out) :
  adapter_writes (t1 ++ t2) = adapter_writes t1 ++ adapter_writes t2.
Proof. apply omap_app. Qed.

Lemma adapter_io_no_adapter_writes (t : list Out) :
  adapter_io t = [] → adapter_writes t = [].
Proof.
  unfold adapter_io, adapter_writes.
  induction t as [|o t IH]; [done|]. simpl.
  destruct o as [| [|p] | [|p] | | | |]; simpl; try done.
Qed.

End TraceFacts.

(** ** The adapter: connecting, reading, writing, disconnecting *)

Module ManipulatorMoreFacts.
Import Manipulator TraceSpec TraceFacts.

Section WithDriver.
Context {Dev : Type} (drv : Driver Dev)
  (drv_disconnect : list string → Dev → res unit * Dev).

(** The positions that the loop of [_connect_mock_devices] leaves. *)
Lemma mock_positions_loop_state (arms : list (string * list string))
    (r : Robot) (d : Dev) :
  Py.for_each arms (λ arm,
    update (Dev:=Dev) (λ r, set_mock_positions
      (<[arm.1 := zero_position arm.2]> (mock_positions r)) r))
    (r, d) =
  (Ok tt,
   (set_mock_positions
      (foldl (λ m arm, <[arm.1 := zero_position arm.2]> m)
         (mock_positions r) arms) r, d), []).
Proof.
  revert r. induction arms as [|arm arms IH]; intros r; simpl.
  - by destruct r.
  - unfold update at 1. py_unfold. simpl. rewrite IH. by destruct r.
Qed.

Lemma foldl_insert_lookup (arms : list (string * list string))
    (m : gmap string Position) arm :
  arm ∉ arms.*1 →
  foldl (λ m a, <[a.1 := zero_position a.2]> m) m arms !! arm = m !! arm.
Proof.
  revert m. induction arms as [|a arms IH]; intros m Hnot; simpl; [done|].
  rewrite fmap_cons, not_elem_of_cons in Hnot. destruct Hnot as [Hne Hnot].
  rewrite IH by done. by rewrite lookup_insert_ne.
Qed.

Lemma zero_position_lookup (motors : list string) motor :
  motor ∈ motors → zero_position motors !! motor = Some 0.
Proof.
  intros Hin. unfold zero_position.
  induction motors as [|m motors IH]; [by apply elem_of_nil in Hin|].
  rewrite fmap_cons. simpl.
  destruct (decide (m = motor)) as [->|Hne].
  - apply lookup_insert_eq.
  - rewrite lookup_insert_ne by done. apply IH.
    apply elem_of_cons in Hin as [->|Hin]; done.
Qed.

(** A robot configured as a mock connects without the driver and starts
    with every motor of its arm at zero. *)
Theorem mock_connect_starts_at_zero (cfg : Config) (d : Dev)
    arm motors others :
  mock cfg = true →
  follower_arms_cfg cfg = (arm, motors) :: others →
  arm ∉ others.*1 →
  ∃ r t,
    connect drv (init cfg, d) = (Ok true, (r, d), t)
    ∧ is_connected r = true ∧ adapter_io t = []
    ∧ read_position drv (r, d)
        = (Ok (zero_position motors), (r, d), [Adapter ARead])
    ∧ ∀ motor, motor ∈ motors → zero_position motors !! motor = Some 0.
Proof.
  intros Hmock Hcfg Hnot.
  unfold connect, _connect_mock_devices, self. py_unfold. simpl.
  rewrite Hmock. simpl.
  match goal with |- context [Py.for_each ?arms ?body ?w] =>
    change (Py.for_each arms body w) with
      (Py.for_each arms (λ arm,
         update (Dev:=Dev) (λ r, set_mock_positions
           (<[arm.1 := zero_position arm.2]> (mock_positions r)) r)) w) end.
  rewrite mock_positions_loop_state. simpl.
  eexists _, _. split; [reflexivity|]. split; [done|]. split; [done|].
  split; [|apply zero_position_lookup].
  unfold read_position, _read_mock_position, self. py_unfold. simpl.
  rewrite Hmock. simpl. rewrite Hcfg. simpl.
  rewrite (foldl_insert_lookup others _ arm Hnot), lookup_insert_eq. done.
Qed.

Lemma write_mock_ok (r : Robot) (d : Dev) (p : Position) :
  ∃ (b : bool) r', _write_mock_position p (r, d)
      = (Ok b, (r', d), if b then [Print "mock position written"] else [])
    ∧ is_connected r' = is_connected r ∧ mock_mode r' = mock_mode r
    ∧ config r' = config r ∧ follower_arms r' = follower_arms r.
Proof.
  unfold _write_mock_position, self, update. py_unfold. simpl.
  destruct (follower_arms_cfg (config r)) as [|[arm ms] rest]; simpl.
  - by exists false, r.
  - by eexists true, _.
Qed.

Lemma write_real_ok (r : Robot) (d : Dev) (p : Position) :
  ∃ b d' t, _write_real_position drv p (r, d) = (Ok b, (r, d'), t)
    ∧ adapter_writes t = [].
Proof.
  unfold _write_real_position, self, bus_write. py_unfold. simpl.
  destruct (follower_arms r); simpl; eauto.
  destruct (drv_write drv p d) as [[[]|e] d1]; simpl; eauto.
Qed.

(** On a connected robot a write never raises: whatever the bus does,
    the caller gets a boolean, and the robot stays connected, in the same
    mode and with the same configuration. *)
Lemma write_position_connected (w : World Dev) (position : Position) :
  is_connected w.1 = true →
  ∃ b w' t, write_position drv position w = (Ok b, w', t)
    ∧ is_connected w'.1 = true ∧ mock_mode w'.1 = mock_mode w.1
    ∧ config w'.1 = config w.1 ∧ follower_arms w'.1 = follower_arms w.1
    ∧ adapter_writes t = [position].
Proof.
  intros Hc. destruct w as [r d]. simpl in Hc. simpl.
  assert (∀ (k : Mth Dev Position) p d1 t1,
    k (r, d) = (Ok p, (r, d1), t1) → adapter_writes t1 = [] →
    ∃ b w' t,
      Py.bind k (λ position,
        if mock_mode r then _write_mock_position position
        else _write_real_position drv position) (r, d) = (Ok b, w', t)
      ∧ is_connected w'.1 = true ∧ mock_mode w'.1 = mock_mode r
      ∧ config w'.1 = config r ∧ follower_arms w'.1 = follower_arms r
      ∧ adapter_writes t = []) as Hk.
  { intros k p d1 t1 Hkeq Ht1. unfold Py.bind. rewrite Hkeq.
    destruct (mock_mode r) eqn:Hm.
    - destruct (write_mock_ok r d1 p) as (b & r' & -> & Hc' & Hm' & ? & ?).
      rewrite Hc in Hc'. rewrite Hm in Hm'.
      eexists _, _, _. split; [reflexivity|]. simpl.
      rewrite adapter_writes_app, Ht1. by destruct b.
    - destruct (write_real_ok r d1 p) as (b & d' & t & -> & Ht).
      eexists _, _, _. split; [reflexivity|]. simpl.
      by rewrite adapter_writes_app, Ht1, Ht. }
  unfold write_position.
  destruct (max_relative_target (config r)) as [bound|] eqn:Hb.
  - destruct (ManipulatorFacts.read_position_connected drv (r, d) Hc)
      as (cur & d1 & t1 & Hread & Hw1). simpl in Hread.
    assert (∃ p t, (let! current_pos := read_position drv in
          if bool_decide (current_pos = ∅) then Py.ret position
          else
            log_clamp_warnings position current_pos bound >>
            Py.ret (Clamp.safe_position position current_pos bound)) (r, d)
        = (Ok p, (r, d1), t) ∧ adapter_writes t = [])
      as (p & t & Hclamp & Ht).
    { unfold Py.bind at 1. rewrite Hread.
      apply no_writes_no_adapter_writes in Hw1.
      destruct (bool_decide (cur = ∅)).
      - unfold Py.ret. eexists _, _. split; [reflexivity|].
        by rewrite adapter_writes_app, Hw1.
      - unfold log_clamp_warnings, Py.bind.
        destruct (ManipulatorFacts.for_each_prints
          (map_to_list (Clamp.warned_joints position cur bound))
          "relative goal position magnitude had to be clamped" (r, d1))
          as (t2 & -> & Hio). unfold Py.ret.
        eexists _, _. split; [reflexivity|].
        apply adapter_io_no_adapter_writes in Hio.
        by rewrite !adapter_writes_app, Hw1, Hio. }
    destruct (Hk _ _ _ _ Hclamp Ht) as (b & w' & t' & Heq & ? & ? & ? & ? & Hout).
    exists b, w', (Adapter (AWrite position) :: t').
    split; [|simpl; fold (adapter_writes t'); rewrite Hout; done].
    unfold self. py_unfold. simpl. rewrite Hc, Hb. simpl.
    unfold Py.bind in Heq. by rewrite Heq.
  - unfold self. py_unfold. simpl. rewrite Hc, Hb. simpl.
    destruct (mock_mode r) eqn:Hm.
    + destruct (write_mock_ok r d position)
        as (b & r' & -> & Hc' & Hm' & ? & ?).
      rewrite Hc in Hc'. rewrite Hm in Hm'.
      eexists _, _, _. split; [reflexivity|]. simpl. by destruct b.
    + destruct (write_real_ok r d position) as (b & d' & t & -> & Ht).
      eexists _, _, _. split; [reflexivity|]. simpl.
      fold (adapter_writes t). by rewrite Ht.
Qed.


(** The relative clamp needs a present position.  When the bus read on a
    real arm raises or comes back empty, the goal goes to the bus as it
    was given, whatever bound is configured. *)
Theorem failed_read_skips_clamp (r : Robot) (d : Dev) (goal : Position)
    (bound : Qc) arm arms :
  is_connected r = true → mock_mode r = false →
  follower_arms r = arm :: arms →
  max_relative_target (config r) = Some bound →
  (∀ p, (drv_read drv d).1 = Ok p → p = ∅) →
  ∃ b d' t,
    write_position drv goal (r, d) = (Ok b, (r, d'), t)
    ∧ adapter_io t =
        [Adapter (AWrite goal); Adapter ARead; Bus BRead; Bus (BWrite goal)].
Proof.
  intros Hc Hm Harms Hb Hread.
  unfold write_position, read_position, _read_real_position,
    _write_real_position, self, bus_read, bus_write.
  py_unfold. simpl. rewrite Hc, Hb. simpl. rewrite Hc, Hm. simpl.
  rewrite Harms. simpl.
  destruct (drv_read drv d) as [[p|e] d1] eqn:Hd; simpl in *.
  - rewrite (Hread p eq_refl). rewrite bool_decide_eq_true_2 by done.
    simpl. rewrite ?Hm, ?Harms. simpl.
    destruct (drv_write drv goal d1) as [[[]|e] d2]; simpl;
      eexists _, _, _; (split; [reflexivity|]); done.
  - rewrite bool_decide_eq_true_2 by done. simpl.
    rewrite ?Hm, ?Harms. simpl.
    destruct (drv_write drv goal d1) as [[[]|e'] d2]; simpl;
      eexists _, _, _; (split; [reflexivity|]); done.
Qed.

(** With a present position in hand, the bus gets the clamped goal. *)
Theorem good_read_applies_clamp (r : Robot) (d d1 : Dev)
    (goal cur : Position) (bound : Qc) arm arms :
  is_connected r = true → mock_mode r = false →
  follower_arms r = arm :: arms →
  max_relative_target (config r) = Some bound →
  drv_read drv d = (Ok cur, d1) → cur ≠ ∅ →
  ∃ b d' t,
    write_position drv goal (r, d) = (Ok b, (r, d'), t)
    ∧ adapter_io t =
        [Adapter (AWrite goal); Adapter ARead; Bus BRead;
         Bus (BWrite (Clamp.safe_position goal cur bound))].
Proof.
  intros Hc Hm Harms Hb Hread Hcur.
  unfold write_position, read_position, _read_real_position,
    _write_real_position, self, bus_read, bus_write.
  py_unfold. simpl. rewrite Hc, Hb. simpl. rewrite Hc, Hm. simpl.
  rewrite Harms. simpl. rewrite Hread. simpl.
  rewrite bool_decide_eq_false_2 by done. simpl.
  unfold log_clamp_warnings.
  destruct (ManipulatorFacts.for_each_prints
    (map_to_list (Clamp.warned_joints goal cur bound))
    "relative goal position magnitude had to be clamped" (r, d1))
    as (t2 & Ht2 & Hio).
  rewrite Ht2. simpl.
  rewrite ?Hm, ?Harms. simpl.
  destruct (drv_write drv (Clamp.safe_position goal cur bound) d1)
    as [[[]|e'] d2]; simpl;
    eexists _, _, _; (split; [reflexivity|]);
    unfold adapter_io in *; simpl;
    rewrite !List.filter_app, Hio; done.
Qed.

(** [disconnect] on a connected robot answers [True] exactly when the
    robot ends up disconnected.  It answers [False], and leaves the robot
    connected, only when releasing a real arm raises.  After a [True]
    the buses are gone, reads and writes raise, and a second [disconnect]
    changes nothing. *)
Theorem disconnect_outcome (r : Robot) (d : Dev) :
  is_connected r = true →
  ∃ b r' d' t,
    ManipulatorMore.disconnect drv_disconnect (r, d) = (Ok b, (r', d'), t)
    ∧ is_connected r' = negb b
    ∧ (b = false ↔
         mock_mode r = false
         ∧ ∃ e, (drv_disconnect (follower_arms r) d).1 = Raise e)
    ∧ (mock_mode r = true → d' = d)
    ∧ (b = true →
         follower_arms r' = []
         ∧ read_position drv (r', d')
             = (Raise RuntimeError, (r', d'), [Adapter ARead])
         ∧ (∀ p, write_position drv p (r', d')
             = (Raise RuntimeError, (r', d'), [Adapter (AWrite p)]))
         ∧ ManipulatorMore.disconnect drv_disconnect (r', d')
             = (Ok true, (r', d'), [Print "robot not connected"])).
Proof.
  intros Hc.
  unfold ManipulatorMore.disconnect at 1,
    ManipulatorMore._disconnect_real_devices, self, update.
  py_unfold. simpl. rewrite Hc. simpl.
  destruct (mock_mode r) eqn:Hm; simpl.
  - eexists true, _, _, _. split; [reflexivity|]. simpl.
    split; [done|]. split; [split; [done|intros [? _]; done]|].
    split; [done|]. intros _. split; [done|].
    unfold read_position, write_position, ManipulatorMore.disconnect, self.
    py_unfold. simpl. done.
  - destruct (drv_disconnect (follower_arms r) d) as [[[]|e] d1] eqn:Hd;
      simpl.
    + eexists true, _, _, _. split; [reflexivity|]. simpl.
      split; [done|]. split; [split; [done|intros [_ [e He]]; done]|].
      split; [done|]. intros _. split; [done|].
      unfold read_position, write_position, ManipulatorMore.disconnect, self.
      py_unfold. simpl. done.
    + eexists false, _, _, _. split; [reflexivity|]. simpl.
      split; [done|]. split; [split; [eauto|done]|].
      split; done.
Qed.

(** *** [smooth_move_to_position] *)

Lemma time_sleep_ok (delay : Qc) (w : World Dev) :
  0 ≤ delay → delay ≤ Num.of_Z 1000000 →
  Py.time_sleep delay w = (Ok tt, w, [Sleep delay]).
Proof.
  intros Hd Hmax. unfold Py.time_sleep.
  assert (delay ≤ Py.max_sleep) as Hle.
  { eapply Qcle_trans; [exact Hmax|]. by apply NumFacts.leb_le. }
  apply NumFacts.leb_le in Hd, Hle. by rewrite Hd, Hle.
Qed.

Lemma time_sleep_negative (delay : Qc) (w : World Dev) :
  delay < 0 → Py.time_sleep delay w = (Raise ValueError, w, []).
Proof.
  intros Hd. unfold Py.time_sleep. apply NumFacts.leb_gt in Hd.
  by rewrite Hd.
Qed.

Lemma follow_path_connected (path : list Position) (delay : Qc)
    (w : World Dev) :
  is_connected w.1 = true → 0 ≤ delay → delay ≤ Num.of_Z 1000000 →
  ∃ w' t, SmoothMove.follow_path drv path delay w = (Ok tt, w', t)
    ∧ is_connected w'.1 = true ∧ mock_mode w'.1 = mock_mode w.1
    ∧ config w'.1 = config w.1
    ∧ adapter_writes t = tensor_positions <$> path.
Proof.
  intros Hc Hd Hmax. revert w Hc. induction path as [|pos path IH]; intros w Hc.
  - exists w, []. done.
  - unfold SmoothMove.follow_path. simpl.
    fold (SmoothMove.follow_path drv path delay).
    unfold move_to_position.
    destruct (write_position_connected w (tensor_positions pos) Hc)
      as (b & w1 & t1 & Hw & Hc1 & Hm1 & Hcfg1 & _ & Hout1).
    destruct (IH w1 Hc1) as (w' & t & Hrest & Hc' & Hm' & Hcfg' & Hout).
    unfold Py.bind, Py.print, Py.tell. rewrite Hw. cbn [fst snd].
    rewrite (time_sleep_ok delay w1 Hd Hmax). rewrite Hrest.
    eexists _, _. split; [reflexivity|].
    split; [done|]. split; [congruence|]. split; [congruence|].
    unfold adapter_writes in *. simpl.
    repeat (rewrite omap_app; simpl). by rewrite Hout1, Hout.
Qed.

(** [time.sleep] refuses a negative delay: the loop ends after its first
    write. *)
Lemma follow_path_negative_delay (path : list Position) (delay : Qc)
    (w : World Dev) :
  is_connected w.1 = true → delay < 0 →
  ∃ w' t,
    SmoothMove.follow_path drv path delay w =
      (if bool_decide (path = []) then Ok tt else Raise ValueError, w', t)
    ∧ is_connected w'.1 = true
    ∧ adapter_writes t = tensor_positions <$> take 1 path.
Proof.
  intros Hc Hd. destruct path as [|pos path].
  - exists w, []. done.
  - unfold SmoothMove.follow_path. simpl.
    unfold move_to_position.
    destruct (write_position_connected w (tensor_positions pos) Hc)
      as (b & w1 & t1 & Hw & Hc1 & _ & _ & _ & Hout1).
    unfold Py.bind, Py.print, Py.tell. rewrite Hw. cbn [fst snd].
    rewrite (time_sleep_negative delay w1 Hd).
    eexists _, _. split; [reflexivity|]. split; [done|].
    unfold adapter_writes in *. simpl.
    repeat (rewrite omap_app; simpl). by rewrite Hout1.
Qed.

Lemma time_sleep_state (delay : Qc) (w : World Dev) :
  ∃ r t, Py.time_sleep delay w = (r, w, t) ∧ adapter_writes t = [].
Proof.
  unfold Py.time_sleep.
  destruct (Num.leb 0 delay); simpl; [|by eexists _, _].
  destruct (Num.leb delay Py.max_sleep); simpl; by eexists _, _.
Qed.

(** Whatever the delay, the loop keeps the robot connected. *)
Lemma follow_path_total (path : list Position) (delay : Qc)
    (w : World Dev) :
  is_connected w.1 = true →
  ∃ r w' t, SmoothMove.follow_path drv path delay w = (r, w', t)
    ∧ is_connected w'.1 = true.
Proof.
  revert w. induction path as [|pos path IH]; intros w Hc.
  - exists (Ok tt), w, []. done.
  - unfold SmoothMove.follow_path. simpl.
    fold (SmoothMove.follow_path drv path delay).
    unfold move_to_position.
    destruct (write_position_connected w (tensor_positions pos) Hc)
      as (b & w1 & t1 & Hw & Hc1 & _).
    unfold Py.bind, Py.print, Py.tell. rewrite Hw. cbn [fst snd].
    destruct (time_sleep_state delay w1) as ([[]|e] & t2 & -> & _).
    + destruct (IH w1 Hc1) as (r & w' & t & -> & Hc').
      eexists _, _, _. split; [reflexivity|]. done.
    + eexists _, _, _. split; [reflexivity|]. done.
Qed.

(** What [smooth_move_to_position] makes of the read, the path and the
    answer of the loop. *)
Lemma smooth_move_run (r : Robot) (d d1 : Dev) (target : Position)
    (steps : Z) (delay : Qc) cur t1 path result w' t :
  get_current_positions drv (r, d) = (Ok cur, (r, d1), t1) →
  adapter_writes t1 = [] →
  RobotUtils.interpolate_positions cur target steps = Ok path →
  SmoothMove.follow_path drv path delay (r, d1) = (result, w', t) →
  ∃ t',
    SmoothMove.smooth_move_to_position drv target steps delay (r, d)
      = (Ok (if result is Ok _ then true else false), w', t')
    ∧ adapter_writes t' = adapter_writes t.
Proof.
  intros Hread Hq1 Hpath Hfollow.
  unfold SmoothMove.smooth_move_to_position.
  unfold Py.try_except, Py.bind at 1. rewrite Hread.
  unfold Py.bind at 1, Py.lift_res. rewrite Hpath.
  unfold Py.bind at 1. rewrite Hfollow.
  destruct result as [[]|e]; py_unfold; simpl;
    (eexists; split; [reflexivity|]);
    rewrite !adapter_writes_app, Hq1; simpl; by rewrite ?app_nil_r.
Qed.

(** On a connected robot a smooth move with a non-zero step count reads
    the present position and interpolates a path from it.  With a delay
    between zero and a million seconds it answers [True] whatever the
    single writes answered, and hands the adapter exactly the waypoints of
    the path, as [float32].  With a negative delay [time.sleep] raises
    after the first write: the adapter gets the first waypoint only and
    the answer is [False] (unless the path is empty, which a negative step
    count gives). *)
Theorem smooth_move_follows_the_path (r : Robot) (d : Dev)
    (target : Position) (steps : Z) (delay : Qc) :
  is_connected r = true → steps ≠ 0%Z →
  ∃ cur d1 t1 path (b : bool) w' t,
    get_current_positions drv (r, d) = (Ok cur, (r, d1), t1)
    ∧ RobotUtils.interpolate_positions cur target steps = Ok path
    ∧ length path = Z.to_nat (steps + 1)
    ∧ SmoothMove.smooth_move_to_position drv target steps delay (r, d)
        = (Ok b, w', t)
    ∧ is_connected w'.1 = true
    ∧ (0 ≤ delay → delay ≤ Num.of_Z 1000000 →
       b = true ∧ adapter_writes t = tensor_positions <$> path)
    ∧ (delay < 0 →
       b = bool_decide (path = [])
       ∧ adapter_writes t = tensor_positions <$> take 1 path).
Proof.
  intros Hc Hs.
  destruct (ManipulatorFacts.read_position_connected drv (r, d) Hc)
    as (cur & d1 & t1 & Hread & Hw1). simpl in Hread.
  pose proof (InterpolateFacts.interpolate_loop_ok cur target steps
    (RobotUtils.py_range (steps + 1)) [] Hs) as Hpath.
  simpl in Hpath.
  set (path := (λ step, RobotUtils.interpolate_step cur target
                  (Float64.div (Num.of_Z step) (Num.of_Z steps)))
               <$> RobotUtils.py_range (steps + 1)) in *.
  assert (length path = Z.to_nat (steps + 1)) as Hlen.
  { unfold path. by rewrite length_fmap, InterpolateFacts.py_range_length. }
  pose proof (no_writes_no_adapter_writes t1 Hw1) as Hq1.
  assert (∀ result w' t,
    SmoothMove.follow_path drv path delay (r, d1) = (result, w', t) →
    ∃ t',
      SmoothMove.smooth_move_to_position drv target steps delay (r, d)
        = (Ok (if result is Ok _ then true else false), w', t')
      ∧ adapter_writes t' = adapter_writes t) as Hrun.
  { intros result w' t. by apply (smooth_move_run r d d1 target steps delay
      cur t1 path). }
  destruct (Qclt_le_dec delay 0) as [Hd|Hd].
  - destruct (follow_path_negative_delay path delay (r, d1) Hc Hd)
      as (w' & t & Hfollow & Hc' & Hout).
    destruct (Hrun _ _ _ Hfollow) as (t' & Hmove & Hout').
    exists cur, d1, t1, path. eexists _, w', t'.
    split; [exact Hread|]. split; [exact Hpath|]. split; [exact Hlen|].
    split; [exact Hmove|]. split; [done|]. split.
    + intros Hd'. by apply Qclt_not_le in Hd.
    + intros _. split; [by case_bool_decide|]. by rewrite Hout'.
  - destruct (Qclt_le_dec (Num.of_Z 1000000) delay) as [Hbig|Hsmall].
    + destruct (follow_path_total path delay (r, d1) Hc)
        as (result & w' & t & Hfollow & Hc').
      destruct (Hrun _ _ _ Hfollow) as (t' & Hmove & Hout').
      exists cur, d1, t1, path. eexists _, w', t'.
      split; [exact Hread|]. split; [exact Hpath|]. split; [exact Hlen|].
      split; [exact Hmove|]. split; [done|]. split.
      * intros _ Hle. by apply Qclt_not_le in Hbig.
      * intros Hd'. by apply Qclt_not_le in Hd'.
    + destruct (follow_path_connected path delay (r, d1) Hc Hd Hsmall)
        as (w' & t & Hfollow & Hc' & _ & _ & Hout).
      destruct (Hrun _ _ _ Hfollow) as (t' & Hmove & Hout').
      exists cur, d1, t1, path. eexists _, w', t'.
      split; [exact Hread|]. split; [exact Hpath|]. split; [exact Hlen|].
      split; [exact Hmove|]. split; [done|]. split.
      * intros _ _. split; [done|]. by rewrite Hout'.
      * intros Hd'. by apply Qclt_not_le in Hd'.
Qed.






End WithDriver.
Lemma mock_connect_starts_at_zero_witness :
  ∃ r t,
    connect Scene.no_driver (init MoreScenes.mock_config, tt)
      = (Ok true, (r, tt), t)
    ∧ is_connected r = true ∧ adapter_io t = []
    ∧ read_position Scene.no_driver (r, tt)
        = (Ok (zero_position Interface.so101_motors_no_gripper), (r, tt),
           [Adapter ARead])
    ∧ ∀ motor, motor ∈ Interface.so101_motors_no_gripper →
        zero_position Interface.so101_motors_no_gripper !! motor = Some 0.
Proof.
  apply (mock_connect_starts_at_zero Scene.no_driver MoreScenes.mock_config
    tt "main" Interface.so101_motors_no_gripper []).
  - reflexivity.
  - reflexivity.
  - apply not_elem_of_nil.
Defined.


Lemma failed_read_skips_clamp_witness :
  ∃ b d' t,
    write_position Scene.dead_bus Scene.near_goal (MoreScenes.real_robot, tt)
      = (Ok b, (MoreScenes.real_robot, d'), t)
    ∧ adapter_io t =
        [Adapter (AWrite Scene.near_goal); Adapter ARead; Bus BRead;
         Bus (BWrite Scene.near_goal)].
Proof.
  apply (failed_read_skips_clamp Scene.dead_bus MoreScenes.real_robot tt
    Scene.near_goal (Num.of_Z 100) "main" []); try reflexivity.
  intros p Hp. simpl in Hp. discriminate Hp.
Defined.

Lemma good_read_applies_clamp_witness :
  ∃ b d' t,
    write_position MoreScenes.echo_bus Scene.near_goal
      (MoreScenes.real_robot, Scene.near_present)
      = (Ok b, (MoreScenes.real_robot, d'), t)
    ∧ adapter_io t =
        [Adapter (AWrite Scene.near_goal); Adapter ARead; Bus BRead;
         Bus (BWrite (Clamp.safe_position Scene.near_goal Scene.near_present
                        (Num.of_Z 100)))].
Proof.
  apply (good_read_applies_clamp MoreScenes.echo_bus MoreScenes.real_robot
    Scene.near_present Scene.near_present Scene.near_goal Scene.near_present
    (Num.of_Z 100) "main" []); try reflexivity.
  apply map_non_empty_singleton.
Defined.

Lemma disconnect_outcome_witness :
  ∃ b r' d' t,
    ManipulatorMore.disconnect MoreScenes.stuck (MoreScenes.real_robot, tt)
      = (Ok b, (r', d'), t)
    ∧ is_connected r' = negb b
    ∧ (b = false ↔
         mock_mode MoreScenes.real_robot = false
         ∧ ∃ e, (MoreScenes.stuck
                   (follower_arms MoreScenes.real_robot) tt).1 = Raise e)
    ∧ (mock_mode MoreScenes.real_robot = true → d' = tt)
    ∧ (b = true →
         follower_arms r' = []
         ∧ read_position Scene.dead_bus (r', d')
             = (Raise RuntimeError, (r', d'), [Adapter ARead])
         ∧ (∀ p, write_position Scene.dead_bus p (r', d')
             = (Raise RuntimeError, (r', d'), [Adapter (AWrite p)]))
         ∧ ManipulatorMore.disconnect MoreScenes.stuck (r', d')
             = (Ok true, (r', d'), [Print "robot not connected"])).
Proof.
  apply (disconnect_outcome Scene.dead_bus MoreScenes.stuck
    MoreScenes.real_robot tt).
  reflexivity.
Defined.

Lemma smooth_move_follows_the_path_witness :
  ∃ cur d1 t1 path w' t,
    get_current_positions Scene.no_driver (Scene.mock_robot, tt)
      = (Ok cur, (Scene.mock_robot, d1), t1)
    ∧ RobotUtils.interpolate_positions cur Scene.near_goal 3 = Ok path
    ∧ length path = 4%nat
    ∧ SmoothMove.smooth_move_to_position Scene.no_driver Scene.near_goal 3
        (Num.frac 1 10) (Scene.mock_robot, tt) = (Ok true, w', t)
    ∧ is_connected w'.1 = true
    ∧ adapter_writes t = tensor_positions <$> path.
Proof.
  destruct (smooth_move_follows_the_path Scene.no_driver Scene.mock_robot tt
    Scene.near_goal 3 (Num.frac 1 10))
    as (cur & d1 & t1 & path & b & w' & t & Hread & Hpath & Hlen & Hrun
        & Hc & Hgood & _).
  - reflexivity.
  - lia.
  - destruct Hgood as [-> Hout].
    + by apply NumFacts.leb_le.
    + by apply NumFacts.leb_le.
    + exists cur, d1, t1, path, w', t. done.
Defined.


End ManipulatorMoreFacts.

(** ** The interface: gestures, stops, disconnecting, the position store *)

Module InterfaceMoreFacts.
Import Interface InterfaceMore MotionSpec TraceSpec.

Lemma same_flags_trans s1 s2 s3 :
  same_flags s1 s2 → same_flags s2 s3 → same_flags s1 s3.
Proof.
  unfold same_flags. intros H1 H2. rewrite H2 at 1. rewrite H1.
  by destruct s1 as [? ? ? ? ? ? ? [|?] ? ?].
Qed.

(** The ranges of the SO101 table have whole numbers as bounds. *)
Lemma so101_limit_cases joint lo hi :
  RobotUtils.get_so101_joint_limits !! joint = Some (lo, hi) →
  (lo = Num.of_Z (-2048) ∧ hi = Num.of_Z 2048)
  ∨ (lo = Num.of_Z 0 ∧ hi = Num.of_Z 1024).
Proof.
  unfold RobotUtils.get_so101_joint_limits, RobotUtils.limit.
  rewrite !lookup_insert_Some, lookup_empty. intros H.
  repeat (destruct H as [[_ H]|[_ H]]; [injection H as <- <-; auto|]).
  done.
Qed.

(** Wrapping a position in [float32] tensors keeps it inside the SO101
    limits: their bounds are numbers of that format. *)
Lemma tensor_positions_safe (positions : Position) :
  RobotUtils.check_position_safety positions
    RobotUtils.get_so101_joint_limits = true →
  RobotUtils.check_position_safety (Manipulator.tensor_positions positions)
    RobotUtils.get_so101_joint_limits = true.
Proof.
  rewrite !SafetyFacts.check_position_safety_true.
  intros Hsafe joint pos lo hi Hp Hl.
  unfold Manipulator.tensor_positions in Hp. rewrite lookup_fmap in Hp.
  destruct (positions !! joint) as [v|] eqn:Hv; [|done].
  simpl in Hp. injection Hp as <-.
  destruct (Hsafe joint v lo hi Hv Hl) as [H1 H2].
  destruct (so101_limit_cases joint lo hi Hl) as [[-> ->]|[-> ->]];
    by apply FloatFacts.rnd32_within.
Qed.

Section WithDriver.
Context {Dev : Type} (drv : Driver Dev)
  (drv_disconnect : list string → Dev → res unit * Dev).

(** A read hands the adapter no position, connected or not. *)
Lemma read_position_no_adapter_writes (w : Manipulator.World Dev) :
  adapter_writes (Manipulator.read_position drv w).2 = [].
Proof.
  destruct w as [r d].
  unfold Manipulator.read_position, Manipulator._read_mock_position,
    Manipulator._read_real_position, Manipulator.self, Manipulator.bus_read.
  py_unfold. simpl.
  destruct (Manipulator.is_connected r); simpl; [|done].
  destruct (Manipulator.mock_mode r); simpl.
  - by destruct (Manipulator.follower_arms_cfg (Manipulator.config r))
      as [|[] ?].
  - destruct (Manipulator.follower_arms r); simpl; [done|].
    by destruct (drv_read drv d) as [[p|e] d'].
Qed.

(** A write hands the adapter the position it was called with, and only
    that. *)
Lemma write_position_adapter_writes (w : Manipulator.World Dev)
    (p : Position) :
  adapter_writes (Manipulator.write_position drv p w).2 = [p].
Proof.
  destruct (Manipulator.is_connected w.1) eqn:Hc.
  - destruct (ManipulatorMoreFacts.write_position_connected drv w p Hc)
      as (b & w' & t & -> & _ & _ & _ & _ & Ht). done.
  - destruct w as [r d]. simpl in Hc.
    unfold Manipulator.write_position, Manipulator.self. py_unfold. simpl.
    rewrite Hc. done.
Qed.

Lemma on_robot_trace {A} (m : Manipulator.Mth Dev A) (w : World Dev) :
  (on_robot m w).2 = [] ∨
  ∃ r, lerobot_robot w.1 = Some r ∧ (on_robot m w).2 = (m (r, w.2)).2.
Proof.
  unfold on_robot. destruct (lerobot_robot w.1) as [r|]; [|by left].
  right. exists r. split; [done|].
  by destruct (m (r, w.2)) as [[a [r' d']] t].
Qed.

(** [track_gesture] never raises.  It is turned down without a trace
    when the arm is disconnected or limp, and whatever it hands to the
    adapter has passed the safety check against the joint limits. *)
Theorem track_gesture_writes_only_safe_positions (w : World Dev)
    (x y : Qc) :
  ∃ b w' t,
    track_gesture drv x y w = (Ok b, w', t)
    ∧ same_flags w.1 w'.1
    ∧ (is_connected w.1 = false ∨ torque_enabled w.1 = false →
       b = false ∧ w' = w ∧ t = [])
    ∧ ∀ p, p ∈ adapter_writes t →
        RobotUtils.check_position_safety p (joint_limits w.1) = true.
Proof.
  unfold track_gesture, self. unfold Py.bind at 1, Py.gets. cbn [fst snd].
  destruct (negb (is_connected w.1) || negb (torque_enabled w.1)) eqn:Hgate.
  { unfold Py.ret. eexists _, _, _. split; [reflexivity|].
    split; [apply InterfaceFacts.same_flags_refl|]. split; [done|].
    intros p Hp. by apply elem_of_nil in Hp. }
  assert (¬ (is_connected w.1 = false ∨ torque_enabled w.1 = false)) as Hno.
  { apply orb_false_iff in Hgate as [H1 H2].
    apply negb_false_iff in H1, H2. intros [H|H]; congruence. }
  destruct (lerobot_active w.1) eqn:Hact.
  2: { py_unfold. simpl. eexists _, _, _. split; [reflexivity|].
       split; [apply InterfaceFacts.same_flags_refl|]. split; [tauto|].
       intros p Hp. simpl in Hp. by apply elem_of_nil in Hp. }
  apply InterfaceFacts.lerobot_active_available in Hact.
  pose proof (InterfaceFacts.on_robot_frame
    (Manipulator.get_current_positions drv) w) as (r1 & w1 & t1 & Hread & Hf1).
  pose proof (on_robot_trace (Manipulator.get_current_positions drv) w)
    as Ht1.
  rewrite Hread in Ht1. simpl in Ht1.
  assert (adapter_writes t1 = []) as Hout1.
  { destruct Ht1 as [->|(r & _ & ->)]; [done|].
    apply read_position_no_adapter_writes. }
  unfold Py.try_except, Py.bind at 1, Py.bind at 1. rewrite Hread.
  destruct r1 as [cur|e].
  2: { py_unfold. simpl. eexists _, _, _. split; [reflexivity|].
       split; [exact Hf1|]. split; [tauto|].
       intros p Hp. unfold adapter_writes in *.
       rewrite omap_app, Hout1 in Hp. simpl in Hp.
       by apply elem_of_nil in Hp. }
  destruct (RobotUtils.check_position_safety (gesture_target cur x y)
    (joint_limits w.1)) eqn:Hsafe.
  2: { py_unfold. simpl. eexists _, _, _. split; [reflexivity|].
       split; [exact Hf1|]. split; [tauto|].
       intros p Hp. unfold adapter_writes in *.
       rewrite !omap_app, Hout1 in Hp. simpl in Hp.
       by apply elem_of_nil in Hp. }
  pose proof (InterfaceFacts.on_robot_frame
    (Manipulator.move_to_position drv (gesture_target cur x y)) w1)
    as (r2 & w2 & t2 & Hwrite & Hf2).
  pose proof (on_robot_trace
    (Manipulator.move_to_position drv (gesture_target cur x y)) w1) as Ht2.
  rewrite Hwrite in Ht2. simpl in Ht2.
  assert (∀ p, p ∈ adapter_writes t2 →
    p = Manipulator.tensor_positions (gesture_target cur x y)) as Hout2.
  { intros p Hp. destruct Ht2 as [->|(r & _ & ->)].
    - by apply elem_of_nil in Hp.
    - unfold Manipulator.move_to_position in Hp.
      rewrite write_position_adapter_writes in Hp.
      by apply list_elem_of_singleton in Hp. }
  assert (RobotUtils.check_position_safety
    (Manipulator.tensor_positions (gesture_target cur x y))
    (joint_limits w.1) = true) as Hsafe'.
  { revert Hsafe. unfold joint_limits. rewrite Hact.
    apply tensor_positions_safe. }
  assert (same_flags w.1 w2.1) as Hf by (by eapply same_flags_trans).
  unfold Py.bind at 1. rewrite Hwrite.
  destruct r2 as [b|e]; py_unfold; simpl;
    (eexists _, _, _; split; [reflexivity|]; split; [exact Hf|];
     split; [tauto|]; intros p Hp; unfold adapter_writes in *;
     rewrite !omap_app, Hout1 in Hp; simpl in Hp;
     rewrite ?app_nil_r in Hp; rewrite (Hout2 p Hp); exact Hsafe').
Qed.

(** [emergency_stop] sends nothing to the arm: it clears the busy flag
    and the target, cuts the torque flag and announces both.  With the
    integration package imported, a move to a safe preset that was
    refused as busy is accepted right after it. *)
Theorem emergency_stop_frees_the_interface (w : World Dev)
    position_name duration target :
  lerobot_available w.1 = true →
  is_connected w.1 = true →
  saved_positions w.1 !! position_name = Some target →
  RobotUtils.check_position_safety target (joint_limits w.1) = true →
  ∃ s' t,
    emergency_stop w = (Ok tt, (s', w.2), t)
    ∧ s' = set_torque_enabled false
             (set_target_position None (set_is_moving false w.1))
    ∧ signals t = [Emit (status_changed "torque_disabled");
                   Emit (status_changed "emergency_stopped")]
    ∧ adapter_io t = []
    ∧ ∃ b w'' t',
        move_to_position drv position_name duration (s', w.2)
          = (Ok b, w'', t')
        ∧ hd_error (signals t')
            = Some (Emit (movement_started position_name)).
Proof.
  intros Ha Hc Hs Hu.
  unfold emergency_stop, disable_torque, update. py_unfold. simpl.
  eexists _, _. split; [reflexivity|]. split; [reflexivity|].
  split; [done|]. split; [done|].
  destruct (InterfaceFacts.move_started drv
    (set_torque_enabled false
       (set_target_position None (set_is_moving false w.1)), w.2)
    position_name duration target) as (b & w'' & t' & Heq & _ & _ & _ & Hhd & _);
    try done.
  eauto.
Qed.

Lemma manipulator_disconnect_total (rw : Manipulator.World Dev) :
  ∃ b rw' t, ManipulatorMore.disconnect drv_disconnect rw = (Ok b, rw', t)
    ∧ signals t = [].
Proof.
  destruct rw as [r d].
  unfold ManipulatorMore.disconnect,
    ManipulatorMore._disconnect_real_devices, Manipulator.self,
    Manipulator.update.
  py_unfold. simpl.
  destruct (Manipulator.is_connected r); simpl; [|eauto 10].
  destruct (Manipulator.mock_mode r); simpl; [eauto 10|].
  destruct (drv_disconnect (Manipulator.follower_arms r) d)
    as [[[]|e] d1]; simpl; eauto 10.
Qed.

(** [disconnect] never raises and always leaves the interface
    disconnected.  On a connected interface it cuts the torque, drops
    the robot object whatever the robot's own [disconnect] answered, and
    announces both; the busy flag is left as it was.  On a disconnected
    one it changes nothing. *)
Theorem interface_disconnect_outcome (w : World Dev) :
  ∃ s' d' t,
    disconnect drv_disconnect w = (Ok tt, (s', d'), t)
    ∧ is_connected s' = false
    ∧ get_status s' = "disconnected"
    ∧ is_moving s' = is_moving w.1
    ∧ saved_positions s' = saved_positions w.1
    ∧ (is_connected w.1 = false → (s', d') = w ∧ signals t = [])
    ∧ (is_connected w.1 = true →
         current_position s' = "unknown" ∧ lerobot_robot s' = None
         ∧ torque_enabled s' = false
         ∧ signals t = [Emit (status_changed "torque_disabled");
                        Emit (status_changed "disconnected")]).
Proof.
  destruct w as [s d].
  unfold disconnect, disable_torque, self, update.
  unfold Py.try_except at 1, Py.bind at 1, Py.print at 1, Py.tell at 1.
  unfold Py.bind at 1, Py.gets at 1. cbn [fst snd].
  destruct (is_connected s) eqn:Hc.
  2: { unfold Py.ret. simpl. eexists _, _, _. split; [reflexivity|].
       unfold get_status. rewrite Hc. simpl. repeat split; done. }
  destruct (lerobot_active s) eqn:Hl.
  - unfold lerobot_active in Hl. apply andb_true_iff in Hl as [Hr _].
    apply bool_decide_eq_true in Hr as [r Hr].
    destruct s as [? ? ? ? ? ? ? [|ro] ? ?]; [done|].
    unfold lerobot_robot in Hr. simpl in Hr, Hc. subst.
    destruct (manipulator_disconnect_total (r, d))
      as (b & [r' d'] & t & Heq & Hsig).
    unfold on_robot. py_unfold. cbn -[ManipulatorMore.disconnect].
    rewrite Heq. simpl.
    eexists _, _, _. split; [reflexivity|]. simpl.
    do 5 (split; [done|]). intros _. do 3 (split; [done|]).
    unfold signals in *. simpl. rewrite !List.filter_app, Hsig. done.
  - py_unfold. simpl. eexists _, _, _. split; [reflexivity|]. simpl.
    do 5 (split; [done|]). intros _. split; [done|]. split; [|done].
    unfold lerobot_robot. simpl. by destruct (lerobot s).
Qed.

(** On a machine where the integration package cannot be imported,
    [connect()] succeeds in basic mode, without touching the hardware.
    In that mode every move to a known preset fails: the safety check is
    an unbound name, so the call answers [False], leaves the interface
    idle where it was, calls no adapter, does not sleep, and
    [error_occurred] is its only signal. *)
Theorem basic_mode_move_fails :
  (∀ cfg presets (d : Dev),
     ∃ s' t,
       connect drv (init cfg false presets, d) = (Ok true, (s', d), t)
       ∧ is_connected s' = true ∧ is_moving s' = false
       ∧ lerobot_available s' = false
       ∧ saved_positions s' = presets
       ∧ signals t = [Emit (status_changed "connected")]
       ∧ adapter_io t = [])
  ∧ (∀ (w : World Dev) position_name duration target,
       lerobot_available w.1 = false →
       is_connected w.1 = true → is_moving w.1 = false →
       saved_positions w.1 !! position_name = Some target →
       ∃ t,
         move_to_position drv position_name duration w
           = (Ok false,
              (set_target_position None (set_is_moving false w.1), w.2), t)
         ∧ signals t = [Emit (error_occurred "move" NameError)]
         ∧ adapter_io t = []
         ∧ List.filter
             (λ o, match o with Sleep _ => true | _ => false end) t = []).
Proof.
  split.
  - intros cfg presets d.
    unfold connect, _connect_basic, self, update. py_unfold. simpl.
    eexists _, _. split; [reflexivity|]. done.
  - intros w position_name duration target Ha Hc Hm Hs.
    rewrite (InterfaceFacts.move_name_error drv w position_name duration
      target Hc Hm Hs Ha).
    eexists. split; [reflexivity|]. done.
Qed.

End WithDriver.

(** The status string tells whether the interface is connected. *)
Theorem status_tells_connection (s : State) :
  get_status s = "disconnected" ↔ is_connected s = false.
Proof.
  unfold get_status. destruct (is_connected s); simpl; [|done].
  split; [|done].
  destruct (is_moving s); [|destruct (torque_enabled s)]; simpl;
    intros H; discriminate H.
Qed.

(** *** The position store *)

Section Store.
Context {Dev : Type} (drv : Driver Dev) (LEROBOT_AVAILABLE : bool).

(** [save_positions] never raises and touches only the file: a writable
    file then holds the whole table, an unwritable one is left alone. *)
Lemma save_positions_eq (w : StoreWorld Dev) :
  ∃ t, save_positions LEROBOT_AVAILABLE w =
    (Ok tt,
     (w.1,
      if PresetFile.writable w.2
      then {| PresetFile.document := Some (saved_positions w.1.1);
              PresetFile.writable := true |}
      else w.2), t)
    ∧ signals t = [] ∧ adapter_io t = [].
Proof.
  destruct w as [[s d] disk].
  unfold save_positions, this, on_disk, PresetFile.save_positions_to_file.
  py_unfold. simpl.
  destruct LEROBOT_AVAILABLE; simpl;
    destruct (PresetFile.writable disk) eqn:Hw; simpl; rewrite ?Hw;
    eexists; (split; [reflexivity|done]).
Qed.

(** Deleting a preset answers whether there was one.  Afterwards the
    name is gone from the table, a writable file holds the new table,
    and a move to that name is turned down. *)
Theorem delete_position_outcome (w : StoreWorld Dev) position_name
    duration :
  ∃ b w' t,
    delete_position LEROBOT_AVAILABLE position_name w = (Ok b, w', t)
    ∧ (b = true ↔ is_Some (saved_positions w.1.1 !! position_name))
    ∧ (b = false → w' = w ∧ t = [])
    ∧ saved_positions w'.1.1 = delete position_name (saved_positions w.1.1)
    ∧ (b = true → PresetFile.writable w.2 = true →
         PresetFile.document w'.2 = Some (saved_positions w'.1.1))
    ∧ signals t = [] ∧ adapter_io t = []
    ∧ turned_down w'.1 (move_to_position drv position_name duration w'.1).
Proof.
  assert (∀ s' d', saved_positions s' !! position_name = None →
    turned_down (s', d')
      (move_to_position drv position_name duration (s', d'))) as Hmove.
  { intros s' d' Hnone. apply InterfaceFacts.move_rejected. simpl.
    destruct (is_connected s') eqn:Hc; [|by apply NotConnected].
    destruct (is_moving s') eqn:Hm; [by apply Busy|].
    by apply UnknownPreset. }
  destruct w as [[s d] disk].
  unfold delete_position, this. unfold Py.bind at 1, Py.gets. cbn [fst snd].
  destruct (saved_positions s !! position_name) as [p|] eqn:Hs.
  - rewrite bool_decide_eq_true_2 by eauto.
    unfold on_interface, update. unfold Py.bind at 1, Py.modify.
    cbn [fst snd].
    py_unfold.
    match goal with |- context [save_positions _ ?w1] =>
      destruct (save_positions_eq w1) as (t & Heq & Hsig & Hio) end.
    rewrite Heq. cbn [fst snd].
    eexists _, _, _. split; [reflexivity|]. cbn [fst snd].
    split; [split; eauto|]. split; [done|]. split; [done|].
    split. { intros _ Hw. simpl in Hw. by rewrite Hw. }
    split. { unfold signals in *. simpl. by rewrite !List.filter_app, Hsig. }
    split. { unfold adapter_io in *. simpl.
             by rewrite !List.filter_app, Hio. }
    apply Hmove. simpl. apply lookup_delete_eq.
  - rewrite bool_decide_eq_false_2 by (intros [? ?]; done).
    unfold Py.ret. eexists _, _, _. split; [reflexivity|]. cbn [fst snd].
    split; [split; [done|intros [? ?]; done]|].
    split; [done|]. split; [by rewrite delete_id|].
    split; [done|]. split; [done|]. split; [done|].
    by apply Hmove.
Qed.

(** [load_positions] never raises and never leaves the table empty:
    what the file holds is taken over, and when that is nothing the
    defaults are put in its place and written back. *)
Theorem load_positions_never_leaves_the_table_empty (w : StoreWorld Dev) :
  let defaults :=
    if LEROBOT_AVAILABLE then RobotUtils.create_default_positions
    else {["rest" := RobotUtils.pose 0 (-1024) 1024 0 0]} in
  let found :=
    if LEROBOT_AVAILABLE then default ∅ (PresetFile.document w.2)
    else saved_positions w.1.1 in
  ∃ w' t,
    load_positions LEROBOT_AVAILABLE w = (Ok tt, w', t)
    ∧ saved_positions w'.1.1 = (if bool_decide (found = ∅) then defaults
                                else found)
    ∧ saved_positions w'.1.1 ≠ ∅
    ∧ (found ≠ ∅ → w'.2 = w.2)
    ∧ (found = ∅ → PresetFile.writable w.2 = true →
         PresetFile.document w'.2 = Some defaults)
    ∧ signals t = [] ∧ adapter_io t = [].
Proof.
  intros defaults found.
  assert (defaults ≠ ∅) as Hdef.
  { unfold defaults. destruct LEROBOT_AVAILABLE.
    - apply insert_non_empty.
    - apply map_non_empty_singleton. }
  destruct w as [[s d] disk]. cbn [fst snd] in found.
  assert (∀ t0 (w0 : StoreWorld Dev),
    saved_positions w0.1.1 = found → w0.2 = disk →
    signals t0 = [] → adapter_io t0 = [] →
    ∃ w' t,
      (let (p, t') :=
         (let! s0 := this in
          if bool_decide (saved_positions s0 = ∅) then
            on_interface (update (set_saved_positions defaults)) >>
            save_positions LEROBOT_AVAILABLE
          else Py.ret tt) w0 in
       let (r, s'') := p in (r, s'', t0 ++ t')) = (Ok tt, w', t)
      ∧ saved_positions w'.1.1 =
          (if bool_decide (found = ∅) then defaults else found)
      ∧ saved_positions w'.1.1 ≠ ∅
      ∧ (found ≠ ∅ → w'.2 = disk)
      ∧ (found = ∅ → PresetFile.writable disk = true →
           PresetFile.document w'.2 = Some defaults)
      ∧ signals t = [] ∧ adapter_io t = []) as Hrest.
  { intros t0 [[s0 d0] disk0] Hs0 Hd0 Hsig0 Hio0. cbn [fst snd] in *.
    subst disk0.
    unfold this. unfold Py.bind at 1, Py.gets. cbn [fst snd].
    rewrite Hs0.
    destruct (bool_decide (found = ∅)) eqn:Hfound.
    - apply bool_decide_eq_true in Hfound.
      unfold on_interface, update. py_unfold. cbn [fst snd].
      match goal with |- context [save_positions _ ?w1] =>
        destruct (save_positions_eq w1) as (t & Heq & Hsig & Hio) end.
      rewrite Heq. cbn [fst snd].
      eexists _, _. split; [reflexivity|]. cbn [fst snd].
      split; [done|]. split; [done|]. split; [done|].
      split. { intros _ Hw. simpl in Hw. by rewrite Hw. }
      split.
      { unfold signals in *. by rewrite !List.filter_app, Hsig0, Hsig. }
      unfold adapter_io in *. by rewrite !List.filter_app, Hio0, Hio.
    - apply bool_decide_eq_false in Hfound.
      unfold Py.ret. eexists _, _. split; [reflexivity|]. cbn [fst snd].
      split; [done|]. split; [by rewrite Hs0|]. split; [done|].
      split; [done|].
      split. { unfold signals in *. by rewrite !List.filter_app, Hsig0. }
      unfold adapter_io in *. by rewrite !List.filter_app, Hio0. }
  unfold load_positions. fold defaults. unfold Py.bind at 1.
  unfold found in *. destruct LEROBOT_AVAILABLE.
  - unfold on_disk, on_interface, update,
      PresetFile.load_positions_from_file.
    unfold Py.bind at 1 2 3, Py.get, Py.modify. cbn [fst snd].
    destruct (PresetFile.document disk) as [table|];
      unfold Py.bind at 1, Py.print, Py.tell, Py.ret; cbn [fst snd];
      apply Hrest; done.
  - unfold Py.ret at 1. apply Hrest; done.
Qed.

Lemma get_current_positions_frame (w : World Dev) :
  ∃ r w' t, get_current_positions drv w = (r, w', t)
    ∧ same_flags w.1 w'.1 ∧ adapter_writes t = [].
Proof.
  unfold get_current_positions, self. unfold Py.bind, Py.gets.
  cbn [fst snd].
  destruct (negb (is_connected w.1)).
  { unfold Py.ret. eexists _, _, _. split; [reflexivity|].
    split; [apply InterfaceFacts.same_flags_refl|done]. }
  destruct (lerobot_active w.1).
  2: { unfold Py.ret. eexists _, _, _. split; [reflexivity|].
       split; [apply InterfaceFacts.same_flags_refl|done]. }
  destruct (InterfaceFacts.on_robot_frame
    (Manipulator.get_current_positions drv) w) as (r & w' & t & Heq & Hf).
  destruct (on_robot_trace (Manipulator.get_current_positions drv) w)
    as [Ht|(ro & _ & Ht)]; rewrite Heq in *; simpl in Ht; subst t.
  - eexists _, _, _. split; [reflexivity|]. done.
  - eexists _, _, _. split; [reflexivity|]. split; [done|].
    apply read_position_no_adapter_writes.
Qed.

Lemma same_flags_saved_positions s s' :
  same_flags s s' → saved_positions s' = saved_positions s.
Proof. unfold same_flags. intros ->. done. Qed.

(** [save_current_position] never raises and never commands the arm.
    It answers [True] only when it stored a non-empty position under
    the name; otherwise the table and the file are as before.  A
    disconnected interface answers [False] at once. *)
Theorem save_current_position_outcome (w : StoreWorld Dev) position_name :
  ∃ r w' t,
    save_current_position drv LEROBOT_AVAILABLE position_name w
      = (Ok r, w', t)
    ∧ (r = Some true →
         ∃ p, p ≠ ∅
           ∧ saved_positions w'.1.1
               = <[position_name := p]> (saved_positions w.1.1))
    ∧ (r ≠ Some true →
         saved_positions w'.1.1 = saved_positions w.1.1 ∧ w'.2 = w.2)
    ∧ (is_connected w.1.1 = false → r = Some false ∧ w' = w ∧ t = [])
    ∧ adapter_writes t = [].
Proof.
  destruct w as [[s d] disk].
  unfold save_current_position, this. unfold Py.bind at 1, Py.gets.
  cbn [fst snd].
  destruct (is_connected s) eqn:Hc; cbn [negb].
  2: { unfold Py.ret. eexists _, _, _. split; [reflexivity|].
       cbn [fst snd]. split; [done|]. done. }
  destruct (get_current_positions_frame (s, d))
    as (r & [s1 d1] & t1 & Hread & Hf & Hout).
  apply same_flags_saved_positions in Hf. cbn [fst snd] in Hf.
  unfold Py.try_except, Py.bind at 1, on_interface at 1. cbn [fst snd].
  rewrite Hread.
  destruct r as [cur|e].
  2: { py_unfold. cbn [fst snd]. eexists _, _, _. split; [reflexivity|].
       cbn [fst snd]. split; [done|]. split; [done|]. split; [done|].
       unfold adapter_writes in *. simpl. by rewrite ?omap_app, Hout. }
  destruct (bool_decide (cur = ∅)) eqn:Hcur; cbn [negb].
  { unfold Py.ret. eexists _, _, _. split; [reflexivity|].
    cbn [fst snd]. split; [done|]. split; [done|]. split; [done|].
    unfold adapter_writes in *. simpl. by rewrite ?omap_app, Hout. }
  apply bool_decide_eq_false in Hcur.
  unfold on_interface, update. py_unfold. cbn [fst snd].
  match goal with |- context [save_positions _ ?w1] =>
    destruct (save_positions_eq w1) as (t & Heq & _ & Hio) end.
  rewrite Heq. cbn [fst snd].
  eexists _, _, _. split; [reflexivity|]. cbn [fst snd].
  split. { intros _. exists cur. split; [done|]. simpl. by rewrite Hf. }
  split; [done|]. split; [done|].
  apply TraceFacts.adapter_io_no_adapter_writes in Hio.
  unfold adapter_writes in *. simpl. rewrite ?omap_app, Hout, Hio. done.
Qed.

(** With the integration package present, a table written to a
    writable file comes back unchanged when a new interface loads it. *)
Theorem saved_table_survives_reload (w w0 : StoreWorld Dev) :
  PresetFile.writable w.2 = true →
  saved_positions w.1.1 ≠ ∅ →
  ∃ w1 t1 w2 t2,
    save_positions true w = (Ok tt, w1, t1)
    ∧ load_positions true (w0.1, w1.2) = (Ok tt, w2, t2)
    ∧ saved_positions w2.1.1 = saved_positions w.1.1
    ∧ w2.2 = w1.2.
Proof.
  intros Hw Hne. destruct w as [[s d] disk], w0 as [[s0 d0] disk0].
  cbn [fst snd] in *.
  unfold save_positions, load_positions, this, on_disk, on_interface,
    update, PresetFile.load_positions_from_file,
    PresetFile.save_positions_to_file.
  py_unfold. cbn [fst snd]. rewrite Hw. cbn [fst snd PresetFile.document].
  eexists _, _, _, _. split; [reflexivity|].
  cbn [fst snd PresetFile.document saved_positions set_saved_positions].
  rewrite bool_decide_eq_false_2 by done.
  split; [reflexivity|]. done.
Qed.

End Store.

Lemma emergency_stop_frees_the_interface_witness :
  ∃ s' t,
    emergency_stop Scene.moving = (Ok tt, (s', Scene.moving.2), t)
    ∧ s' = set_torque_enabled false
             (set_target_position None (set_is_moving false Scene.moving.1))
    ∧ signals t = [Emit (status_changed "torque_disabled");
                   Emit (status_changed "emergency_stopped")]
    ∧ adapter_io t = []
    ∧ ∃ b w'' t',
        move_to_position Scene.no_driver "rest" None (s', Scene.moving.2)
          = (Ok b, w'', t')
        ∧ hd_error (signals t') = Some (Emit (movement_started "rest")).
Proof.
  apply (emergency_stop_frees_the_interface Scene.no_driver Scene.moving
    "rest" None (RobotUtils.pose 0 (-1024) 1024 0 0)); reflexivity.
Defined.

Lemma basic_mode_move_fails_witness :
  ∃ t,
    move_to_position Scene.no_driver "rest" None MoreScenes.basic
      = (Ok false,
         (set_target_position None
            (set_is_moving false MoreScenes.basic.1),
          MoreScenes.basic.2), t)
    ∧ signals t = [Emit (error_occurred "move" NameError)]
    ∧ adapter_io t = []
    ∧ List.filter (λ o, match o with Sleep _ => true | _ => false end) t
        = [].
Proof.
  apply (proj2 (basic_mode_move_fails Scene.no_driver) MoreScenes.basic
    "rest" None (RobotUtils.pose 0 (-1024) 1024 0 0)); reflexivity.
Defined.

Lemma saved_table_survives_reload_witness :
  ∃ w1 t1 w2 t2,
    save_positions true (Scene.connected, MoreScenes.blank_disk)
      = (Ok tt, w1, t1)
    ∧ load_positions true (Scene.fresh, w1.2) = (Ok tt, w2, t2)
    ∧ saved_positions w2.1.1 = saved_positions Scene.connected.1
    ∧ w2.2 = w1.2.
Proof.
  apply (saved_table_survives_reload
    (Scene.connected, MoreScenes.blank_disk)
    (Scene.fresh, MoreScenes.blank_disk)).
  - reflexivity.
  - intros H. apply (f_equal (λ m, m !! "rest")) in H.
    vm_compute in H. discriminate H.
Defined.

End InterfaceMoreFacts.

(** ** The nod gesture *)

Module NodFacts.
Import Interface InterfaceMore MotionSpec TraceSpec.

(** [try: m; k except: h] when [m] does not raise. *)
Lemma try_except_bind_ok {S A B} (m : Py.M S A) (k : A → Py.M S B)
    (h : exn → Py.M S B) (s : S) a s1 t1 :
  m s = (Ok a, s1, t1) →
  Py.try_except (Py.bind m k) h s =
  (let '(r, s', t) := Py.try_except (k a) h s1 in (r, s', t1 ++ t)).
Proof.
  intros Hm. unfold Py.try_except, Py.bind. rewrite Hm.
  destruct (k a s1) as [[[b|e] s2] t2]; [done|].
  destruct (h e s2) as [[r s3] t3]. by rewrite app_assoc.
Qed.

Section WithDriver.
Context {Dev : Type} (drv : Driver Dev).

(** The robot object never emits a Qt signal. *)
Lemma read_position_signals (w : Manipulator.World Dev) :
  signals (Manipulator.read_position drv w).2 = [].
Proof.
  destruct w as [r d].
  unfold Manipulator.read_position, Manipulator._read_mock_position,
    Manipulator._read_real_position, Manipulator.self, Manipulator.bus_read.
  py_unfold. simpl.
  destruct (Manipulator.is_connected r); simpl; [|done].
  destruct (Manipulator.mock_mode r); simpl.
  - by destruct (Manipulator.follower_arms_cfg (Manipulator.config r))
      as [|[] ?].
  - destruct (Manipulator.follower_arms r); simpl; [done|].
    by destruct (drv_read drv d) as [[p|e] d'].
Qed.

Lemma for_each_prints_signals {A} (xs : list A) (line : string)
    (w : Manipulator.World Dev) :
  ∃ t, Py.for_each xs (λ _, Py.print line) w = (Ok tt, w, t)
    ∧ signals t = [].
Proof.
  induction xs as [|x xs (t & IH & Ht)]; simpl.
  - by exists [].
  - py_unfold. rewrite IH. simpl. eauto.
Qed.

Lemma write_mock_signals (w : Manipulator.World Dev) (q : Position) :
  signals (Manipulator._write_mock_position q w).2 = [].
Proof.
  destruct w as [r d].
  unfold Manipulator._write_mock_position, Manipulator.self,
    Manipulator.update. py_unfold. simpl.
  by destruct (Manipulator.follower_arms_cfg (Manipulator.config r))
    as [|[] ?].
Qed.

Lemma write_real_signals (w : Manipulator.World Dev) (q : Position) :
  signals (Manipulator._write_real_position drv q w).2 = [].
Proof.
  destruct w as [r d].
  unfold Manipulator._write_real_position, Manipulator.self,
    Manipulator.bus_write. py_unfold. simpl.
  destruct (Manipulator.follower_arms r); simpl; [done|].
  by destruct (drv_write drv q d) as [[[]|e] d'].
Qed.

Ltac write_branch :=
  match goal with
  | |- context [Manipulator._write_mock_position ?q ?w0] =>
      let H := fresh "Hw" in
      pose proof (write_mock_signals w0 q) as H;
      destruct (Manipulator._write_mock_position q w0) as [[? ?] ?];
      cbn [snd] in H
  | |- context [Manipulator._write_real_position ?d ?q ?w0] =>
      let H := fresh "Hw" in
      pose proof (write_real_signals w0 q) as H;
      destruct (Manipulator._write_real_position d q w0) as [[? ?] ?];
      cbn [snd] in H
  end.

Lemma write_position_signals (w : Manipulator.World Dev) (p : Position) :
  signals (Manipulator.write_position drv p w).2 = [].
Proof.
  destruct w as [r d].
  unfold Manipulator.write_position, Manipulator.self.
  unfold Py.bind at 1 2, Py.tell, Py.gets. cbn [fst snd].
  destruct (Manipulator.is_connected r) eqn:Hc; cbn [negb]; [|done].
  unfold Py.bind at 1.
  destruct (Manipulator.max_relative_target (Manipulator.config r))
    as [bound|].
  - unfold Py.bind at 1.
    pose proof (read_position_signals (r, d)) as Hsig.
    destruct (ManipulatorFacts.read_position_connected drv (r, d) Hc)
      as (cur & d1 & t1 & Hread & _). cbn [fst] in Hread.
    rewrite Hread in Hsig |- *. cbn [snd] in Hsig.
    destruct (bool_decide (cur = ∅)).
    + unfold Py.ret. destruct (Manipulator.mock_mode r); write_branch;
        unfold signals in *; simpl;
        by rewrite !List.filter_app, Hsig, Hw.
    + unfold Manipulator.log_clamp_warnings, Py.bind at 1.
      destruct (for_each_prints_signals
        (map_to_list (Clamp.warned_joints p cur bound))
        "relative goal position magnitude had to be clamped" (r, d1))
        as (t2 & -> & Ht2).
      unfold Py.ret. destruct (Manipulator.mock_mode r); write_branch;
        unfold signals in *; simpl;
        by rewrite !List.filter_app, Hsig, Ht2, Hw.
  - unfold Py.ret. destruct (Manipulator.mock_mode r); write_branch;
      unfold signals in *; simpl; by rewrite Hw.
Qed.

Lemma on_robot_signals {A} (m : Manipulator.Mth Dev A) (w : World Dev) :
  (∀ rw, signals (m rw).2 = []) → signals (on_robot m w).2 = [].
Proof.
  intros Hm. unfold on_robot. destruct (lerobot_robot w.1) as [r|]; [|done].
  specialize (Hm (r, w.2)).
  by destruct (m (r, w.2)) as [[a [r' d']] t].
Qed.

(** A call on the robot object, seen from the interface: only the robot
    object changes, and no signal is emitted. *)
Lemma on_robot_quiet {A} (m : Manipulator.Mth Dev A) (w : World Dev) :
  (∀ rw, signals (m rw).2 = []) →
  ∃ r w' t, on_robot m w = (r, w', t)
    ∧ same_flags w.1 w'.1 ∧ signals t = [].
Proof.
  intros Hm. pose proof (on_robot_signals m w Hm) as Hsig.
  destruct (InterfaceFacts.on_robot_frame m w) as (r & w' & t & Heq & Hf).
  rewrite Heq in Hsig. eauto 10.
Qed.

Lemma nod_once_quiet (lerobot : bool) (w : World Dev) :
  ∃ r w' t, nod_once drv lerobot w = (r, w', t)
    ∧ same_flags w.1 w'.1 ∧ signals t = [].
Proof.
  unfold nod_once. destruct lerobot.
  2: { py_unfold. eexists _, _, _. split; [reflexivity|].
       split; [apply InterfaceFacts.same_flags_refl|done]. }
  unfold Py.bind at 1, Py.print, Py.tell. unfold Py.bind at 1.
  destruct (on_robot_quiet (Manipulator.get_current_positions drv) w)
    as ([cur|e] & w1 & t1 & -> & Hf1 & Hs1).
  { apply read_position_signals. }
  2: { eexists _, _, _. split; [reflexivity|]. split; [done|].
       unfold signals in *. simpl. by rewrite Hs1. }
  unfold Py.bind at 1.
  match goal with |- context [on_robot ?m w1] =>
    destruct (on_robot_quiet m w1) as ([b2|e] & w2 & t2 & -> & Hf2 & Hs2) end.
  { intros rw. apply write_position_signals. }
  2: { eexists _, _, _. split; [reflexivity|].
       split; [by eapply InterfaceMoreFacts.same_flags_trans|].
       unfold signals in *. simpl. by rewrite !List.filter_app, Hs1, Hs2. }
  unfold Py.bind at 1, Py.sleep, Py.tell. unfold Py.bind at 1.
  match goal with |- context [on_robot ?m w2] =>
    destruct (on_robot_quiet m w2) as ([b3|e] & w3 & t3 & -> & Hf3 & Hs3) end.
  { intros rw. apply write_position_signals. }
  all: eexists _, _, _; (split; [reflexivity|]);
    (split; [eapply InterfaceMoreFacts.same_flags_trans; [|exact Hf3];
             by eapply InterfaceMoreFacts.same_flags_trans|]);
    unfold signals in *;
    repeat (progress (simpl; rewrite ?List.filter_app, ?Hs1, ?Hs2, ?Hs3));
    done.
Qed.

Lemma nod_loop_quiet {A} (xs : list A) (lerobot : bool) (w : World Dev) :
  ∃ r w' t, Py.for_each xs (λ _, nod_once drv lerobot) w = (r, w', t)
    ∧ same_flags w.1 w'.1 ∧ signals t = [].
Proof.
  revert w. induction xs as [|x xs IH]; intros w.
  - exists (Ok tt), w, []. split; [done|].
    split; [apply InterfaceFacts.same_flags_refl|done].
  - simpl. unfold Py.bind.
    destruct (nod_once_quiet lerobot w) as ([[]|e] & w1 & t1 & -> & Hf1 & Hs1).
    + destruct (IH w1) as (r & w2 & t2 & -> & Hf2 & Hs2).
      eexists _, _, _. split; [reflexivity|].
      split; [by eapply InterfaceMoreFacts.same_flags_trans|].
      unfold signals in *. by rewrite List.filter_app, Hs1, Hs2.
    + eexists _, _, _. split; [reflexivity|]. done.
Qed.

Lemma nod_loop_basic {A} (xs : list A) (w : World Dev) :
  ∃ t, Py.for_each xs (λ _, nod_once drv false) w = (Ok tt, w, t)
    ∧ signals t = [].
Proof.
  induction xs as [|x xs (t & IH & Hs)]; simpl.
  - by exists [].
  - unfold nod_once at 1. py_unfold. rewrite IH.
    eexists. split; [reflexivity|]. done.
Qed.

(** [move_to_position] never raises and changes neither the connection
    nor the torque flag. *)
Lemma move_to_position_keeps (w : World Dev) position_name duration :
  ∃ b w' t, move_to_position drv position_name duration w = (Ok b, w', t)
    ∧ is_connected w'.1 = is_connected w.1
    ∧ torque_enabled w'.1 = torque_enabled w.1.
Proof.
  assert (Rejection w.1 position_name →
    ∃ b w' t, move_to_position drv position_name duration w = (Ok b, w', t)
      ∧ is_connected w'.1 = is_connected w.1
      ∧ torque_enabled w'.1 = torque_enabled w.1) as Hrej.
  { intros HR.
    destruct (InterfaceFacts.move_rejected drv w position_name duration HR)
      as (Hb & Hw & _).
    destruct (move_to_position drv position_name duration w) as [[r w'] t].
    simpl in Hb, Hw. subst. eauto 10. }
  destruct (is_connected w.1) eqn:Hc; [|apply Hrej; by apply NotConnected].
  destruct (is_moving w.1) eqn:Hm; [apply Hrej; by apply Busy|].
  destruct (saved_positions w.1 !! position_name) as [target|] eqn:Hs;
    [|apply Hrej; by apply UnknownPreset].
  destruct (lerobot_available w.1) eqn:Ha.
  2: { rewrite (InterfaceFacts.move_name_error drv w position_name duration
         target Hc Hm Hs Ha).
       eexists _, _, _. split; [reflexivity|]. done. }
  destruct (RobotUtils.check_position_safety target (joint_limits w.1))
    eqn:Hu; [|apply Hrej; by eapply UnsafePosition].
  clear Hrej.
  unfold move_to_position, imported_name, self, update. py_unfold.
  simpl. rewrite Hc, Hm. simpl. rewrite Hs. simpl. rewrite Ha. simpl.
  rewrite Hu. simpl.
  set (w1 := (set_target_position (Some position_name)
                (set_is_moving true w.1), w.2)).
  assert (∃ b w' t,
    (if lerobot_active w.1 then _move_lerobot drv target duration
     else _move_basic target duration) w1 = (Ok b, w', t)
    ∧ same_flags w1.1 w'.1) as (b & w' & t & Heq & Hf)
    by apply InterfaceFacts.move_total.
  assert (is_connected w'.1 = true ∧ torque_enabled w'.1 = torque_enabled w.1)
    as [Hc' Ht'].
  { rewrite Hf. destruct w as [[] ?]. simpl in *. by subst. }
  destruct w' as [s' d'].
  destruct (lerobot_active w.1); rewrite Heq; clear Heq;
    (destruct b; simpl;
     (eexists _, _, _; split; [reflexivity|]; simpl; done)).
Qed.

Lemma enable_torque_connected (w : World Dev) :
  is_connected w.1 = true →
  enable_torque w =
  (Ok true, (set_torque_enabled true w.1, w.2),
   [Print "enabling torque"; Print "torque enabled";
    Emit (status_changed "torque_enabled")]).
Proof.
  intros Hc. unfold enable_torque, self, update. py_unfold. simpl.
  rewrite Hc. done.
Qed.

Lemma same_flags_fields s s' :
  same_flags s s' →
  is_connected s' = is_connected s ∧ torque_enabled s' = torque_enabled s.
Proof. unfold same_flags. intros ->. done. Qed.

(** [nod] never raises.  A disconnected interface turns it down without
    a signal.  On a connected one the torque is on afterwards, the
    [movement_started] signal of the nod is emitted, and the last signal
    tells how it went: [movement_completed] when the answer is [True],
    [error_occurred] when it is [False]; in basic mode the answer is
    [True]. *)
Theorem nod_outcome (w : World Dev) (times : Z) :
  ∃ b w' t,
    nod drv times w = (Ok b, w', t)
    ∧ (is_connected w.1 = false → b = false ∧ w' = w ∧ signals t = [])
    ∧ (is_connected w.1 = true →
         is_connected w'.1 = true ∧ torque_enabled w'.1 = true
         ∧ Emit (movement_started "nod") ∈ signals t
         ∧ (b = true →
              last (signals t) = Some (Emit (movement_completed "nod")))
         ∧ (b = false →
              ∃ e, last (signals t) = Some (Emit (error_occurred "nod" e)))
         ∧ (lerobot_active w.1 = false → b = true)).
Proof.
  destruct w as [s d]. cbn [fst snd].
  unfold nod, self.
  unfold Py.bind at 1, Py.print at 1, Py.tell at 1.
  unfold Py.bind at 1, Py.gets at 1. cbn [fst snd].
  destruct (is_connected s) eqn:Hc; cbn [negb].
  2: { py_unfold. eexists _, _, _. split; [reflexivity|].
       split; [done|]. intros H. discriminate H. }
  assert (∀ (w1 : World Dev) tA,
    is_connected w1.1 = true → torque_enabled w1.1 = true →
    ∃ b w' t,
      Py.try_except
        (Py.emit (movement_started "nod") >>
         Py.for_each (RobotUtils.py_range times)
           (λ _, nod_once drv (lerobot_active s)) >>
         (if bool_decide
               (is_Some (saved_positions s !! current_position s))
          then
            let! _ := move_to_position drv (current_position s) None in
            Py.ret tt
          else Py.ret tt) >>
         Py.print "nod done" >>
         Py.emit (movement_completed "nod") >>
         Py.ret true)
        (λ e,
           Py.print "nod failed" >>
           Py.emit (error_occurred "nod" e) >>
           Py.ret false) w1 = (Ok b, w', t)
      ∧ is_connected w'.1 = true ∧ torque_enabled w'.1 = true
      ∧ Emit (movement_started "nod") ∈ signals (Print "nod" :: tA ++ t)
      ∧ (b = true →
           last (signals (Print "nod" :: tA ++ t))
             = Some (Emit (movement_completed "nod")))
      ∧ (b = false →
           ∃ e, last (signals (Print "nod" :: tA ++ t))
                  = Some (Emit (error_occurred "nod" e)))
      ∧ (lerobot_active s = false → b = true)) as Hrest.
  { intros w1 tA Hc1 Ht1.
    unfold Py.try_except, Py.bind at 1, Py.emit at 1, Py.tell at 1.
    unfold Py.bind at 1.
    destruct (nod_loop_quiet (RobotUtils.py_range times)
      (lerobot_active s) w1) as (r2 & w2 & t2 & Hloop & Hf2 & Hs2).
    destruct (same_flags_fields _ _ Hf2) as [Hc2 Ht2].
    rewrite Hc1 in Hc2. rewrite Ht1 in Ht2.
    assert (lerobot_active s = false → r2 = Ok tt) as Hbasic.
    { intros Hl. rewrite Hl in Hloop.
      destruct (nod_loop_basic (RobotUtils.py_range times) w1)
        as (t0 & Heq0 & _).
      rewrite Heq0 in Hloop. congruence. }
    rewrite Hloop. destruct r2 as [[]|e].
    2: { py_unfold. eexists _, _, _. split; [reflexivity|]. cbn [fst snd].
         split; [done|]. split; [done|].
         split.
         { apply list_elem_of_In, filter_In. split; [|done].
           apply list_elem_of_In.
           rewrite !elem_of_cons, !elem_of_app, !elem_of_cons. tauto. }
         split; [done|]. split.
         { intros _. exists e. unfold signals.
           simpl. rewrite !List.filter_app. simpl.
           repeat (progress (rewrite ?List.filter_app, ?last_app,
                               ?last_cons, ?last_snoc; simpl)).
           done. }
         intros Hl. by specialize (Hbasic Hl). }
    unfold Py.bind at 1.
    assert (∃ w3 t3,
      (if bool_decide (is_Some (saved_positions s !! current_position s))
       then
         let! _ := move_to_position drv (current_position s) None in
         Py.ret tt
       else Py.ret tt) w2 = (Ok tt, w3, t3)
      ∧ is_connected w3.1 = true ∧ torque_enabled w3.1 = true)
      as (w3 & t3 & Hmove & Hc3 & Ht3).
    { destruct (bool_decide
        (is_Some (saved_positions s !! current_position s))).
      - destruct (move_to_position_keeps w2 (current_position s) None)
          as (b & w3 & t3 & Hmv & Hc3 & Ht3).
        unfold Py.bind. rewrite Hmv. unfold Py.ret.
        eexists _, _. split; [reflexivity|]. cbn [fst].
        by rewrite Hc3, Ht3.
      - unfold Py.ret. eauto. }
    rewrite Hmove. py_unfold.
    eexists _, _, _. split; [reflexivity|]. cbn [fst snd].
    split; [done|]. split; [done|].
    split.
    { apply list_elem_of_In, filter_In. split; [|done].
      apply list_elem_of_In.
      rewrite !elem_of_cons, !elem_of_app, !elem_of_cons. tauto. }
    split.
    { intros _. unfold signals. simpl. rewrite !List.filter_app. simpl.
      repeat (progress (rewrite ?List.filter_app, ?last_app, ?last_cons,
                          ?last_snoc; simpl)).
      done. }
    split; [intros H; discriminate H|done]. }
  destruct (torque_enabled s) eqn:Ht; cbn [negb].
  - match goal with |- context [Py.try_except (Py.bind ?A ?K) ?h ?w0] =>
      rewrite (try_except_bind_ok A K h w0 tt w0 [] eq_refl);
      destruct (Hrest w0 []) as (b & w' & t & Heq & Hprops);
        [done|done|]
    end.
    cbn beta. rewrite Heq.
    exists b, w', (Print "nod" :: [] ++ t).
    split; [reflexivity|]. split; [intros H; discriminate H|].
    intros _. exact Hprops.
  - match goal with |- context [Py.try_except (Py.bind ?A ?K) ?h ?w0] =>
      assert (A w0 = (Ok tt, (set_torque_enabled true s, d),
                [Print "enabling torque"; Print "torque enabled";
                 Emit (status_changed "torque_enabled")])) as HA
        by (unfold Py.bind; rewrite enable_torque_connected by done;
            reflexivity);
      rewrite (try_except_bind_ok A K h w0 tt _ _ HA)
    end.
    destruct (Hrest (set_torque_enabled true s, d)
      [Print "enabling torque"; Print "torque enabled";
       Emit (status_changed "torque_enabled")])
      as (b & w' & t & Heq & Hprops); [done|done|].
    cbn beta. rewrite Heq.
    eexists b, w', _.
    split; [reflexivity|]. split; [intros H; discriminate H|].
    intros _. exact Hprops.
Qed.

End WithDriver.
End NodFacts.
